(* ===== verification/_CoqProject ===== *)
-Q . S2P
Prelude.v
Index.v
Parser.v
Ranker.v
Url.v
Robots.v
Frontier.v
Dedup.v
Search.v
Pipeline.v
RunPipeline.v
Serve.v
Concurrent.v
