(* ===== verification/Prelude.v ===== *)
(** * A verification development of the spork search pipeline

    spork (src/) is a small Python search engine built as a pipeline of
    batch stages and one HTTP endpoint:

      - [src/src/crawler.py]: [RobotsTxt] (robots.txt rules and per-host
        crawl delay) and [Crawler] (an asyncio crawl loop over a shared
        [frontier] / [visited] pair of sets, run by [max_concurrency]
        workers that save pages and follow links);
      - [src/src/parser.py]: [Document] (HTML to a JSON document with
        a token list, through BeautifulSoup and spaCy) and
        [Parser.parse_all] over the stored pages;
      - [src/src/dedupe.py]: [Deduplicator], a one-pass MinHash-LSH filter
        (datasketch) that keeps the first document of every near-duplicate
        cluster;
      - [src/src/indexer.py]: [InvertedIndex] ([add_document], [save],
        [load]) and [Indexer.build], a positional inverted index with
        document statistics, term document frequencies and a document
        table, pickled to [data/index.pkl];
      - [src/src/ranker.py]: [BM25], [SemanticRanker] (cosine similarity of
        embeddings) and [HybridRanker] (weighted fusion);
      - [src/src/api.py]: the module that loads the index snapshot and
        the [/search] handler that filters, scores every document of the
        table, sorts and truncates;
      - [src/src/embedder.py]: the embedding stage;
      - [src/scripts/run_pipeline.py]: the driver running crawl, parse,
        dedupe, index and embed in order; [src/main.py] starts the
        HTTP server.

    The crawler writes pages that the parser turns into documents; the
    deduplicator reads those and writes the kept ones; the indexer builds
    the index from them and the embedder the embeddings; the API loads
    the index (and lazily the embeddings) and ranks its documents with
    the scorers.

    The development is a shallow embedding.  Python functions become Rocq
    functions; an exception is the [Raise] branch of [result] below, and a
    handler returns a [result]; dicts and sets are stdpp [gmap] and
    [gset] (a dict whose order matters is a list); Python strings are
    [string], one character per code point below 256; integers are [nat]
    or [Z], with numpy's 64-bit wrap-around written out where the code
    relies on it; floats are exact reals ([R]) in the rankers, with NaN as
    a value of its own in the search handler, and rationals ([Q]) for the
    crawler's clock.  Rounding is not modelled.

    Files, in dependency order (see _CoqProject):
      - [Prelude] (this file): [result], its bind notation and its
        decidable equality, the Python string primitives the sources use
        ([str.lower], idempotent, [startswith], [endswith], [in], [str.isspace],
        [strip], [splitlines], [split(':', 1)], [split()],
        [re.findall(r'\d+')[0]], [int], [str.replace]) and [list.count],
        with the shared list, map and string lemmas and the [spork] hint
        databases.
      - [Index]: the JSON document [Doc] and its metadata,
        [InvertedIndex.t], [add_document] (with the [positions]
        grouping), [save] and [load] through the pickled dict
        [Pickled], the [Indexer] object and its [build()]
        ([Indexer.build_on]; [Indexer.build] on a fresh object); the
        invariant [wf] (postings are the exact occurrence lists,
        [term_doc_freq] counts the postings, [N] and [doc_stats] match
        the table), preserved by [add_document] for a fresh id and
        established by [build] when the ids are distinct
        ([add_document_wf], [build_wf]); two file names with one id break
        it, and so does a second [build()] of one [Indexer]
        ([indexer_build_twice]); the postings [add_document] writes give
        back the document's token sequence ([add_document_decode]).
      - [Parser]: [Document.init], [parse], [tokenize] and [to_dict] over
        what they read of BeautifulSoup's tree ([Soup]) and of spaCy's
        tokens ([NlpToken]); every token is a lowered lemma that is not a
        stop word ([document_tokens_normalised]), and [Document(...)]
        raises exactly on a canonical link without [href].
      - [Ranker]: [BM25.init], [idf], [score]; a score is the spec's BM25
        formula written out ([score_ok]), its two exceptions ([score_errors]), the
        non-negativity of [idf], monotonicity in the term frequencies
        ([score_mono]) and the spec's three-document scenario
        ([bm25_scenario]).
      - [Url]: CPython's [urlparse], the library function the crawler
        uses to take a URL's path and host.
      - [Robots]: [RobotsTxt] ([_parse], [_fetch_robots], [allowed],
        [wait]); the meaning of [allowed], the empty [Disallow:] rule, the
        partial parse kept on the [IndexError] of any digitless
        [crawl-delay:] line, and the spacing [wait] enforces.
      - [Frontier]: [Crawler.crawl] as a step relation over a state of
        shared sets, the free permits of the semaphore and one state per
        worker, each step running one worker up to its next suspension
        ([await]; the relation also allows interleavings the event loop
        does not produce, so the universal theorems hold a fortiori and
        each concrete run is checked to be one it produces), and an
        executable interpreter [run] of schedules proved sound
        ([run_sound]); [fetch] is split at its request into
        [fetch_prefix] and [fetch_rest] (status 200 and an HTML content
        type).  Invariants by induction on the reachable states: a
        visited URL never returns to the frontier, at most
        [limit - 1 + W] URLs are visited, stored pages match [visited],
        every [RobotsTxt] of a crawl keeps the default policy.
        Termination: the step relation is strongly normalising from the
        initial state ([crawl_terminates], by a lexicographic measure on
        the unvisited budget, the stale fetches, the frontier and the
        workers), and liveness: a state where [asyncio.gather] returns is
        always reachable and every stuck state is one
        ([crawl_finishes]), which rests on the semaphore having as many
        permits as there are workers.  Concrete schedules evaluated by [run]
        exceed the limit, fetch one URL twice, fetch [http] and [https]
        pages of a host without spacing, and fetch a URL again after a
        failed fetch.
      - [Dedup]: datasketch's MinHash and MinHashLSH, the
        [Deduplicator] object and [dedupe] (on a fresh object, and
        [dedupe_on] on a given one); one iteration skips, writes or
        raises, [dedupe] returns when the ids are distinct
        ([dedupe_total]) and raises for the names [h.json] and
        [h.json.json] of two non-colliding documents ([dedupe_id_clash]),
        the written documents never share a band, and every dropped
        document shares one with a written document.
      - [Search]: Python's comparisons, [list.sort(reverse=True)] and
        slicing, the semantic and hybrid scorers, the module state of
        [api.py] (with the index loaded from its snapshot) and [search];
        the ranking is a top-K sorted by
        [(score, doc_id)], the site filter, the length of a slice with a
        negative [topK], the failure on a missing embedding, independence
        from the table's iteration order, NaN scores from a zero vector
        and the one-time loading of the embeddings when requests come
        one at a time.
      - [Pipeline]: the [Parser] object and [parse_all], the
        [Embedder] object and [Embedder.build], and the
        composition of the stages: on the parser's output the
        deduplicator does not raise and the index built from its output
        is well formed, for every crawl and every directory order
        ([pipeline_index_wf]); the embedder gives an embedding to exactly
        the documents of the index ([pipeline_embeddings_cover]) and
        raises exactly on a [null] title ([embedder_null_title]).
      - [RunPipeline]: [run_pipeline.py]: its constants (paths, four
        seeds, three workers, [limit = 20]), the [Deduplicator],
        [Indexer] and [Embedder] objects it creates, and the stages run on the state
        where the crawl stopped, up to the two files it writes; when the
        script finishes [data/index.pkl] holds a well-formed index that
        matches the embeddings and holds at most 22 documents
        ([run_pipeline_ok]), and it stops only on a worker's exception, a
        canonical link without [href] or a [null] title
        ([run_pipeline_errors]).
      - [Serve]: [main.py]: the import of [api] (the snapshot load) and
        the requests answered one after another; the served state keeps
        the loaded index ([api_ok]), and on the files of
        [run_pipeline.py] every request gets hits except a
        [ZeroDivisionError] on an index of empty documents
        ([serve_pipeline_output]).
      - [Concurrent]: uvicorn's thread pool answering requests at once.
        The module globals of [api.py] ([Globals]), a thread's position
        in [get_semantic] ([pc]) and the atomic steps between its reads
        and writes of a global ([thread_step]); [pool_step] lets any
        thread of the pool step, [run_sched] runs a schedule.  Every
        interleaving reads the embeddings at most once per request and
        answers each request as the sequential [serve] does or with
        [AttributeError] ([pool_answers]); both the [AttributeError] and
        a second read of the embeddings happen on some schedule
        ([get_semantic_race]).

    PROJECT.json lists the claims (C1, C2, ...) in order of importance;
    each claim's theorem carries its id in its comment.

    Every claim with hypotheses has a witness lemma that applies it to a
    concrete input (the spec's corpus of three documents, small crawls of
    two seed URLs), evaluated by [reflexivity] or [vm_compute].

    Bounds and fuel: no definition needs fuel except [replace_go], whose
    fuel is the length of the string (each step consumes a character);
    [replace_go_fuel] shows that any larger fuel gives the same result.
    The crawl is a relation, not a function: its termination is stated
    as strong normalisation ([sn]) and proved by well-founded induction,
    so no fuel bounds it.  The crawl bound [limit - 1 + W] is exact: the
    schedule of [crawl_exceeds_limit] reaches it with [limit = 1] and
    [W = 2].  The sort model is the result
    of CPython's sort only when [<] is a total order on the candidates,
    which holds when no score is NaN; the theorems on the order assume
    it.

    Not modelled: network and file I/O (aiohttp, open, json, the bytes
    of pickle, os.makedirs, os.listdir: their results are inputs of the
    model, a directory listing being a list of (file name, decoded
    document) pairs and a pickled dict a record of its keys), the HTML
    parser and the tokenizer themselves (BeautifulSoup, spaCy: what the
    code reads of them is a section variable), the embedding model
    (SentenceTransformer, a parameter), the hash functions (sha256,
    datasketch's sha1_hash32: parameters), the choice of LSH bands from
    the threshold, float rounding, [len] of non-ASCII text (a string is
    a list of bytes), directories left over from an earlier run (the
    driver starts from empty ones), and the FastAPI routing and HTTP
    layer (a request is its [SearchRequest]).  The thread pool is
    modelled at the granularity of the handler's reads and writes of
    module globals, the steps the GIL can separate; which thread runs
    when is left open (every interleaving is a [pool_step] sequence).

    Each file opens with a comment saying what it models and proves. *)

From stdpp Require Export base gmap strings list sets.
From Stdlib Require Export ZArith Lia.
From Stdlib Require Import Ascii.

Declare Scope spork_scope.
Delimit Scope spork_scope with spork.
Open Scope spork_scope.

Create HintDb spork.
Create Rewrite HintDb spork_rw.

(** ** Python exceptions as values *)

(** The exceptions the modelled code can raise (and that matter for
    its behaviour). *)
Inductive py_exc :=
  | KeyError
  | ZeroDivisionError
  | IndexError
  | ValueError
  | RuntimeError
  | TypeError
  | AttributeError.

#[export] Instance py_exc_eq_dec : EqDecision py_exc.
Proof. solve_decision. Defined.

(** A computation that returns an [A] or raises. *)
Inductive result (A : Type) :=
  | Ok (a : A)
  | Raise (e : py_exc).
Arguments Ok {A} a.
Arguments Raise {A} e.

#[export] Instance result_eq_dec {A} `{EqDecision A} : EqDecision (result A).
Proof. solve_decision. Defined.

Definition result_bind {A B} (r : result A) (k : A -> result B) : result B :=
  match r with
  | Ok a => k a
  | Raise e => Raise e
  end.

Notation "x <- r ;; k" := (result_bind r (fun x => k))
  (at level 60, r at next level, right associativity) : spork_scope.

(** The value of a computation that returned, [d] if it raised. *)
Definition ok_or {A} (d : A) (r : result A) : A :=
  match r with Ok a => a | Raise _ => d end.

Lemma result_bind_Ok {A B} (r : result A) (k : A -> result B) b :
  result_bind r k = Ok b <-> exists a, r = Ok a /\ k a = Ok b.
Proof. destruct r; naive_solver. Qed.

(** ** Python string primitives (byte strings) *)

Section PyStr.
Local Open Scope string_scope.

(** [str.lower] on code points below 256: [A-Z] and the Latin-1 capitals
    [\xc0]-[\xde] except [\xd7] move up by 32. *)
Definition py_lower_char (c : Ascii.ascii) : Ascii.ascii :=
  let n := Ascii.nat_of_ascii c in
  if (65 <=? n)%nat && (n <=? 90)%nat
     || (192 <=? n)%nat && (n <=? 222)%nat && negb (n =? 215)%nat
  then Ascii.ascii_of_nat (n + 32) else c.

Fixpoint py_lower (s : string) : string :=
  match s with
  | EmptyString => EmptyString
  | String c s' => String (py_lower_char c) (py_lower s')
  end.

(** [str.lower] is idempotent: the lowered letters are not capitals. *)
Lemma py_lower_char_idem c : py_lower_char (py_lower_char c) = py_lower_char c.
Proof. destruct c as [[] [] [] [] [] [] [] []]; reflexivity. Qed.

Lemma py_lower_idem s : py_lower (py_lower s) = py_lower s.
Proof. induction s as [|c s IH]; simpl; [done|]. by rewrite py_lower_char_idem, IH. Qed.

(** [str.startswith prefix]. *)
Definition startswith (s prefix : string) : bool := String.prefix prefix s.

(** [str.endswith suffix]. *)
Definition endswith (s suffix : string) : bool :=
  let n := String.length s in
  let m := String.length suffix in
  (m <=? n)%nat && String.eqb (String.substring (n - m) m s) suffix.

(** [sub in s] on strings. *)
Definition str_contains (s sub : string) : bool :=
  match String.index 0 sub s with Some _ => true | None => false end.

(** [str.isspace] for one character (a code point below 256): [\t \n
    \v \f \r], the separators [\x1c]-[\x1f], the space, [\x85] and the
    no-break space [\xa0]. *)
Definition py_isspace (c : Ascii.ascii) : bool :=
  let n := Ascii.nat_of_ascii c in
  ((9 <=? n) && (n <=? 13) || (28 <=? n) && (n <=? 32) || (n =? 133) || (n =? 160))%nat.

Fixpoint lstrip (s : string) : string :=
  match s with
  | EmptyString => EmptyString
  | String c s' => if py_isspace c then lstrip s' else s
  end.

Definition rev_string (s : string) : string :=
  String.string_of_list_ascii (rev (String.list_ascii_of_string s)).

(** [str.strip()]. *)
Definition strip (s : string) : string := rev_string (lstrip (rev_string (lstrip s))).

(** [str.split()] without arguments: the maximal runs of non-space
    characters, in order ([cur] is the word read so far). *)
Fixpoint split_ws_go (s cur : string) : list string :=
  match s with
  | EmptyString => if cur is EmptyString then [] else [cur]
  | String c s' =>
      if py_isspace c
      then (if cur is EmptyString then [] else [cur]) ++ split_ws_go s' EmptyString
      else split_ws_go s' (cur +:+ String c EmptyString)
  end.

Definition py_split (s : string) : list string := split_ws_go s EmptyString.

(** Line boundaries of [str.splitlines]: [\n \r \v \f \x1c \x1d \x1e \x85]
    ([\r\n] counts as one boundary). *)
Definition is_line_break (c : Ascii.ascii) : bool :=
  let n := Ascii.nat_of_ascii c in
  ((n =? 10) || (n =? 13) || (n =? 11) || (n =? 12)
   || (n =? 28) || (n =? 29) || (n =? 30) || (n =? 133))%nat.

Fixpoint splitlines_go (s acc : string) : list string :=
  match s with
  | EmptyString => match acc with EmptyString => [] | _ => [acc] end
  | String c s' =>
      if is_line_break c then
        match c, s' with
        | "013"%char, String "010"%char s'' => acc :: splitlines_go s'' ""
        | _, _ => acc :: splitlines_go s' ""
        end
      else splitlines_go s' (acc +:+ String c "")
  end.

(** [str.splitlines()]. *)
Definition splitlines (s : string) : list string := splitlines_go s "".

(** [s.split(sep, 1)] for a one-character separator: [None] when [sep]
    does not occur (Python then returns the one-element list [[s]]). *)
Fixpoint split_once (sep : Ascii.ascii) (s : string) : option (string * string) :=
  match s with
  | EmptyString => None
  | String c s' =>
      if Ascii.eqb c sep then Some ("", s')
      else match split_once sep s' with
           | Some (a, b) => Some (String c a, b)
           | None => None
           end
  end.

Definition is_digit (c : Ascii.ascii) : bool :=
  let n := Ascii.nat_of_ascii c in ((48 <=? n) && (n <=? 57))%nat.

Definition digit_val (c : Ascii.ascii) : Z := Z.of_nat (Ascii.nat_of_ascii c - 48).

(** The longest run of digits at the head of [s]. *)
Fixpoint digit_prefix (s : string) : string :=
  match s with
  | String c s' => if is_digit c then String c (digit_prefix s') else EmptyString
  | EmptyString => EmptyString
  end.

(** [re.findall(r'\d+', s)[0]]: the first maximal digit run, or
    [IndexError] when [s] has no digit. *)
Fixpoint first_digit_run (s : string) : result string :=
  match s with
  | EmptyString => Raise IndexError
  | String c s' => if is_digit c then Ok (digit_prefix s) else first_digit_run s'
  end.

(** [int(d)] for a string of decimal digits. *)
Definition int_of_digits (d : string) : Z :=
  fold_left (fun acc c => 10 * acc + digit_val c)%Z (String.list_ascii_of_string d) 0%Z.

Fixpoint replace_go (fuel : nat) (old new s : string) : string :=
  match fuel, s with
  | O, _ => s
  | _, EmptyString => EmptyString
  | S f, String c s' =>
      if String.prefix old s
      then new +:+ replace_go f old new
                     (String.substring (String.length old) (String.length s) s)
      else String c (replace_go f old new s')
  end.

Fixpoint interleave (new s : string) : string :=
  match s with
  | EmptyString => new
  | String c s' => new +:+ String c (interleave new s')
  end.

(** [s.replace(old, new)]: every non-overlapping occurrence, left to
    right; an empty [old] inserts [new] around every character.  The
    fuel [String.length s] suffices since every step consumes a
    character. *)
Definition str_replace (old new s : string) : string :=
  match old with
  | EmptyString => interleave new s
  | _ => replace_go (String.length s) old new s
  end.

End PyStr.

(** ** The fuel of [str.replace] *)

Lemma substring_length_le n m s :
  (String.length (String.substring n m s) <= String.length s - n)%nat.
Proof.
  revert n m. induction s as [|c s IH]; intros [|n] [|m]; simpl; try lia.
  - specialize (IH 0%nat m). lia.
  - apply IH.
  - apply IH.
Qed.

(** Any fuel at least the length of the string gives the same result, so
    the fuel [String.length s] of [str_replace] is enough. *)
Lemma replace_go_fuel f1 f2 old new s :
  old <> EmptyString ->
  (String.length s <= f1)%nat -> (String.length s <= f2)%nat ->
  replace_go f1 old new s = replace_go f2 old new s.
Proof.
  intros Hold. revert f2 s. induction f1 as [|f1 IH]; intros f2 s H1 H2.
  - destruct s; simpl in H1; [|lia]. by destruct f2.
  - destruct s as [|c s]; [by destruct f2|]. destruct f2 as [|f2]; simpl in H2; [lia|].
    cbn [replace_go]. assert (1 <= String.length old)%nat by (destruct old; simpl; [done|lia]).
    pose proof (substring_length_le (String.length old) (String.length (String c s)) (String c s)).
    change (String.length (String c s)) with (S (String.length s)) in *.
    destruct (String.prefix old (String c s)); f_equal; apply IH; lia.
Qed.

(** ** File names [h + ".json"] *)

(** A string without a [.] (a hex digest, say). *)
Definition no_dot (h : string) : Prop := forall c, c ∈ String.list_ascii_of_string h -> c <> "."%char.

Lemma string_length_append h t :
  String.length (h +:+ t) = (String.length h + String.length t)%nat.
Proof. induction h; [reflexivity|simpl; lia]. Qed.

Lemma endswith_append h t : endswith (h +:+ t) t = true.
Proof.
  unfold endswith. pose proof (string_length_append h t) as Hl.
  assert (forall n, String.substring (String.length h + n) (String.length t) (h +:+ t) =
                    String.substring n (String.length t) t) as Hs.
  { intros n. clear Hl. induction h as [|c h IH]; [reflexivity|]. simpl. by rewrite IH. }
  rewrite Hl. replace (String.length h + String.length t - String.length t)%nat
    with (String.length h + 0)%nat by lia.
  rewrite (Hs 0%nat). apply andb_true_intro. split; [apply Nat.leb_le; lia|].
  apply String.eqb_eq. clear. induction t as [|c t IH]; [done|]. simpl. by rewrite IH.
Qed.

Lemma replace_go_json_suffix n h :
  no_dot h -> (String.length h < n)%nat -> replace_go n ".json" "" (h +:+ ".json") = h.
Proof.
  revert n. induction h as [|c h IH]; intros [|n] Hh Hn; simpl in Hn; try lia.
  - change (String.append EmptyString ".json") with ".json"%string. simpl. by destruct n.
  - assert (c <> "."%char) as Hc by (apply Hh; simpl; set_solver).
    change (String c h +:+ ".json") with (String c (h +:+ ".json")).
    cbn [replace_go String.prefix].
    destruct (Ascii.ascii_dec "." c) as [E|_]; [by subst|].
    f_equal. apply IH; [|lia]. intros c' Hc'. apply Hh. simpl. set_solver.
Qed.

(** [(h + '.json').replace('.json', '')] gives back [h] when [h] has no
    dot. *)
Lemma str_replace_json_suffix h : no_dot h -> str_replace ".json" "" (h +:+ ".json") = h.
Proof.
  intros Hh. unfold str_replace. apply replace_go_json_suffix; [done|].
  rewrite string_length_append. simpl. lia.
Qed.

(** [str.replace] walks past a prefix without a dot unchanged. *)
Lemma replace_go_no_dot n h t :
  no_dot h -> (String.length h <= n)%nat ->
  replace_go n ".json" "" (h +:+ t) = h +:+ replace_go (n - String.length h) ".json" "" t.
Proof.
  revert n. induction h as [|c h IH]; intros n Hh Hn; simpl in *; [by rewrite Nat.sub_0_r|].
  destruct n as [|n]; [lia|]. assert (c <> "."%char) as Hc by (apply Hh; simpl; set_solver).
  change (String c h +:+ t) with (String c (h +:+ t)).
  cbn [replace_go String.prefix]. destruct (Ascii.ascii_dec "." c) as [E|_]; [by subst|].
  cbn [String.append Nat.sub String.length].
  change (String c h +:+ ?x) with (String c (h +:+ x)).
  f_equal. apply IH; [|lia]. intros c' Hc'. apply Hh. simpl. set_solver.
Qed.

Lemma string_append_nil_r h : h +:+ "" = h.
Proof.
  induction h as [|c h IH]; [reflexivity|].
  change (String c h +:+ "") with (String c (h +:+ "")). by rewrite IH.
Qed.

(** [(h + '.json.json').replace('.json', '')] also gives [h]: both
    occurrences go. *)
Lemma str_replace_json_json h : no_dot h -> str_replace ".json" "" (h +:+ ".json.json") = h.
Proof.
  intros Hh. unfold str_replace.
  rewrite replace_go_no_dot by (done || (rewrite string_length_append; lia)).
  rewrite string_length_append.
  replace (String.length h + String.length ".json.json" - String.length h)%nat with 10%nat
    by (simpl; lia).
  apply string_append_nil_r.
Qed.

Lemma endswith_json_json h : endswith (h +:+ ".json.json") ".json" = true.
Proof.
  assert (h +:+ ".json.json" = (h +:+ ".json") +:+ ".json") as ->; [|apply endswith_append].
  clear. induction h as [|c h IH]; [reflexivity|].
  change (String c h +:+ ?x) with (String c (h +:+ x)). by rewrite IH.
Qed.

(** ** [list.count] *)

Definition py_count (l : list string) (x : string) : nat :=
  length (filter (fun y => y = x) l).

Lemma py_count_app l1 l2 x : py_count (l1 ++ l2) x = (py_count l1 x + py_count l2 x)%nat.
Proof. unfold py_count. by rewrite filter_app, length_app. Qed.

Lemma py_count_le_length l x : (py_count l x <= length l)%nat.
Proof. unfold py_count. apply length_filter. Qed.

Lemma py_count_pos l x : (0 < py_count l x)%nat <-> x ∈ l.
Proof.
  unfold py_count. induction l as [|y l IH]; simpl.
  - split; [lia | set_solver].
  - rewrite filter_cons. case_decide; simpl; set_solver by lia.
Qed.

(** ** Generic list lemmas *)

Lemma filter_ext_in {A} (P Q : A -> Prop) `{!forall x, Decision (P x)}
    `{!forall x, Decision (Q x)} (l : list A) :
  (forall x, x ∈ l -> P x <-> Q x) -> filter P l = filter Q l.
Proof.
  induction l as [|a l IH]; intros HPQ; [done|].
  rewrite !filter_cons. rewrite IH by set_solver.
  destruct (decide (P a)), (decide (Q a)); set_solver.
Qed.

Lemma filter_none {A} (P : A -> Prop) `{!forall x, Decision (P x)} (l : list A) :
  (forall x, x ∈ l -> ~ P x) -> filter P l = [].
Proof.
  induction l as [|a l IH]; intros HP; [done|].
  rewrite filter_cons, decide_False by set_solver. apply IH. set_solver.
Qed.

Lemma elem_of_map_fst {A B} (a : A) (l : list (A * B)) :
  a ∈ map fst l <-> exists b, (a, b) ∈ l.
Proof.
  induction l as [|[x y] l IH]; simpl; [set_solver|].
  rewrite elem_of_cons, IH. setoid_rewrite elem_of_cons. naive_solver.
Qed.

(** A boolean test fails on a list at some index exactly when
    [forallb] fails, and succeeds at an index when [existsb] succeeds. *)
Lemma forallb_false_lookup {A} (f : A -> bool) (l : list A) :
  forallb f l = false -> exists i x, l !! i = Some x /\ f x = false.
Proof.
  induction l as [|a l IH]; simpl; [done|].
  destruct (f a) eqn:Ha; simpl; [|by exists 0, a].
  intros (i & x & ?)%IH. by exists (S i), x.
Qed.

Lemma existsb_lookup {A} (f : A -> bool) (l : list A) i x :
  l !! i = Some x -> f x = true -> existsb f l = true.
Proof.
  intros Hi Hx. apply existsb_exists. exists x. split; [|done].
  by eapply list_elem_of_In, list_elem_of_lookup_2.
Qed.

(** A map has at most as many entries as a list holding its keys. *)
Lemma map_size_le_keys {A} (m : gmap string A) (l : list string) :
  (forall k x, m !! k = Some x -> k ∈ l) -> (size m <= length l)%nat.
Proof.
  intros Hk. rewrite <- length_map_to_list, <- (length_fmap fst).
  apply NoDup_incl_length; [apply NoDup_ListNoDup, NoDup_fst_map_to_list|].
  intros k ([k' x] & <- & Hin)%in_map_iff. apply list_elem_of_In, (Hk k' x).
  by apply elem_of_map_to_list, list_elem_of_In.
Qed.

(** Replacing the item at [i] changes a sum over the list by the
    difference of the two items' weights. *)
Lemma sum_list_with_insert {A} (f : A -> nat) (l : list A) i x y :
  l !! i = Some x -> (sum_list_with f (<[i:=y]> l) + f x = sum_list_with f l + f y)%nat.
Proof.
  revert i. induction l as [|z l IH]; intros [|i] Hi; simplify_eq/=; [lia|].
  specialize (IH i Hi). lia.
Qed.

#[export] Hint Rewrite py_count_app : spork_rw.
#[export] Hint Resolve py_count_le_length : spork.
