(* ===== verification/Index.v ===== *)
(** * Index: the positional inverted index of [src/src/indexer.py]

    [InvertedIndex] is a record of the five attributes the Python class
    keeps ([index], [doc_stats], [term_doc_freq], [doc_table], [N]);
    [add_document] is the method line by line, with the [positions]
    defaultdict built by [positions]; [save] and [load] go through the
    pickled dict [Pickled]; an [Indexer] object holds [self.idx], and
    its [build()] ([Indexer.build_on]) folds [add_document] over the
    directory listing into it ([Indexer.add_all]) and saves the
    snapshot; [Indexer.build] is [build()] on a fresh object.  The
    theorems show that [positions] computes the
    occurrence list of every token, that [add_document] with a fresh
    document id preserves the well-formedness invariant [wf] (postings,
    document frequencies, statistics and the count agree with the
    document table), that a whole build yields a well-formed index when
    the file names give distinct ids (and not otherwise) and only on a
    fresh object (a second [build()] counts every document twice), and
    that the
    postings [add_document] writes for a fresh document give back its
    token sequence ([decode_doc]). *)

From S2P Require Import Prelude.

(** The [metadata] dict of [Document.parse], lines 29-37 of
    [src/src/parser.py]; [None] is JSON [null] (Python [None]). *)
Record DocMeta := mkDocMeta {
  md_url : string;
  md_title : option string;
  md_headings : list string;
  content_length : nat;
  lang : option string;
  canonical_url : string;
  outbound_links : list string
}.

(** The parsed document of [Document.to_dict] ([src/src/parser.py]) as
    [json.load] gives it back: [title] is [null] when the page's
    [<title>] has no single string child; [metadata] is produced but
    never read by the index or the ranker. *)
Record Doc := mkDoc {
  url : string;
  title : option string;
  headings : list string;
  body : string;
  tokens : list string;
  metadata : DocMeta
}.

(** Metadata for documents built by hand in the examples. *)
Definition demo_meta (u : string) : DocMeta := mkDocMeta u None [] 0 None u [].

(** A posting: a document id and the positions of the term in it. *)
Abbreviation posting := (string * list nat)%type.

(** The [doc_stats] entry. *)
Record DocStat := mkDocStat {
  stat_length : nat;
  stat_title : option string;
  stat_url : string
}.

Definition stat_of (d : Doc) : DocStat :=
  {| stat_length := length (tokens d); stat_title := title d; stat_url := url d |}.

(** ** The token grouping of [add_document] (lines 23-25) *)

(** [positions[token].append(pos)] on a dict kept as an association list
    in insertion order (the order [positions.items()] iterates). *)
Fixpoint assoc_append (t : string) (p : nat) (acc : list (string * list nat))
    : list (string * list nat) :=
  match acc with
  | [] => [(t, [p])]
  | (t', ps) :: acc' =>
      if decide (t = t') then (t', ps ++ [p]) :: acc'
      else (t', ps) :: assoc_append t p acc'
  end.

(** [for pos, token in enumerate(tokens)]. *)
Definition positions (toks : list string) : list (string * list nat) :=
  foldl (fun acc '(pos, tok) => assoc_append tok pos acc) []
        (zip (seq 0 (length toks)) toks).

(** First binding of a key in an association list. *)
Fixpoint alookup {V} (t : string) (l : list (string * V)) : option V :=
  match l with
  | [] => None
  | (t', v) :: l' => if decide (t = t') then Some v else alookup t l'
  end.

(** The reference: every index at which [t] occurs, in increasing order. *)
Definition occurrences (t : string) (toks : list string) : list nat :=
  filter (fun i => toks !! i = Some t) (seq 0 (length toks)).

Module InvertedIndex.

Record t := mk {
  index : gmap string (list posting);
  doc_stats : gmap string DocStat;
  term_doc_freq : gmap string nat;
  doc_table : gmap string Doc;
  N : nat
}.

(** [__init__]. *)
Definition empty : t := mk ∅ ∅ ∅ ∅ 0.

(** [self.index[token]] of the defaultdict and [term_doc_freq.get(t, 0)]
    of the Counter. *)
Definition postings (I : t) (term : string) : list posting :=
  default [] (index I !! term).
Definition df (I : t) (term : string) : nat :=
  default 0 (term_doc_freq I !! term).

(** One iteration of the loop at lines 26-28. *)
Definition add_posting (doc_id : string) (I : t) (tp : string * list nat) : t :=
  let '(token, pos_list) := tp in
  mk (<[token := postings I token ++ [(doc_id, pos_list)]]> (index I))
     (doc_stats I)
     (<[token := S (df I token)]> (term_doc_freq I))
     (doc_table I) (N I).

(** [add_document(doc_id, doc)], lines 15-29. *)
Definition add_document (I : t) (doc_id : string) (doc : Doc) : t :=
  let I1 := mk (index I) (<[doc_id := stat_of doc]> (doc_stats I))
               (term_doc_freq I) (<[doc_id := doc]> (doc_table I)) (N I) in
  let I2 := foldl (add_posting doc_id) I1 (positions (tokens doc)) in
  mk (index I2) (doc_stats I2) (term_doc_freq I2) (doc_table I2) (S (N I2)).

(** The dict [save] pickles (lines 33-39), as [pickle.load] gives a
    dict back: each of the five keys present or not. *)
Record Pickled := mkPickled {
  pk_index : option (gmap string (list posting));
  pk_doc_stats : option (gmap string DocStat);
  pk_term_doc_freq : option (gmap string nat);
  pk_doc_table : option (gmap string Doc);
  pk_N : option nat
}.

(** [save(path)], lines 31-39: the pickled dict of the five
    attributes. *)
Definition save (I : t) : Pickled :=
  mkPickled (Some (index I)) (Some (doc_stats I)) (Some (term_doc_freq I))
            (Some (doc_table I)) (Some (N I)).

(** [load(path)], lines 41-48, on the object [I]: the five assignments
    in order, a missing key raising [KeyError] after the earlier
    assignments took effect.  The object after the call and the
    exception, if any. *)
Definition load (I : t) (data : Pickled) : t * option py_exc :=
  match pk_index data with
  | None => (I, Some KeyError)
  | Some ix =>
      let I1 := mk ix (doc_stats I) (term_doc_freq I) (doc_table I) (N I) in
      match pk_doc_stats data with
      | None => (I1, Some KeyError)
      | Some st =>
          let I2 := mk ix st (term_doc_freq I) (doc_table I) (N I) in
          match pk_term_doc_freq data with
          | None => (I2, Some KeyError)
          | Some tf =>
              let I3 := mk ix st tf (doc_table I) (N I) in
              match pk_doc_table data with
              | None => (I3, Some KeyError)
              | Some tb =>
                  let I4 := mk ix st tf tb (N I) in
                  match pk_N data with
                  | None => (I4, Some KeyError)
                  | Some n => (mk ix st tf tb n, None)
                  end
              end
          end
      end
  end.

(** The well-formedness of an index built from its document table. *)
Record wf (I : t) : Prop := {
  wf_stats : forall d, doc_stats I !! d = stat_of <$> doc_table I !! d;
  wf_N : N I = size (doc_table I);
  wf_postings : forall term d ps,
    (d, ps) ∈ postings I term <->
    exists doc, doc_table I !! d = Some doc /\ term ∈ tokens doc
                /\ ps = occurrences term (tokens doc);
  wf_nodup : forall term, NoDup (map fst (postings I term));
  wf_df : forall term, df I term = length (postings I term)
}.

End InvertedIndex.

Module Indexer.

(** [doc_id = fname.replace('.json', '')]. *)
Definition doc_id_of (fname : string) : string := str_replace ".json" "" fname.

(** The loop of [Indexer.build], lines 57-62: every [.json] file of
    the listing (in [os.listdir] order, each already decoded by
    [json.load]) is added to the index [I]. *)
Definition add_all (I : InvertedIndex.t) (listing : list (string * Doc)) : InvertedIndex.t :=
  foldl (fun I '(fname, doc) =>
           if endswith fname ".json"
           then InvertedIndex.add_document I (doc_id_of fname) doc else I)
        I listing.

(** [Indexer.build] on a fresh [Indexer], lines 56-63: the index whose
    snapshot [save] writes. *)
Definition build (listing : list (string * Doc)) : InvertedIndex.t :=
  add_all InvertedIndex.empty listing.

(** The attributes of an [Indexer] object, lines 51-54. *)
Record t := mk {
  input_dir : string;
  index_path : string;
  idx : InvertedIndex.t
}.

(** [Indexer(input_dir, index_path)]. *)
Definition init (input_dir index_path : string) : t :=
  mk input_dir index_path InvertedIndex.empty.

(** [build()] on the object [ix], lines 56-63: the documents are added to
    [self.idx], which is not reset between calls, and
    [self.idx.save(self.index_path)] writes its snapshot. *)
Definition build_on (ix : t) (listing : list (string * Doc)) : t * InvertedIndex.Pickled :=
  let I := add_all (idx ix) listing in
  (mk (input_dir ix) (index_path ix) I, InvertedIndex.save I).

End Indexer.

(** The corpus of the ranking scenario of the spec (section 8): three
    documents with token sequences [a b a], [b c] and [a a a]. *)
Definition scenario_doc (n : string) (toks : list string) : Doc :=
  mkDoc ("http://example.com/" +:+ n) (Some n) [] "" toks (demo_meta n).

Definition scenario_listing : list (string * Doc) :=
  [("d1.json", scenario_doc "1" ["a"; "b"; "a"]);
   ("d2.json", scenario_doc "2" ["b"; "c"]);
   ("d3.json", scenario_doc "3" ["a"; "a"; "a"])]%string.

(** The document ids [build] derives from the [.json] entries of a
    listing, in listing order. *)
Definition json_ids (listing : list (string * Doc)) : list string :=
  map (fun p => Indexer.doc_id_of p.1)
      (filter (fun p => endswith p.1 ".json" = true) listing).

(** ** Lemmas on the token grouping *)

Lemma alookup_assoc_append t p acc t' :
  alookup t' (assoc_append t p acc) =
  if decide (t' = t) then Some (default [] (alookup t acc) ++ [p]) else alookup t' acc.
Proof.
  induction acc as [|[k ps] acc IH]; simpl; repeat (case_decide; simplify_eq/=); done.
Qed.

Lemma keys_assoc_append t p acc :
  map fst (assoc_append t p acc) =
  if decide (t ∈ map fst acc) then map fst acc else map fst acc ++ [t].
Proof.
  induction acc as [|[k ps] acc IH]; simpl; [done|].
  repeat (case_decide; simplify_eq/=); rewrite ?IH; set_solver.
Qed.

Lemma alookup_None {V} t (l : list (string * V)) : t ∉ map fst l -> alookup t l = None.
Proof. induction l as [|[k v] l IH]; simpl; [done|]. case_decide; set_solver. Qed.

Lemma alookup_elem_of {V} t (l : list (string * V)) v :
  alookup t l = Some v -> (t, v) ∈ l.
Proof. induction l as [|[k w] l IH]; simpl; [done|]. case_decide; set_solver. Qed.

Lemma positions_snoc toks t :
  positions (toks ++ [t]) = assoc_append t (length toks) (positions toks).
Proof.
  unfold positions. rewrite length_app, seq_app.
  rewrite zip_with_app by (by rewrite length_seq).
  by rewrite foldl_app.
Qed.

Lemma occurrences_snoc t' toks t :
  occurrences t' (toks ++ [t]) =
  occurrences t' toks ++ (if decide (t = t') then [length toks] else []).
Proof.
  unfold occurrences. rewrite length_app, seq_app, filter_app. simpl. f_equal.
  - apply filter_ext_in. intros i Hi%elem_of_seq.
    by rewrite lookup_app_l by lia.
  - rewrite filter_cons, lookup_app_r, Nat.sub_diag by lia. simpl.
    repeat case_decide; naive_solver.
Qed.

Lemma elem_of_occurrences t toks i : i ∈ occurrences t toks <-> toks !! i = Some t.
Proof.
  unfold occurrences. rewrite list_elem_of_filter, elem_of_seq.
  split; [naive_solver|]. intros Hi. split; [done|]. apply lookup_lt_Some in Hi. lia.
Qed.

Lemma occurrences_not_elem t toks : t ∉ toks -> occurrences t toks = [].
Proof.
  intros Hn. unfold occurrences.
  apply filter_none. intros i _ Hi%list_elem_of_lookup_2. set_solver.
Qed.

(** The grouping maps every token of the sequence to its occurrence
    list, and no other key. *)
Lemma positions_spec toks t :
  alookup t (positions toks) =
  if decide (t ∈ toks) then Some (occurrences t toks) else None.
Proof.
  revert t. induction toks as [|x toks IH] using rev_ind; intros t; [done|].
  rewrite positions_snoc, alookup_assoc_append, occurrences_snoc, !IH.
  destruct (decide (t = x)) as [->|Hne].
  - destruct (decide (x ∈ toks ++ [x])) as [_|]; [|set_solver].
    destruct (decide (x = x)) as [_|]; [|done]. f_equal.
    case_decide; simpl; [done|]. by rewrite occurrences_not_elem.
  - rewrite (decide_False (P := x = t)), app_nil_r by congruence.
    repeat case_decide; set_solver.
Qed.

Lemma positions_nodup toks : NoDup (map fst (positions toks)).
Proof.
  induction toks as [|x toks IH] using rev_ind; [constructor|].
  rewrite positions_snoc, keys_assoc_append. case_decide; [done|].
  apply NoDup_app. split_and!; [done| |by apply NoDup_singleton]. set_solver.
Qed.

(** ** The posting loop and [add_document] *)

(** The ids of the [.json] entries of a listing. *)
Lemma json_ids_cons e l :
  json_ids (e :: l) =
  (if endswith e.1 ".json" then [Indexer.doc_id_of e.1] else []) ++ json_ids l.
Proof.
  unfold json_ids. rewrite filter_cons.
  destruct (endswith e.1 ".json"); rewrite ?decide_True, ?decide_False by done; done.
Qed.

Lemma json_ids_elem e l :
  e ∈ l -> endswith e.1 ".json" = true -> Indexer.doc_id_of e.1 ∈ json_ids l.
Proof.
  induction l as [|e' l IH]; intros He Hj; [set_solver|]. rewrite json_ids_cons.
  apply elem_of_cons in He as [->|He]; [rewrite Hj; set_solver|].
  apply elem_of_app. right. by apply IH.
Qed.

Lemma json_ids_sublist l1 l2 : l1 `sublist_of` l2 -> json_ids l1 `sublist_of` json_ids l2.
Proof.
  induction 1 as [|e l1 l2 _ IH|e l1 l2 _ IH]; rewrite ?json_ids_cons; [done| |].
  - destruct (endswith e.1 ".json"); simpl; [by apply sublist_skip|done].
  - destruct (endswith e.1 ".json"); simpl; [by apply sublist_cons|done].
Qed.

Lemma json_ids_perm l1 l2 : l1 ≡ₚ l2 -> json_ids l1 ≡ₚ json_ids l2.
Proof.
  induction 1 as [|e l1 l2 _ IH|e1 e2 l|l1 l2 l3 _ IH1 _ IH2]; rewrite ?json_ids_cons.
  - done.
  - by rewrite IH.
  - destruct (endswith e1.1 ".json"), (endswith e2.1 ".json"); simpl; by try constructor.
  - by rewrite IH1.
Qed.

Section AddDocument.
Import InvertedIndex.

Definition opt_posting (d : string) (o : option (list nat)) : list posting :=
  match o with Some p => [(d, p)] | None => [] end.

Lemma foldl_add_posting d ps I :
  NoDup (map fst ps) ->
  let I' := foldl (add_posting d) I ps in
  doc_stats I' = doc_stats I /\ doc_table I' = doc_table I /\ N I' = N I /\
  forall term, postings I' term = postings I term ++ opt_posting d (alookup term ps)
               /\ df I' term = (df I term + length (opt_posting d (alookup term ps)))%nat.
Proof.
  revert I. induction ps as [|[k v] ps IH]; intros I Hnd; cbn [foldl alookup].
  { split_and!; try done. intros term. by rewrite app_nil_r, Nat.add_0_r. }
  apply NoDup_cons in Hnd as [Hk Hnd]. simpl in Hk.
  destruct (IH (add_posting d I (k, v)) Hnd) as (-> & -> & -> & Hterm).
  split_and!; try done. intros term. rewrite !(proj1 (Hterm term)), !(proj2 (Hterm term)).
  unfold postings, df; simpl. rewrite !lookup_insert.
  destruct (decide (k = term)) as [<-|Hne]; simpl.
  - destruct (decide (k = k)) as [_|]; [|done].
    rewrite (alookup_None k ps Hk). unfold postings, df. simpl.
    split; [by rewrite app_nil_r | lia].
  - destruct (decide (term = k)); [congruence|done].
Qed.

Lemma add_document_fields I d doc :
  let I' := add_document I d doc in
  doc_stats I' = <[d := stat_of doc]> (doc_stats I) /\
  doc_table I' = <[d := doc]> (doc_table I) /\ N I' = S (N I) /\
  forall term,
    postings I' term = postings I term ++
      (if decide (term ∈ tokens doc) then [(d, occurrences term (tokens doc))] else []) /\
    df I' term = (df I term + if decide (term ∈ tokens doc) then 1 else 0)%nat.
Proof.
  unfold add_document. cbv zeta.
  destruct (foldl_add_posting d (positions (tokens doc))
    (mk (index I) (<[d := stat_of doc]> (doc_stats I)) (term_doc_freq I)
        (<[d := doc]> (doc_table I)) (N I)) (positions_nodup _)) as (Hs & Ht & Hn & Hp).
  cbn [doc_stats doc_table N]. rewrite Hs, Ht, Hn. cbn [doc_stats doc_table N].
  split_and!; try done. intros term. destruct (Hp term) as [Hpo Hdf].
  unfold postings, df in *. cbn [index term_doc_freq] in *.
  rewrite Hpo, Hdf, positions_spec. by case_decide.
Qed.

Lemma wf_fresh_not_posted I d term :
  wf I -> doc_table I !! d = None -> d ∉ map fst (postings I term).
Proof.
  intros Hwf Hfresh (ps & Hin)%elem_of_map_fst.
  apply (wf_postings I Hwf) in Hin as (? & Hl & _). congruence.
Qed.

Lemma add_document_preserves_wf I d doc :
  wf I -> doc_table I !! d = None -> wf (add_document I d doc).
Proof.
  intros Hwf Hfresh.
  assert (Hnot := fun term => wf_fresh_not_posted I d term Hwf Hfresh).
  destruct Hwf as [Hs HN Hp Hnd Hdf].
  destruct (add_document_fields I d doc) as (Es & Et & En & Ep).
  constructor.
  - intros d'. rewrite Es, Et, !lookup_insert. case_decide; [done|apply Hs].
  - rewrite En, Et, map_size_insert_None by done. by rewrite HN.
  - intros term d' ps. rewrite (proj1 (Ep term)), Et, elem_of_app, Hp.
    setoid_rewrite lookup_insert. split.
    + intros [(doc' & ? & ? & ?) | Hin]; [case_decide; simplify_eq; eauto|].
      case_decide; [|set_solver]. apply list_elem_of_singleton in Hin; simplify_eq.
      rewrite decide_True by done. eauto.
    + intros (doc' & Hl & ? & ?). case_decide; simplify_eq; [|by left; eauto].
      right. rewrite decide_True by done. set_solver.
  - intros term. rewrite (proj1 (Ep term)), map_app.
    case_decide; simpl; [|by rewrite app_nil_r].
    apply NoDup_app. split_and!; [done| |apply NoDup_singleton].
    intros x Hx ->%list_elem_of_singleton. by apply (Hnot term).
  - intros term. rewrite (proj2 (Ep term)), (proj1 (Ep term)), length_app, Hdf.
    case_decide; simpl; lia.
Qed.

End AddDocument.

(** ** A whole build *)

Section Build.
Import InvertedIndex.

Lemma empty_wf : wf empty.
Proof.
  constructor; unfold postings, df; simpl; intros; rewrite ?lookup_empty; simpl;
    try done; try constructor.
  all: first [set_solver | intros (? & ? & _); discriminate].
Qed.

Lemma build_go_wf listing I :
  wf I -> NoDup (json_ids listing) ->
  (forall d, d ∈ json_ids listing -> doc_table I !! d = None) ->
  wf (Indexer.add_all I listing).
Proof.
  unfold Indexer.add_all. revert I. induction listing as [|[fname doc] listing IH]; intros I Hwf Hnd Hfresh;
    simpl; [done|].
  unfold json_ids in *. rewrite filter_cons in Hnd, Hfresh. simpl in *.
  destruct (endswith fname ".json") eqn:He; simpl in *.
  - apply NoDup_cons in Hnd as [Hn Hnd]. apply IH; [|done|].
    + apply add_document_preserves_wf; [done|]. apply Hfresh. set_solver.
    + intros d Hd. destruct (add_document_fields I (Indexer.doc_id_of fname) doc)
        as (_ & -> & _). rewrite lookup_insert_ne by set_solver. apply Hfresh. set_solver.
  - apply IH; auto.
Qed.

Lemma build_preserves_wf listing :
  NoDup (json_ids listing) -> wf (Indexer.build listing).
Proof.
  intros Hnd. apply build_go_wf; [apply empty_wf|done|].
  intros d _. apply lookup_empty.
Qed.

(** In a well-formed index no term has a larger document frequency than
    the number of documents. *)
Lemma df_bounded_by_N I term : wf I -> (df I term <= N I)%nat.
Proof.
  intros Hwf. rewrite (wf_df I Hwf), (wf_N I Hwf), <- length_map_to_list.
  rewrite <- (length_map fst (postings I term)), <- (length_map fst (map_to_list _)).
  apply NoDup_incl_length; [apply NoDup_ListNoDup, (wf_nodup I Hwf)|].
  intros d Hd. apply list_elem_of_In, elem_of_map_fst in Hd as [ps Hin].
  apply (wf_postings I Hwf) in Hin as (doc & Hl & _).
  apply list_elem_of_In, elem_of_map_fst. exists doc. by apply elem_of_map_to_list.
Qed.

(** Adding a listing adds the documents of its [.json] entries and
    counts each of them in [N]. *)
Lemma add_all_doc_table_dom I listing d :
  is_Some (doc_table (Indexer.add_all I listing) !! d) <->
  is_Some (doc_table I !! d) \/ d ∈ json_ids listing.
Proof.
  unfold Indexer.add_all. revert I.
  induction listing as [|[fname doc] l IH]; intros I; [cbn; set_solver|].
  cbn [foldl]. rewrite IH, json_ids_cons. cbn [fst]. destruct (endswith fname ".json").
  - pose proof (add_document_fields I (Indexer.doc_id_of fname) doc) as (_ & Ht & _).
    rewrite Ht, lookup_insert_is_Some, elem_of_app, list_elem_of_singleton.
    destruct (decide (Indexer.doc_id_of fname = d)); naive_solver.
  - set_solver.
Qed.

Lemma add_all_N I listing : N (Indexer.add_all I listing) = (N I + length (json_ids listing))%nat.
Proof.
  unfold Indexer.add_all. revert I.
  induction listing as [|[fname doc] l IH]; intros I; [cbn; lia|].
  cbn [foldl]. rewrite IH, json_ids_cons. cbn [fst]. destruct (endswith fname ".json"); [|done].
  destruct (add_document_fields I (Indexer.doc_id_of fname) doc) as (_ & _ & -> & _). simpl. lia.
Qed.

(** The documents of a build are those of the [.json] entries. *)
Lemma build_doc_table_dom listing d :
  is_Some (doc_table (Indexer.build listing) !! d) <-> d ∈ json_ids listing.
Proof.
  unfold Indexer.build. rewrite add_all_doc_table_dom. cbn. rewrite lookup_empty.
  split; [intros [Hn|?]; [by destruct Hn|done]|auto].
Qed.

End Build.

(** ** The index properties *)

(** ** Reading a document back from its postings *)

(** The token at position [i] of document [d], read from the postings:
    the first term of the index whose posting for [d] lists [i]. *)
Definition token_at (I : InvertedIndex.t) (d : string) (i : nat) : option string :=
  head (filter (fun t => existsb (fun p => bool_decide (p.1 = d /\ i ∈ p.2))
                                 (InvertedIndex.postings I t) = true)
               (map fst (map_to_list (InvertedIndex.index I)))).

(** The first [n] tokens of document [d], read from the postings. *)
Definition decode_doc (I : InvertedIndex.t) (d : string) (n : nat) : list (option string) :=
  token_at I d <$> seq 0 n.

Section Decode.
Import InvertedIndex.

(** After [add_document] under a fresh id, a posting of the new
    document lists [i] for a term exactly when [i] is an occurrence of
    that term. *)
Lemma posted_at_add_document I d doc t i :
  wf I -> doc_table I !! d = None ->
  existsb (fun p => bool_decide (p.1 = d /\ i ∈ p.2)) (postings (add_document I d doc) t) = true <->
  tokens doc !! i = Some t.
Proof.
  intros Hwf Hfresh. rewrite existsb_exists.
  destruct (add_document_fields I d doc) as (_ & _ & _ & Ep). rewrite (proj1 (Ep t)).
  split.
  - intros ([d' ps] & Hin & Hb). apply bool_decide_eq_true in Hb as [Hd Hi]. simpl in *. subst d'.
    apply in_app_or in Hin as [Hin|Hin].
    + exfalso. apply (wf_fresh_not_posted I d t Hwf Hfresh). apply elem_of_map_fst.
      exists ps. by apply list_elem_of_In.
    + case_decide; [|done]. destruct Hin as [[= <-]|[]]. by apply elem_of_occurrences.
  - intros Hi. exists (d, occurrences t (tokens doc)). split.
    + apply in_or_app. right. rewrite decide_True by (by eapply list_elem_of_lookup_2). by left.
    + apply bool_decide_eq_true. split; [done|]. by apply elem_of_occurrences.
Qed.

(** A term with a posting is a key of [index]. *)
Lemma posted_key I t f :
  existsb f (postings I t) = true -> t ∈ map fst (map_to_list (index I)).
Proof.
  unfold postings. destruct (index I !! t) as [ps|] eqn:Ht; [|done]. intros _.
  apply elem_of_map_fst. exists ps. by apply elem_of_map_to_list.
Qed.

Lemma head_unique {A} (l : list A) x : x ∈ l -> (forall y, y ∈ l -> y = x) -> head l = Some x.
Proof. destruct l as [|a l]; [set_solver|]. intros _ H. simpl. f_equal. apply H. set_solver. Qed.

End Decode.

Section IndexClaims.
Import InvertedIndex.

(** C6: adding a document under a fresh id keeps the index well formed:
    statistics, count, postings (with the exact occurrence lists) and
    document frequencies all agree with the document table. *)
Theorem add_document_wf I d doc :
  wf I -> doc_table I !! d = None -> wf (add_document I d doc).
Proof. apply add_document_preserves_wf. Qed.

Lemma add_document_wf_witness :
  wf (add_document empty "d1" (scenario_doc "1" ["a"; "b"; "a"])).
Proof. apply add_document_wf; [apply empty_wf|reflexivity]. Defined.

(** C5: [Indexer.build] yields a well-formed index whenever the [.json]
    file names of the listing give distinct document ids. *)
Theorem build_wf listing :
  NoDup (json_ids listing) -> wf (Indexer.build listing).
Proof. apply build_preserves_wf. Qed.

Lemma build_wf_witness : wf (Indexer.build scenario_listing).
Proof. apply build_wf. vm_compute. repeat constructor; set_solver. Defined.

(** Two file names that [fname.replace('.json', '')] maps to one id
    ([x.json] and [x.json.json]) are both indexed under it: the second
    [add_document] replaces the table entry but adds its postings and
    counts again, and the index is not well formed ([N] is 2 for one
    document). *)
(** Two file names with one id, [h.json] and [h.json.json]:
    [Indexer.build] counts two documents but its table holds one. *)
Lemma json_ids_clash h d1 d2 :
  no_dot h -> json_ids [(h +:+ ".json", d1); (h +:+ ".json.json", d2)] = [h; h].
Proof.
  intros Hh. rewrite !json_ids_cons. cbn [fst]. rewrite endswith_append, endswith_json_json.
  unfold Indexer.doc_id_of. by rewrite str_replace_json_suffix, str_replace_json_json.
Qed.

Lemma build_id_clash h d1 d2 :
  no_dot h ->
  ~ wf (Indexer.build [(h +:+ ".json", d1); (h +:+ ".json.json", d2)]).
Proof.
  intros Hh Hwf. pose proof (wf_N _ Hwf) as HN.
  unfold Indexer.build in HN. rewrite add_all_N, json_ids_clash in HN by done.
  change (N empty) with 0%nat in HN. cbn [length] in HN.
  assert (size (doc_table (Indexer.build [(h +:+ ".json", d1); (h +:+ ".json.json", d2)])) <= 1)%nat
    as Hle; [|unfold Indexer.build in Hle; lia].
  apply (map_size_le_keys _ [h]). intros k x Hk.
  assert (is_Some (doc_table (Indexer.build [(h +:+ ".json", d1); (h +:+ ".json.json", d2)]) !! k))
    as Hk' by eauto.
  apply build_doc_table_dom in Hk'. rewrite json_ids_clash in Hk' by done. set_solver.
Qed.

(** [build()] on a fresh [Indexer] builds [Indexer.build] and saves
    its snapshot. *)
Lemma build_on_init input_dir index_path listing :
  Indexer.build_on (Indexer.init input_dir index_path) listing =
  (Indexer.mk input_dir index_path (Indexer.build listing), save (Indexer.build listing)).
Proof. reflexivity. Qed.

(** C19: [self.idx] is not reset by [build()]: a second [build()] of the
    same [Indexer] over the same directory adds every document again, and
    the index it saves is no longer well formed ([N] counts each document
    twice), however well formed the first one was. *)
Theorem indexer_build_twice input_dir index_path listing :
  json_ids listing <> [] ->
  let ix := (Indexer.build_on (Indexer.init input_dir index_path) listing).1 in
  ~ wf (Indexer.idx (Indexer.build_on ix listing).1).
Proof.
  intros Hne. simpl. unfold Indexer.build. intros Hwf.
  pose proof (wf_N _ Hwf) as HN. rewrite !add_all_N in HN. simpl in HN.
  assert (size (doc_table (Indexer.add_all (Indexer.add_all empty listing) listing))
            <= length (json_ids listing))%nat.
  { apply map_size_le_keys. intros k x Hk.
    destruct (proj1 (add_all_doc_table_dom _ listing k) (mk_is_Some _ _ Hk)) as [Hk'|]; [|done].
    apply add_all_doc_table_dom in Hk' as [Hk'|]; [|done]. by destruct Hk'. }
  destruct (json_ids listing); [done|]. simpl in *. lia.
Qed.

Lemma indexer_build_twice_witness :
  json_ids scenario_listing <> [] /\
  ~ wf (Indexer.idx (Indexer.build_on
          (Indexer.build_on (Indexer.init "data/deduped" "data/index.pkl") scenario_listing).1
          scenario_listing).1).
Proof.
  assert (json_ids scenario_listing <> []) as H by (vm_compute; discriminate).
  split; [exact H|]. exact (indexer_build_twice "data/deduped" "data/index.pkl" scenario_listing H).
Defined.

(** C34: round trip of the positional postings [add_document] writes:
    after adding a document under a fresh id to a well-formed index,
    reading position [i] back from the postings (the term whose posting
    for the document lists [i]) gives the document's token at [i], for
    every position: the postings encode the token sequence exactly. *)
Theorem add_document_decode I d doc :
  wf I -> doc_table I !! d = None ->
  decode_doc (add_document I d doc) d (length (tokens doc)) = Some <$> tokens doc.
Proof.
  intros Hwf Hfresh. apply list_eq. intros i. unfold decode_doc.
  rewrite !list_lookup_fmap. destruct (tokens doc !! i) as [t|] eqn:Ht; simpl.
  - rewrite lookup_seq_lt by (by eapply lookup_lt_Some). simpl. f_equal.
    unfold token_at. apply head_unique.
    + apply list_elem_of_filter. split; [by apply posted_at_add_document|].
      eapply posted_key. by apply posted_at_add_document.
    + intros y (Hy & _)%list_elem_of_filter. apply posted_at_add_document in Hy; [|done|done].
      congruence.
  - rewrite lookup_seq_ge; [done|]. by apply lookup_ge_None in Ht.
Qed.

Lemma add_document_decode_witness :
  decode_doc (add_document empty "d1" (scenario_doc "1" ["a"; "b"; "a"])) "d1" 3 =
  Some <$> ["a"; "b"; "a"]%string.
Proof. apply (add_document_decode empty "d1" (scenario_doc "1" ["a"; "b"; "a"])); [apply empty_wf|reflexivity]. Defined.

End IndexClaims.
