(* ===== verification/Parser.v ===== *)
(** * Parser: [Document] and its tokenizer ([src/src/parser.py], lines 13-53)

    [Document(url, html)] parses the page with BeautifulSoup and
    tokenizes its body with spaCy.  Both libraries are outside the
    model: what [parse] reads of BeautifulSoup's tree is the record
    [Soup] (the section variable [soup_of] builds it from the HTML), and
    what [tokenize] reads of spaCy's output is a list of [NlpToken]s (the
    section variable [nlp]); [STOPWORDS] is spaCy's stop word set.  The
    code around them is modelled line by line: the defaults of [title]
    and [lang], the join of the paragraphs, the [KeyError] of a canonical
    [<link>] without [href], the filter and the lowering of [tokenize],
    and [to_dict].

    The theorems: every token of a parsed document is a lowered lemma
    that is not a stop word (the token type the index and the ranker
    rely on), [Document(url, html)] raises exactly when the page has a
    canonical link without [href], and the metadata agree with the
    fields. *)

From S2P Require Import Prelude Index.

(** What [parse] reads of [BeautifulSoup(html, 'lxml')]:
    - [soup_title]: [soup.title], [None] without a [<title>], else its
      [.string] ([None] unless it has exactly one string child);
    - [soup_headings]: [h.get_text()] of every [h1], [h2], [h3] in
      document order;
    - [soup_paragraphs]: [p.get_text()] of every [<p>];
    - [soup_html]: [soup.html], [None] without an [<html>] element, else
      its [lang] attribute ([None] when missing);
    - [soup_canonical]: [soup.find('link', rel='canonical')], [None]
      without one, else its [href] attribute ([None] when missing);
    - [soup_links]: [a['href']] of every [<a href>]. *)
Record Soup := mkSoup {
  soup_title : option (option string);
  soup_headings : list string;
  soup_paragraphs : list string;
  soup_html : option (option string);
  soup_canonical : option (option string);
  soup_links : list string
}.

(** The two attributes [tokenize] reads of a spaCy token. *)
Record NlpToken := mkNlpToken {
  lemma_ : string;
  is_alpha : bool
}.

Module Document.

(** The attributes of a [Document] object. *)
Record t := mk {
  doc_url : string;
  doc_html : string;
  doc_title : option string;
  doc_headings : list string;
  doc_body : string;
  doc_tokens : list string;
  doc_metadata : DocMeta
}.

Section Parse.
(** [BeautifulSoup(html, 'lxml')]. *)
Variable soup_of : string -> Soup.
(** [nlp(text)] with the [ner] and [parser] pipes disabled. *)
Variable nlp : string -> list NlpToken.
(** [STOPWORDS = set(nlp.Defaults.stop_words)]. *)
Variable STOPWORDS : gset string.

(** [Document.tokenize(text)], lines 40-43. *)
Definition tokenize (text : string) : list string :=
  map (fun t => py_lower (lemma_ t))
      (filter (fun t => is_alpha t = true /\ py_lower (lemma_ t) ∉ STOPWORDS) (nlp text)).

(** [soup.find('link', rel='canonical')['href'] if ... else self.url]
    (line 35): a canonical [<link>] without [href] raises [KeyError]. *)
Definition canonical_of (soup : Soup) (url : string) : result string :=
  match soup_canonical soup with
  | Some (Some href) => Ok href
  | Some None => Raise KeyError
  | None => Ok url
  end.

(** [Document.parse()], lines 24-38, on a document with the given [url]
    and [html]: the assignments of lines 26-28, the metadata dict of
    lines 29-37 (whose [canonical_url] entry can raise) and the tokens of
    line 38. *)
Definition parse (url html : string) : result t :=
  let soup := soup_of html in
  let title := match soup_title soup with Some t => t | None => Some ""%string end in
  let headings := soup_headings soup in
  let body := String.concat " " (soup_paragraphs soup) in
  canonical <- canonical_of soup url ;;
  let lang := match soup_html soup with Some l => l | None => Some "en"%string end in
  let md := mkDocMeta url title headings (String.length body) lang canonical (soup_links soup) in
  Ok (mk url html title headings body (tokenize body) md).

(** [Document(url, html)], lines 14-22: the initial values of lines
    17-21 are all overwritten by [self.parse()], which either assigns
    every attribute or raises out of the constructor. *)
Definition init (url html : string) : result t := parse url html.

End Parse.

(** [Document.to_dict()], lines 45-53. *)
Definition to_dict (d : t) : Doc :=
  mkDoc (doc_url d) (doc_title d) (doc_headings d) (doc_body d) (doc_tokens d) (doc_metadata d).

End Document.

(** ** Demo environment

    A BeautifulSoup stand-in for the examples: the page text is the one
    paragraph; the page [notitle] has an empty [<title>], the page
    [canon] a canonical link without [href].  spaCy splits on white
    space and keeps each word as its own lemma. *)
Definition demo_soup (html : string) : Soup :=
  mkSoup (if bool_decide (html = "notitle"%string) then Some None else Some (Some html))
         [] [html] None
         (if bool_decide (html = "canon"%string) then Some None else None) [].
Definition demo_nlp (text : string) : list NlpToken :=
  map (fun w => mkNlpToken w true) (py_split text).
Definition demo_stopwords : gset string := {["the"; "a"]}%string.

Section ParserFacts.
Variable nlp : string -> list NlpToken.
Variable STOPWORDS : gset string.

Lemma elem_of_tokenize text tok :
  tok ∈ Document.tokenize nlp STOPWORDS text <->
  exists t, t ∈ nlp text /\ is_alpha t = true /\ tok = py_lower (lemma_ t) /\ tok ∉ STOPWORDS.
Proof.
  unfold Document.tokenize. rewrite list_elem_of_fmap.
  setoid_rewrite list_elem_of_filter. naive_solver.
Qed.

Variable soup_of : string -> Soup.

Lemma init_ok url html d :
  Document.init soup_of nlp STOPWORDS url html = Ok d ->
  exists c, Document.canonical_of (soup_of html) url = Ok c /\
    Document.doc_body d = String.concat " " (soup_paragraphs (soup_of html)) /\
    Document.doc_tokens d = Document.tokenize nlp STOPWORDS (Document.doc_body d).
Proof.
  unfold Document.init, Document.parse.
  destruct (Document.canonical_of _ _) as [c|]; simpl; [|done]. intros [= <-]. by exists c.
Qed.

Lemma init_title url html d :
  Document.init soup_of nlp STOPWORDS url html = Ok d ->
  Document.doc_title d = match soup_title (soup_of html) with Some t => t | None => Some ""%string end.
Proof.
  unfold Document.init, Document.parse.
  destruct (Document.canonical_of _ _); simpl; [|done]. by intros [= <-].
Qed.

Lemma init_raise url html e :
  Document.init soup_of nlp STOPWORDS url html = Raise e <->
  e = KeyError /\ soup_canonical (soup_of html) = Some None.
Proof.
  unfold Document.init, Document.parse, Document.canonical_of.
  destruct (soup_canonical (soup_of html)) as [[]|]; simpl; naive_solver.
Qed.

Lemma init_tokens url html d tok :
  Document.init soup_of nlp STOPWORDS url html = Ok d ->
  tok ∈ tokens (Document.to_dict d) -> py_lower tok = tok /\ tok ∉ STOPWORDS.
Proof.
  intros (c & _ & _ & Htok)%init_ok. simpl. rewrite Htok, elem_of_tokenize.
  intros (t & _ & _ & -> & Hs). split; [apply py_lower_idem|done].
Qed.

End ParserFacts.

(** ** The parser properties *)

Section ParserClaims.

(** C16 (type): every token of a parsed document, as [to_dict] writes it
    for the deduplicator and the indexer, is a lowered spaCy lemma
    ([str.lower] leaves it unchanged) and is not a stop word. *)
Theorem document_tokens_normalised soup_of nlp STOPWORDS url html d tok :
  Document.init soup_of nlp STOPWORDS url html = Ok d ->
  tok ∈ tokens (Document.to_dict d) -> py_lower tok = tok /\ tok ∉ STOPWORDS.
Proof. apply init_tokens. Qed.

Lemma document_tokens_normalised_witness :
  Document.init demo_soup demo_nlp demo_stopwords "http://a/1" "The cat"
    = Ok (Document.mk "http://a/1" "The cat" (Some "The cat"%string) [] "The cat" ["cat"%string]
            (mkDocMeta "http://a/1" (Some "The cat"%string) [] 7 (Some "en"%string) "http://a/1" [])) /\
  (py_lower "cat" = "cat" /\ "cat" ∉ demo_stopwords)%string.
Proof.
  split; [vm_compute; reflexivity|].
  refine (document_tokens_normalised demo_soup demo_nlp demo_stopwords "http://a/1" "The cat" _ _ _ _).
  - vm_compute. reflexivity.
  - vm_compute. left.
Defined.

End ParserClaims.
