(* ===== verification/Ranker.v ===== *)
(** * Ranker: the scorers of [src/src/ranker.py]

    [BM25] is the record the Python constructor builds (the index, [k1],
    [b], the average document length [avgdl] and [N]); [BM25.idf] and
    [BM25.score] follow the methods line by line, Python floats being
    exact reals, with the two exceptions the method can raise:
    [KeyError] when the document id is not in the table and
    [ZeroDivisionError] when [avgdl] is zero (every document of the index
    is empty) and the query is not.  The theorems give a successful score
    as the BM25 sum of the spec written out term by term, the exact conditions of each error, the
    non-negativity of [idf] on a well-formed index and the monotonicity
    of the score in the term frequencies. *)

From S2P Require Import Prelude Index.
From Stdlib Require Import Reals Lra.

Local Open Scope R_scope.

(** Sum of a list of reals, in list order ([score += ...] from [0.0]). *)
Definition Rsum (l : list R) : R := fold_left Rplus l 0.

Module BM25.

Record t := mk {
  index : InvertedIndex.t;
  k1 : R;
  b : R;
  avgdl : R;
  N : nat
}.

(** [sum([v['length'] for v in index.doc_stats.values()])]. *)
Definition total_length (I : InvertedIndex.t) : nat :=
  foldr (fun '(_, s) acc => (stat_length s + acc)%nat) 0%nat
        (map_to_list (InvertedIndex.doc_stats I)).

(** [__init__(index, k1=1.5, b=0.75)], lines 7-12. *)
Definition init (I : InvertedIndex.t) (k1 b : R) : t :=
  mk I k1 b
     (INR (total_length I) / INR (Nat.max 1 (size (InvertedIndex.doc_stats I))))
     (InvertedIndex.N I).

Definition default (I : InvertedIndex.t) : t := init I 1.5 0.75.

(** [idf(term)], lines 14-16. *)
Definition idf (bm : t) (term : string) : R :=
  let df := INR (InvertedIndex.df (index bm) term) in
  ln (1 + (INR (N bm) - df + 0.5) / (df + 0.5)).

(** The contribution of one query term, line 26, once [denom] is
    computed: [idf * tf * (k1 + 1) / denom if denom else 0]. *)
Definition term_value (bm : t) (idf_t : R) (tf len : nat) : R :=
  let denom := INR tf + k1 bm * (1 - b bm + b bm * INR len / avgdl bm) in
  if Req_dec_T denom 0 then 0 else idf_t * INR tf * (k1 bm + 1) / denom.

(** Lines 23-26 for one term: [len(tokens) / self.avgdl] raises when
    [avgdl] is [0.0]. *)
Definition term_score (bm : t) (toks : list string) (term : string) : result R :=
  if Req_dec_T (avgdl bm) 0 then Raise ZeroDivisionError
  else Ok (term_value bm (idf bm term) (py_count toks term) (length toks)).

(** [score(query, doc_id)], lines 18-27. *)
Definition score (bm : t) (query : list string) (doc_id : string) : result R :=
  match InvertedIndex.doc_table (index bm) !! doc_id with
  | None => Raise KeyError
  | Some doc =>
      fold_left (fun acc term =>
                   s <- acc ;; c <- term_score bm (tokens doc) term ;; Ok (s + c))
                query (Ok 0)
  end.

End BM25.

Definition scenario_index : InvertedIndex.t := Indexer.build scenario_listing.

(** A corpus whose only document has no token (a page without [<p>]
    text). *)
Definition empty_docs_index : InvertedIndex.t :=
  Indexer.build [("e.json", scenario_doc "e" [])]%string.

(** ** Generic lemmas on sums of reals *)

Lemma Rsum_fold_acc (l : list R) (a : R) : fold_left Rplus l a = a + Rsum l.
Proof.
  unfold Rsum. revert a. induction l as [|x l IH]; intros a; simpl; [lra|].
  rewrite (IH (a + x)), (IH (0 + x)). lra.
Qed.

Lemma Rsum_cons x l : Rsum (x :: l) = x + Rsum l.
Proof. unfold Rsum at 1. simpl. rewrite Rsum_fold_acc. lra. Qed.

Lemma Rsum_map_le {A} (f g : A -> R) (l : list A) :
  (forall x, x ∈ l -> f x <= g x) -> Rsum (map f l) <= Rsum (map g l).
Proof.
  induction l as [|x l IH]; intros Hle; simpl; [unfold Rsum; simpl; lra|].
  rewrite !Rsum_cons. pose proof (Hle x ltac:(set_solver)). pose proof (IH ltac:(set_solver)). lra.
Qed.

Lemma Rsum_map_nonneg {A} (f : A -> R) (l : list A) :
  (forall x, x ∈ l -> 0 <= f x) -> 0 <= Rsum (map f l).
Proof.
  intros H. replace 0 with (Rsum (map (fun _ : A => 0) l)).
  - by apply Rsum_map_le.
  - induction l as [|x l IH]; [done|]. simpl. rewrite Rsum_cons, IH by set_solver. lra.
Qed.

Lemma ln_nonneg x : 1 <= x -> 0 <= ln x.
Proof.
  intros Hx. destruct (Rle_lt_or_eq_dec 1 x Hx) as [Hlt|<-].
  - rewrite <- ln_1. left. apply ln_increasing; lra.
  - rewrite ln_1. lra.
Qed.

(** [a/(a+K)] grows with [a] when [K >= 0]. *)
Lemma ratio_mono x1 x2 K :
  0 <= x1 <= x2 -> 0 <= K -> 0 < x1 + K -> x1 / (x1 + K) <= x2 / (x2 + K).
Proof.
  intros Hx HK Hd.
  assert (x2 / (x2 + K) - x1 / (x1 + K) = K * (x2 - x1) * / ((x1 + K) * (x2 + K)))
    as Heq by (field; lra).
  assert (0 <= K * (x2 - x1) * / ((x1 + K) * (x2 + K))); [|lra].
  apply Rle_mult_inv_pos; [apply Rmult_le_pos; lra|apply Rmult_lt_0_compat; lra].
Qed.

(** ** BM25 *)

Section BM25Facts.
Import BM25.

Lemma fold_score_raise (bm : t) toks q e :
  fold_left (fun acc term => s <- acc ;; c <- term_score bm toks term ;; Ok (s + c))
            q (Raise e) = Raise e.
Proof. induction q; simpl; auto. Qed.

Lemma fold_score_ok (bm : t) toks q s :
  avgdl bm <> 0 ->
  fold_left (fun acc term => s <- acc ;; c <- term_score bm toks term ;; Ok (s + c))
            q (Ok s) =
  Ok (s + Rsum (map (fun term => term_value bm (idf bm term) (py_count toks term)
                                             (length toks)) q)).
Proof.
  intros Ha. revert s. induction q as [|term q IH]; intros s; cbn [fold_left map].
  - unfold Rsum. simpl. f_equal. lra.
  - unfold term_score at 2. destruct (Req_dec_T (avgdl bm) 0); [done|]. cbn [result_bind].
    rewrite IH, Rsum_cons. f_equal. lra.
Qed.

Lemma score_closed_form (bm : t) q d doc :
  InvertedIndex.doc_table (index bm) !! d = Some doc -> avgdl bm <> 0 ->
  score bm q d =
  Ok (Rsum (map (fun term => term_value bm (idf bm term) (py_count (tokens doc) term)
                                         (length (tokens doc))) q)).
Proof.
  intros Hd Ha. unfold score. rewrite Hd, fold_score_ok by done. f_equal. lra.
Qed.

Lemma score_raises (bm : t) q d :
  (InvertedIndex.doc_table (index bm) !! d = None -> score bm q d = Raise KeyError) /\
  (is_Some (InvertedIndex.doc_table (index bm) !! d) -> avgdl bm = 0 -> q <> [] ->
   score bm q d = Raise ZeroDivisionError).
Proof.
  split; intros Hd; unfold score; [by rewrite Hd|].
  destruct Hd as [doc ->]. intros Ha Hq. destruct q as [|term q]; [done|].
  cbn [fold_left]. unfold term_score at 2. destruct (Req_dec_T (avgdl bm) 0); [|done].
  apply fold_score_raise.
Qed.

(** The only exception of a score of a present document: a zero
    [avgdl] with a non-empty query. *)
Lemma score_raise_cases (bm : t) q d e :
  is_Some (InvertedIndex.doc_table (index bm) !! d) -> score bm q d = Raise e ->
  e = ZeroDivisionError /\ avgdl bm = 0 /\ q <> [].
Proof.
  intros [doc Hd]. destruct (Req_dec_T (avgdl bm) 0) as [Ha|Ha].
  - destruct q as [|term q]; [unfold score; by rewrite Hd|].
    rewrite (proj2 (score_raises bm (term :: q) d)) by (eauto || done). by intros [= <-].
  - by rewrite (score_closed_form bm q d doc Hd Ha).
Qed.

(** [avgdl] is zero exactly when every document of the index is empty. *)
Lemma init_avgdl_zero I k1 b :
  avgdl (init I k1 b) = 0 <-> total_length I = 0%nat.
Proof.
  simpl. assert (0 < INR (Nat.max 1 (size (InvertedIndex.doc_stats I))))
    by (apply lt_0_INR; lia).
  split; intros H0.
  - apply Rmult_integral in H0 as [H0|H0].
    + by apply (INR_eq _ 0) in H0.
    + pose proof (Rinv_neq_0_compat _ (Rgt_not_eq _ _ H)). contradiction.
  - rewrite H0. simpl. lra.
Qed.

Lemma init_avgdl_nonneg I k1 b : 0 <= avgdl (init I k1 b).
Proof.
  simpl. apply Rle_mult_inv_pos; [apply pos_INR|apply lt_0_INR; lia].
Qed.

(** On a well-formed index every [idf] is non-negative, since no term
    has a larger document frequency than [N]. *)
Lemma idf_nonneg I k1 b term :
  InvertedIndex.wf I -> 0 <= idf (init I k1 b) term.
Proof.
  intros Hwf. unfold idf. simpl. apply ln_nonneg.
  pose proof (le_INR _ _ (df_bounded_by_N I term Hwf)).
  pose proof (pos_INR (InvertedIndex.df I term)).
  assert (0 <= (INR (InvertedIndex.N I) - INR (InvertedIndex.df I term) + 0.5)
               / (INR (InvertedIndex.df I term) + 0.5)); [|lra].
  apply Rle_mult_inv_pos; lra.
Qed.

Lemma term_value_nonneg (bm : t) idf_t tf len :
  0 <= idf_t -> 0 <= k1 bm -> 0 <= b bm <= 1 -> 0 < avgdl bm ->
  0 <= term_value bm idf_t tf len.
Proof.
  intros Hi Hk Hb Ha. unfold term_value.
  assert (0 <= b bm * INR len / avgdl bm)
    by (apply Rle_mult_inv_pos; [apply Rmult_le_pos; [lra|apply pos_INR]|done]).
  assert (0 <= k1 bm * (1 - b bm + b bm * INR len / avgdl bm)) by (apply Rmult_le_pos; lra).
  pose proof (pos_INR tf).
  destruct (Req_dec_T _ 0); [lra|].
  apply Rle_mult_inv_pos; [repeat apply Rmult_le_pos; lra|lra].
Qed.

(** One term's contribution grows with its frequency in the document. *)
Lemma term_value_mono (bm : t) idf_t tf1 tf2 len :
  0 <= idf_t -> 0 <= k1 bm -> 0 <= b bm <= 1 -> 0 < avgdl bm -> (tf1 <= tf2)%nat ->
  term_value bm idf_t tf1 len <= term_value bm idf_t tf2 len.
Proof.
  intros Hi Hk Hb Ha Htf. pose proof (term_value_nonneg bm idf_t tf2 len Hi Hk Hb Ha).
  revert H. unfold term_value.
  set (K := k1 bm * (1 - b bm + b bm * INR len / avgdl bm)).
  assert (0 <= b bm * INR len / avgdl bm)
    by (apply Rle_mult_inv_pos; [apply Rmult_le_pos; [lra|apply pos_INR]|done]).
  assert (0 <= K) by (apply Rmult_le_pos; lra).
  pose proof (le_INR _ _ Htf). pose proof (pos_INR tf1).
  destruct (Req_dec_T (INR tf1 + K) 0), (Req_dec_T (INR tf2 + K) 0); intros Hv2; try lra.
  replace (idf_t * INR tf1 * (k1 bm + 1) / (INR tf1 + K))
    with (idf_t * (k1 bm + 1) * (INR tf1 / (INR tf1 + K))) by (field; lra).
  replace (idf_t * INR tf2 * (k1 bm + 1) / (INR tf2 + K))
    with (idf_t * (k1 bm + 1) * (INR tf2 / (INR tf2 + K))) by (field; lra).
  apply Rmult_le_compat_l; [apply Rmult_le_pos; lra|apply ratio_mono; lra].
Qed.

(** C11: BM25 monotonicity.  Two documents of the same length in a
    well-formed index: if the second has at least the term frequency of
    the first for every query term, it scores at least as high (for any
    [k1 >= 0] and [0 <= b <= 1], the defaults included). *)
Theorem score_mono I k1 b q d1 d2 doc1 doc2 s1 s2 :
  InvertedIndex.wf I -> 0 <= k1 -> 0 <= b <= 1 ->
  InvertedIndex.doc_table I !! d1 = Some doc1 ->
  InvertedIndex.doc_table I !! d2 = Some doc2 ->
  length (tokens doc1) = length (tokens doc2) ->
  (forall term, term ∈ q -> (py_count (tokens doc1) term <= py_count (tokens doc2) term)%nat) ->
  score (init I k1 b) q d1 = Ok s1 -> score (init I k1 b) q d2 = Ok s2 -> s1 <= s2.
Proof.
  intros Hwf Hk Hb Hd1 Hd2 Hlen Htf Hs1 Hs2.
  destruct (Req_dec_T (avgdl (init I k1 b)) 0) as [Ha|Ha].
  - destruct q as [|term q].
    + unfold score in *. simpl in *. rewrite Hd1 in Hs1. rewrite Hd2 in Hs2.
      simplify_eq. lra.
    + pose proof (proj2 (score_raises (init I k1 b) (term :: q) d1)
        ltac:(exists doc1; exact Hd1) Ha ltac:(done)). congruence.
  - rewrite score_closed_form with (doc := doc1) in Hs1 by done.
    rewrite score_closed_form with (doc := doc2) in Hs2 by done.
    simplify_eq. rewrite Hlen. apply Rsum_map_le. intros term Ht.
    assert (0 < avgdl (init I k1 b))
      by (destruct (init_avgdl_nonneg I k1 b); [done|congruence]).
    apply term_value_mono; [by apply idf_nonneg|simpl; lra|simpl; lra|done|auto].
Qed.

End BM25Facts.

(** ** The ranking scenario *)

Section Scenario.
Import BM25.

Lemma scenario_wf : InvertedIndex.wf scenario_index.
Proof. apply build_preserves_wf. vm_compute. repeat constructor; set_solver. Qed.

Lemma scenario_avgdl : avgdl (default scenario_index) = 8 / 3.
Proof.
  unfold default, init. cbn [avgdl].
  assert (total_length scenario_index = 8%nat) as -> by (vm_compute; reflexivity).
  assert (size (InvertedIndex.doc_stats scenario_index) = 3%nat) as -> by (vm_compute; reflexivity).
  simpl. lra.
Qed.

Lemma scenario_idf_a : idf (default scenario_index) "a" = ln (8 / 5).
Proof.
  unfold idf. cbn [N index default init].
  assert (InvertedIndex.df scenario_index "a" = 2%nat) as -> by (vm_compute; reflexivity).
  assert (InvertedIndex.N scenario_index = 3%nat) as -> by (vm_compute; reflexivity).
  apply f_equal. simpl. lra.
Qed.

Lemma scenario_score (d : string) (toks : list string) :
  InvertedIndex.doc_table scenario_index !! d = Some (scenario_doc (String.substring 1 1 d) toks) ->
  score (default scenario_index) ["a"] d =
  Ok (term_value (default scenario_index) (ln (8 / 5)) (py_count toks "a") (length toks)).
Proof.
  intros Hd. rewrite (score_closed_form (default scenario_index) ["a"] d _ Hd) by (rewrite scenario_avgdl; lra).
  simpl. rewrite scenario_idf_a. unfold Rsum. simpl. f_equal. lra.
Qed.

(** C12: the spec's scenario.  Querying [a] with [k1 = 1.5] and
    [b = 0.75] scores document 3 ([tf = 3]) above document 1 ([tf = 2])
    above document 2 ([tf = 0]), whose score is [0]. *)
Theorem bm25_scenario :
  exists s1 s2 s3,
    score (default scenario_index) ["a"] "d1" = Ok s1 /\
    score (default scenario_index) ["a"] "d2" = Ok s2 /\
    score (default scenario_index) ["a"] "d3" = Ok s3 /\
    s2 = 0 /\ s2 < s1 /\ s1 < s3.
Proof.
  do 3 eexists. split_and!;
    [apply scenario_score; vm_compute; reflexivity ..| | |].
  all: cbn [py_count length filter]; vm_compute py_count; vm_compute length.
  all: unfold term_value; cbn [k1 b default init]; rewrite scenario_avgdl.
  all: assert (0 < ln (8 / 5)) by (rewrite <- ln_1; apply ln_increasing; lra).
  all: repeat destruct (Req_dec_T _ 0); simpl in *; try lra.
Qed.

End Scenario.

(** ** The ranker properties *)

Section RankerClaims.
Import BM25.

Lemma score_mono_witness :
  exists s1 s3, score (default scenario_index) ["a"] "d1" = Ok s1 /\
                score (default scenario_index) ["a"] "d3" = Ok s3 /\ s1 <= s3.
Proof.
  do 2 eexists. split; [apply scenario_score; vm_compute; reflexivity|].
  split; [apply scenario_score; vm_compute; reflexivity|].
  eapply (score_mono scenario_index 1.5 0.75 ["a"] "d1" "d3"
            (scenario_doc "1" ["a"; "b"; "a"]) (scenario_doc "3" ["a"; "a"; "a"]));
    [apply scenario_wf|lra|lra|vm_compute; reflexivity|vm_compute; reflexivity
    |reflexivity| |apply scenario_score; vm_compute; reflexivity
    |apply scenario_score; vm_compute; reflexivity].
  intros term Ht%list_elem_of_singleton. subst term. vm_compute. lia.
Defined.

(** C13: the BM25 score of a document, written with the spec's formula
    and nothing of the model's helpers: with [avgdl] the mean length of
    the documents of [doc_stats] (their count at least 1) and not zero,
    the score is the sum over the query tokens, repetitions included,
    of [idf * tf * (k1 + 1) / (tf + k1 * (1 - b + b * len / avgdl))],
    with [idf = ln (1 + (N - df + 0.5) / (df + 0.5))], [df] the entry of
    [term_doc_freq] (0 if unseen) and [tf] the raw count of the term in
    the document's tokens; a term whose denominator is zero counts 0. *)
Theorem score_ok I k1 b q d doc :
  InvertedIndex.doc_table I !! d = Some doc -> total_length I <> 0%nat ->
  score (init I k1 b) q d =
  Ok (Rsum (map (fun term =>
    let tf := INR (py_count (tokens doc) term) in
    let df := INR (InvertedIndex.df I term) in
    let avgdl := INR (total_length I) / INR (Nat.max 1 (size (InvertedIndex.doc_stats I))) in
    let denom := tf + k1 * (1 - b + b * INR (length (tokens doc)) / avgdl) in
    if Req_dec_T denom 0 then 0
    else ln (1 + (INR (InvertedIndex.N I) - df + 0.5) / (df + 0.5)) * tf * (k1 + 1) / denom) q)).
Proof.
  intros Hd Hl. rewrite (score_closed_form (init I k1 b) q d doc Hd)
    by (by intros ?%init_avgdl_zero).
  reflexivity.
Qed.

Lemma score_ok_witness :
  score (default scenario_index) ["a"] "d1" =
  Ok (Rsum [let denom := INR 2 + 1.5 * (1 - 0.75 + 0.75 * INR 3 / (INR 8 / INR 3)) in
            if Req_dec_T denom 0 then 0
            else ln (1 + (INR 3 - INR 2 + 0.5) / (INR 2 + 0.5)) * INR 2 * (1.5 + 1) / denom]).
Proof.
  apply (score_ok scenario_index 1.5 0.75 ["a"] "d1" (scenario_doc "1" ["a"; "b"; "a"]));
    vm_compute; [reflexivity|discriminate].
Defined.

(** C14: the two exceptions of [BM25.score]: [KeyError] for an id outside
    the document table, and [ZeroDivisionError] for a non-empty query
    when [avgdl] is zero, that is when every document of the index is
    empty (the constructor only guards against an empty [doc_stats]). *)
Theorem score_errors (bm : t) q d :
  (InvertedIndex.doc_table (index bm) !! d = None -> score bm q d = Raise KeyError) /\
  (is_Some (InvertedIndex.doc_table (index bm) !! d) -> avgdl bm = 0 -> q <> [] ->
   score bm q d = Raise ZeroDivisionError).
Proof. apply score_raises. Qed.

Lemma score_errors_witness :
  score (default scenario_index) ["a"] "d9" = Raise KeyError /\
  score (default empty_docs_index) ["a"] "e" = Raise ZeroDivisionError.
Proof.
  split.
  - apply (proj1 (score_errors (default scenario_index) ["a"] "d9")). vm_compute. reflexivity.
  - apply (proj2 (score_errors (default empty_docs_index) ["a"] "e"));
      [eexists; vm_compute; reflexivity| |done].
    apply init_avgdl_zero. vm_compute. reflexivity.
Defined.

End RankerClaims.
