(* ===== verification/Url.v ===== *)
(** * Url: the part of [urllib.parse.urlparse] the crawler reads

    [src/src/crawler.py] reads [urlparse(url).scheme], [.netloc] and
    [.path].  This file models CPython 3.12's [urlsplit] and [urlparse]
    on byte strings: the leading C0-or-space strip, the removal of tab,
    CR and LF, the scheme test, the [//netloc] split, the fragment and
    query split and the [;params] split of the last path segment.  The
    unbalanced-bracket test raises [ValueError]; the validation of a
    bracketed IPv6 host ([_check_bracketed_netloc]) and the NFKC check of
    non-ASCII hosts are not modelled.  This is library code, not code of
    the repository. *)

From S2P Require Import Prelude.

Record ParseResult := mkParseResult {
  scheme : string;
  netloc : string;
  path : string;
  params : string;
  query : string;
  fragment : string
}.

Section Urlparse.
Local Open Scope string_scope.

Definition chars := list Ascii.ascii.
Definition of_chars (l : chars) : string := String.string_of_list_ascii l.
Definition to_chars (s : string) : chars := String.list_ascii_of_string s.

Definition code (c : Ascii.ascii) : nat := Ascii.nat_of_ascii c.

Definition is_alpha (c : Ascii.ascii) : bool :=
  ((65 <=? code c) && (code c <=? 90) || (97 <=? code c) && (code c <=? 122))%nat.

(** [scheme_chars]: letters, digits and [+ - .]. *)
Definition is_scheme_char (c : Ascii.ascii) : bool :=
  is_alpha c || is_digit c || (code c =? 43)%nat || (code c =? 45)%nat || (code c =? 46)%nat.

(** First index of a character satisfying [p]. *)
Fixpoint find_index (p : Ascii.ascii -> bool) (l : chars) : option nat :=
  match l with
  | [] => None
  | c :: l' => if p c then Some 0%nat else S <$> find_index p l'
  end.

Definition is_char (n : nat) (c : Ascii.ascii) : bool := (code c =? n)%nat.

(** Split at the first occurrence of character [n] (dropping it). *)
Definition split_at_char (n : nat) (l : chars) : option (chars * chars) :=
  (fun i => (take i l, drop (S i) l)) <$> find_index (is_char n) l.

(** [url.lstrip(_WHATWG_C0_CONTROL_OR_SPACE)] and the removal of
    [\t], [\r], [\n]. *)
Fixpoint lstrip_c0 (l : chars) : chars :=
  match l with
  | c :: l' => if (code c <=? 32)%nat then lstrip_c0 l' else l
  | [] => []
  end.
Definition clean (l : chars) : chars :=
  filter (fun c => negb (is_char 9 c || is_char 13 c || is_char 10 c) = true) (lstrip_c0 l).

(** The scheme test: [i = url.find(':')], [i > 0], [url[0]] an ASCII
    letter, and every character of [url[:i]] a scheme character. *)
Definition split_scheme (l : chars) : chars * chars :=
  match find_index (is_char 58) l with
  | Some i =>
      match l with
      | c0 :: _ =>
          if (0 <? i)%nat && is_alpha c0 && forallb is_scheme_char (take i l)
          then (to_chars (py_lower (of_chars (take i l))), drop (S i) l)
          else ([], l)
      | [] => ([], l)
      end
  | None => ([], l)
  end.

(** [_splitnetloc(url, 2)]: up to the first of [/ ? #]. *)
Definition split_netloc (l : chars) : chars * chars :=
  let rest := drop 2 l in
  match find_index (fun c => is_char 47 c || is_char 63 c || is_char 35 c) rest with
  | Some i => (take i rest, drop i rest)
  | None => (rest, [])
  end.

Definition has_char (n : nat) (l : chars) : bool := existsb (is_char n) l.

(** [urlsplit(url)]: (scheme, netloc, path, query, fragment). *)
Definition urlsplit (url : string) : result (chars * chars * chars * chars * chars) :=
  let l := clean (to_chars url) in
  let '(sch, rest) := split_scheme l in
  let '(net, rest) :=
    if bool_decide (take 2 rest = to_chars "//") then split_netloc rest else ([], rest) in
  if xorb (has_char 91 net) (has_char 93 net) then Raise ValueError
  else
    let '(rest, frag) := default (rest, []) (split_at_char 35 rest) in
    let '(rest, qry) := default (rest, []) (split_at_char 63 rest) in
    Ok (sch, net, rest, qry, frag).

(** [uses_params]. *)
Definition uses_params : list string :=
  [""; "ftp"; "hdl"; "prospero"; "http"; "imap"; "https"; "shttp"; "rtsp";
   "rtsps"; "rtspu"; "sip"; "sips"; "mms"; "sftp"; "tel"].

(** Last index of a character satisfying [p]. *)
Definition rfind_index (p : Ascii.ascii -> bool) (l : chars) : option nat :=
  (fun i => (length l - 1 - i)%nat) <$> find_index p (rev l).

(** [_splitparams(url)]. *)
Definition split_params (l : chars) : chars * chars :=
  if has_char 47 l then
    let j := default 0%nat (rfind_index (is_char 47) l) in
    match find_index (is_char 59) (drop j l) with
    | Some k => (take (j + k) l, drop (j + k + 1) l)
    | None => (l, [])
    end
  else
    match find_index (is_char 59) l with
    | Some k => (take k l, drop (k + 1) l)
    | None => (l, [])
    end.

(** [urlparse(url)]. *)
Definition urlparse (url : string) : result ParseResult :=
  r <- urlsplit url ;;
  let '(sch, net, p, qry, frag) := r in
  let '(p, prm) :=
    if bool_decide (of_chars sch ∈ uses_params) && has_char 59 p
    then split_params p else (p, []) in
  Ok (mkParseResult (of_chars sch) (of_chars net) (of_chars p) (of_chars prm)
                    (of_chars qry) (of_chars frag)).

End Urlparse.

(** Examples of the CPython behaviour the model reproduces. *)
Example urlparse_http :
  urlparse "https://example.com/a/b;p?q=1#f" =
  Ok (mkParseResult "https" "example.com" "/a/b" "p" "q=1" "f").
Proof. vm_compute. reflexivity. Qed.

Example urlparse_no_scheme :
  urlparse "/robots.txt" = Ok (mkParseResult "" "" "/robots.txt" "" "" "").
Proof. vm_compute. reflexivity. Qed.

Example urlparse_bad_ipv6 : urlparse "http://[::1/x" = Raise ValueError.
Proof. vm_compute. reflexivity. Qed.
