(* ===== verification/Frontier.v ===== *)
(** * Frontier: the [Crawler] of [src/src/crawler.py] (lines 55-120)

    [crawl(seeds, limit)] runs [max_concurrency] copies of [worker()] on
    one asyncio event loop.  They share [self.frontier], [self.visited],
    [self.robots], the storage directory and the semaphore [sem =
    asyncio.Semaphore(self.max_concurrency)] guarding [fetch] (line 89),
    and a worker only yields to the others at an [await] that really
    suspends: the HTTP request, or [async with sem] when no permit is
    free.  The model is a step relation [step] on a [state] holding the
    shared sets and maps, the storage, the clock, the semaphore's free
    [permits] and one [wstate] per worker:

      - [WLoop]: at the head of [while self.frontier and len(self.visited)
        < limit];
      - [WAcquire u]: popped [u] and waits for a permit;
      - [WFetch u]: holds a permit and is suspended in the request for [u];
      - [WDone]: returned;
      - [WRaised e]: the worker raised [e], which ends [asyncio.gather]
        and the crawl (no step is taken afterwards).

    One step runs one worker from one suspension point to the next,
    atomically, as the event loop does: [step_exit] leaves the loop,
    [step_skip] pops a visited URL ([continue]), [step_block] pops an
    unvisited URL when no permit is free, [step_enter] pops one and takes
    a free permit at once, [step_wake] gives a waiting worker a permit;
    both then run [fetch] up to the request ([enter]: the lazy
    [RobotsTxt] creation, [allowed], and the blocking [wait], during which
    no other worker runs).  [step_complete] and [step_fail] resume a
    request with its response, which [fetch_rest] (lines 71-79) turns
    into the page text or [None], and give the permit back.  [set.pop()]
    is nondeterministic and so are responses and clock readings: the
    step relation quantifies over them.  BeautifulSoup's anchor
    extraction, [urljoin] and [sha256] are the section variables
    [hrefs], [urljoin] and [sha256].

    The relation allows more interleavings than the event loop: a step
    that ends at the loop head ([continue], a disallowed URL, a finished
    fetch) lets another worker run before the next pop, although no
    [await] separates them, and a ready worker may wait while others
    finish whole fetches; and after a worker raises no step is taken,
    while asyncio may still run ready workers until it cancels them (the
    crawl then raises, whatever they did).  The universal theorems hold a
    fortiori for the program; each concrete run below is one the event
    loop produces, as its comment explains.

    The theorems: a visited URL is never added back to the frontier; at
    most [limit - 1 + W] URLs are visited with [W] workers, and this is
    reached (more than [limit]); every run of the crawl is finite and,
    thanks to the semaphore's [W] permits, never deadlocks: it ends where
    [asyncio.gather] returns; two workers can fetch the same URL at once;
    a URL whose fetch failed is fetched again when linked later; every
    visited URL has its page in the storage; every [RobotsTxt] of a crawl
    has the default policy; consecutive fetches of a [scheme://host] are
    [crawl_delay] apart, but [http] and [https] fetches of one host are
    not. *)

From S2P Require Import Prelude Url Robots.
From Stdlib Require Import QArith Qminmax Lqa Relation_Operators Lexicographic_Product.

(** The metadata record [save] writes. *)
Record Meta := mkMeta {
  meta_url : string;
  fetch_time : Q;
  content_hash : string
}.

Inductive wstate :=
  | WLoop
  | WAcquire (url : string)
  | WFetch (url : string)
  | WDone
  | WRaised (e : py_exc).

Record state := mkState {
  frontier : gset string;
  visited : gset string;
  robots : gmap string RobotsTxt.t;
  storage : gmap string (string * Meta);
  workers : list wstate;
  clock : Q;
  permits : nat
}.

Section Crawler.
(** [hashlib.sha256(s.encode()).hexdigest()]. *)
Variable sha256 : string -> string.
(** The [href] of every [<a href>] of a page, in document order. *)
Variable hrefs : string -> list string.
(** [urllib.parse.urljoin(base, href)]. *)
Variable urljoin : string -> string -> string.
(** The [limit] argument of [crawl]. *)
Variable limit : nat.

(** [crawl]'s start, lines 81-97: [self.frontier.update(seeds)] on a
    fresh crawler, [sem = asyncio.Semaphore(self.max_concurrency)] and
    [max_concurrency] workers at their loop head. *)
Definition init (seeds : list string) (max_concurrency : nat) (t0 : Q) : state :=
  mkState (list_to_set seeds) ∅ ∅ ∅ (replicate max_concurrency WLoop) t0 max_concurrency.

(** [while self.frontier and len(self.visited) < limit]. *)
Definition loop_cond (s : state) : bool :=
  bool_decide (frontier s ≠ ∅) && (size (visited s) <? limit)%nat.

(** [extract_links(base_url, html)], lines 111-120. *)
Definition extract_links (base_url html : string) : gset string :=
  list_to_set (omap (fun href =>
                       if startswith href "http" then Some href
                       else if startswith href "/" then Some (urljoin base_url href)
                       else None) (hrefs html)).

(** [save(url, html)], lines 99-109: the two files keyed by the hash of
    the URL. *)
Definition save (st : gmap string (string * Meta)) (url html : string) (now : Q)
    : gmap string (string * Meta) :=
  <[sha256 url := (html, mkMeta url now (sha256 html))]> st.

(** [fetch(url)] up to its first real suspension, lines 65-70: [None]
    when [allowed] is false (the coroutine returns without suspending),
    [Some wait_time] once [wait] has run; the robots registry is
    updated in both cases.  [after] is the clock reading at the end of
    [time.sleep].  The [RobotsTxt] constructor runs inside the event
    loop, so its download never happens. *)
Definition fetch_prefix (robots0 : gmap string RobotsTxt.t) (url : string) (now after : Q)
    : result (gmap string RobotsTxt.t * option Q) :=
  pr <- urlparse url ;;
  let dom := scheme pr +:+ "://" +:+ netloc pr in
  let rb := match robots0 !! dom with
            | Some r => r
            | None => RobotsTxt.init true None dom
            end in
  ok <- RobotsTxt.allowed rb url ;;
  if ok then
    match RobotsTxt.wait rb url now after with
    | Ok (w, rb') => Ok (<[dom := rb']> robots0, Some w)
    | Raise e => Raise e
    end
  else Ok (<[dom := rb]> robots0, None).

(** Lines 91-96, after [fetch] returned a non-empty page. *)
Definition complete (s : state) (url html : string) (now : Q) (ws : list wstate) : state :=
  let vis := {[url]} ∪ visited s in
  mkState (frontier s ∪ (extract_links url html ∖ vis)) vis (robots s)
          (save (storage s) url html now) ws now (permits s).

(** What [await resp.text()] sees of the response of [session.get(url,
    timeout=10)]: its status, its [content-type] header and its text. *)
Record Response := mkResponse {
  status : Z;
  content_type : option string;
  resp_text : string
}.

(** The rest of [fetch(url)], lines 71-79, from the response, [None]
    standing for an exception (timeout, connection error, undecodable
    text) that [except Exception] turns into [return None]: the text of a
    [200] response whose [content-type] (default [''], line 74) contains
    [text/html], [None] otherwise. *)
Definition fetch_rest (resp : option Response) : option string :=
  match resp with
  | Some r =>
      if ((status r =? 200)%Z && str_contains (default ""%string (content_type r)) "text/html")%bool
      then Some (resp_text r) else None
  | None => None
  end.

(** [if html:] (line 91): [None] and the empty text are false. *)
Definition truthy (o : option string) : bool :=
  match o with Some h => negb (bool_decide (h = ""%string)) | None => false end.

Definition is_raised (w : wstate) : bool := if w is WRaised _ then true else false.
Definition crashed (s : state) : bool := existsb is_raised (workers s).

(** [url = self.frontier.pop()], line 86. *)
Definition pop (s : state) (u : string) : state :=
  mkState (frontier s ∖ {[u]}) (visited s) (robots s) (storage s) (workers s) (clock s) (permits s).

(** The end of [async with sem] (line 89): the permit is given back. *)
Definition release (s : state) : state :=
  mkState (frontier s) (visited s) (robots s) (storage s) (workers s) (clock s) (S (permits s)).

(** Worker [i], having taken a permit of [sem] for [u] (line 89), runs
    [fetch(u)] up to its request: an exception leaves [async with] (the
    permit is given back) and ends the worker; a disallowed URL makes
    [fetch] return [None] without suspending, the permit is given back
    and the worker is at its loop head again; otherwise the worker keeps
    the permit and waits for the response. *)
Inductive enter (s : state) (i : nat) (u : string) : state -> Prop :=
| enter_raise e :
    fetch_prefix (robots s) u (clock s) (clock s) = Raise e ->
    enter s i u (mkState (frontier s) (visited s) (robots s) (storage s)
                         (<[i := WRaised e]> (workers s)) (clock s) (permits s))
| enter_disallowed rb :
    fetch_prefix (robots s) u (clock s) (clock s) = Ok (rb, None) ->
    enter s i u (mkState (frontier s) (visited s) rb (storage s)
                         (<[i := WLoop]> (workers s)) (clock s) (permits s))
| enter_start rb w after :
    fetch_prefix (robots s) u (clock s) after = Ok (rb, Some w) ->
    (clock s + w <= after)%Q ->
    enter s i u (mkState (frontier s) (visited s) rb (storage s)
                         (<[i := WFetch u]> (workers s)) after (pred (permits s))).

(** One worker runs from one suspension point to the next.  A worker
    that pops an unvisited URL takes a permit of [sem] at once when one
    is free ([asyncio.Semaphore.acquire] does not suspend then), and
    otherwise waits for one ([WAcquire]). *)
Inductive step : state -> state -> Prop :=
| step_exit s i :
    crashed s = false -> workers s !! i = Some WLoop -> loop_cond s = false ->
    step s (mkState (frontier s) (visited s) (robots s) (storage s)
                    (<[i := WDone]> (workers s)) (clock s) (permits s))
| step_skip s i u :
    crashed s = false -> workers s !! i = Some WLoop -> loop_cond s = true ->
    u ∈ frontier s -> u ∈ visited s ->
    step s (pop s u)
| step_block s i u :
    crashed s = false -> workers s !! i = Some WLoop -> loop_cond s = true ->
    u ∈ frontier s -> u ∉ visited s -> permits s = 0%nat ->
    step s (mkState (frontier s ∖ {[u]}) (visited s) (robots s) (storage s)
                    (<[i := WAcquire u]> (workers s)) (clock s) (permits s))
| step_enter s i u s' :
    crashed s = false -> workers s !! i = Some WLoop -> loop_cond s = true ->
    u ∈ frontier s -> u ∉ visited s -> permits s <> 0%nat ->
    enter (pop s u) i u s' -> step s s'
| step_wake s i u s' :
    crashed s = false -> workers s !! i = Some (WAcquire u) -> permits s <> 0%nat ->
    enter s i u s' -> step s s'
| step_complete s i u resp html now :
    crashed s = false -> workers s !! i = Some (WFetch u) ->
    fetch_rest resp = Some html -> html <> ""%string -> (clock s <= now)%Q ->
    step s (release (complete s u html now (<[i := WLoop]> (workers s))))
| step_fail s i u resp now :
    crashed s = false -> workers s !! i = Some (WFetch u) ->
    truthy (fetch_rest resp) = false -> (clock s <= now)%Q ->
    step s (release (mkState (frontier s) (visited s) (robots s) (storage s)
                             (<[i := WLoop]> (workers s)) now (permits s))).

Definition reachable (s0 s : state) : Prop := rtc step s0 s.

(** The number of popped URLs not yet done with: waiting for a permit or
    for a response. *)
Definition is_fetch (w : wstate) : bool :=
  match w with WAcquire _ | WFetch _ => true | _ => false end.
Definition count_ws (f : wstate -> bool) (ws : list wstate) : nat :=
  length (filter (fun w => f w = true) ws).
Definition inflight (ws : list wstate) : nat := count_ws is_fetch ws.

(** ** An executable scheduler

    A choice of the event loop: which worker runs, which URL [pop]
    returns, which clock readings and which response it sees. *)
Inductive action :=
  | AExit (i : nat)
  | APop (i : nat) (u : string) (after : Q)
  | AWake (i : nat) (after : Q)
  | AResume (i : nat) (resp : option Response) (now : Q).

(** [enter] as a function of the clock reading after [time.sleep]. *)
Definition exec_enter (s : state) (i : nat) (u : string) (after : Q) : option state :=
  match fetch_prefix (robots s) u (clock s) (clock s),
        fetch_prefix (robots s) u (clock s) after with
  | Raise e, _ =>
      Some (mkState (frontier s) (visited s) (robots s) (storage s)
                    (<[i := WRaised e]> (workers s)) (clock s) (permits s))
  | Ok (rb, None), _ =>
      Some (mkState (frontier s) (visited s) rb (storage s)
                    (<[i := WLoop]> (workers s)) (clock s) (permits s))
  | _, Ok (rb, Some w) =>
      if Qle_bool (clock s + w) after
      then Some (mkState (frontier s) (visited s) rb (storage s)
                         (<[i := WFetch u]> (workers s)) after (pred (permits s)))
      else None
  | _, _ => None
  end.

Definition exec (a : action) (s : state) : option state :=
  if crashed s then None else
  match a with
  | AExit i =>
      match workers s !! i with
      | Some WLoop =>
          if loop_cond s then None
          else Some (mkState (frontier s) (visited s) (robots s) (storage s)
                             (<[i := WDone]> (workers s)) (clock s) (permits s))
      | _ => None
      end
  | APop i u after =>
      match workers s !! i with
      | Some WLoop =>
          if loop_cond s && bool_decide (u ∈ frontier s) then
            if bool_decide (u ∈ visited s) then Some (pop s u)
            else if Nat.eqb (permits s) 0 then
              Some (mkState (frontier s ∖ {[u]}) (visited s) (robots s) (storage s)
                            (<[i := WAcquire u]> (workers s)) (clock s) (permits s))
            else exec_enter (pop s u) i u after
          else None
      | _ => None
      end
  | AWake i after =>
      match workers s !! i with
      | Some (WAcquire u) => if Nat.eqb (permits s) 0 then None else exec_enter s i u after
      | _ => None
      end
  | AResume i resp now =>
      match workers s !! i with
      | Some (WFetch u) =>
          if Qle_bool (clock s) now then
            match fetch_rest resp with
            | Some html =>
                if bool_decide (html = ""%string)
                then Some (release (mkState (frontier s) (visited s) (robots s) (storage s)
                                            (<[i := WLoop]> (workers s)) now (permits s)))
                else Some (release (complete s u html now (<[i := WLoop]> (workers s))))
            | None => Some (release (mkState (frontier s) (visited s) (robots s) (storage s)
                                             (<[i := WLoop]> (workers s)) now (permits s)))
            end
          else None
      | _ => None
      end
  end.

Fixpoint run (acts : list action) (s : state) : option state :=
  match acts with
  | [] => Some s
  | a :: acts' => match exec a s with Some s' => run acts' s' | None => None end
  end.

End Crawler.

(** A concrete environment for the scenarios: page [page-y] links to
    [http://a/x], every other page has no link. *)
Definition demo_sha256 (s : string) : string := s.
Definition demo_urljoin (base href : string) : string := base +:+ href.
Definition demo_hrefs (html : string) : list string :=
  if bool_decide (html = "page-y") then ["http://a/x"] else [].

(** A [200] HTML response with the given text. *)
Definition html_page (h : string) : option Response :=
  Some (mkResponse 200 (Some "text/html; charset=utf-8"%string) h).

Definition two_seeds : state := init ["http://a/x"; "http://a/y"] 2 0.

(** Both workers pop a URL while one is still missing to reach the
    limit, and both pages are saved. *)
Definition overshoot_schedule : list action :=
  [APop 0 "http://a/x" 1; APop 1 "http://a/y" 2;
   AResume 0 (html_page "page-x") 2; AResume 1 (html_page "page-y") 2].

(** Worker 1 fetches [y], whose page links to [x] while worker 0 is still
    fetching [x]: [x] goes back to the frontier. *)
Definition relink_prefix : list action :=
  [APop 0 "http://a/x" 1; APop 1 "http://a/y" 2; AResume 1 (html_page "page-y") 2].

(** The state a schedule reaches from [two_seeds] in the demo
    environment ([two_seeds] itself when the schedule is refused). *)
Definition demo_state (limit : nat) (acts : list action) : state :=
  default two_seeds (run demo_sha256 demo_hrefs demo_urljoin limit acts two_seeds).

Section CrawlerFacts.
Variable sha256 : string -> string.
Variable hrefs : string -> list string.
Variable urljoin : string -> string -> string.
Variable limit : nat.
Local Abbreviation step := (step sha256 hrefs urljoin limit).
Local Abbreviation reachable := (reachable sha256 hrefs urljoin limit).
Local Abbreviation exec := (exec sha256 hrefs urljoin limit).
Local Abbreviation run := (run sha256 hrefs urljoin limit).

Lemma exec_enter_sound s i u after s' : exec_enter s i u after = Some s' -> enter s i u s'.
Proof.
  unfold exec_enter.
  destruct (fetch_prefix (robots s) u (clock s) (clock s)) as [[rb [w0|]]|e] eqn:Hp1.
  - destruct (fetch_prefix (robots s) u (clock s) after) as [[rb' [w|]]|e'] eqn:Hp2; try done.
    destruct (Qle_bool _ _) eqn:Hq; [|done]. intros [= <-].
    eapply enter_start; [exact Hp2|]. by apply Qle_bool_iff.
  - intros [= <-]. by apply enter_disallowed.
  - intros [= <-]. by apply enter_raise.
Qed.

(** Every move of the executable scheduler is a step of the crawl. *)
Lemma exec_sound a s s' : exec a s = Some s' -> step s s'.
Proof.
  unfold exec. destruct (crashed s) eqn:Hc; [done|].
  destruct a as [i|i u after|i after|i resp now];
    destruct (workers s !! i) as [[|v|v| |e]|] eqn:Hw; try done.
  - destruct (loop_cond limit s) eqn:Hl; [done|]. intros [= <-]. by eapply step_exit.
  - destruct (loop_cond limit s) eqn:Hl; simpl; [|done].
    case_bool_decide as Hf; [|done]. case_bool_decide as Hv.
    { intros [= <-]. by eapply step_skip. }
    destruct (Nat.eqb_spec (permits s) 0) as [Hp|Hp].
    + intros [= <-]. by eapply step_block.
    + intros He%exec_enter_sound. by eapply step_enter.
  - destruct (Nat.eqb_spec (permits s) 0) as [Hp|Hp]; [done|].
    intros He%exec_enter_sound. by eapply step_wake.
  - destruct (Qle_bool _ _) eqn:Hq; [|done]. apply Qle_bool_iff in Hq.
    destruct (fetch_rest resp) as [html|] eqn:Hr; [case_bool_decide as He|]; intros [= <-].
    + eapply step_fail; eauto. by rewrite Hr; subst.
    + by eapply step_complete.
    + eapply step_fail; eauto. by rewrite Hr.
Qed.

Lemma run_reachable acts s s' : run acts s = Some s' -> reachable s s'.
Proof.
  revert s. induction acts as [|a acts IH]; intros s; simpl.
  - intros [= <-]. apply rtc_refl.
  - destruct (exec a s) as [s1|] eqn:He; [|done]. intros Hr.
    eapply rtc_l; [exact (exec_sound a s s1 He)|]. by apply IH.
Qed.

(** Rule induction along a run, for a property every step preserves. *)
Lemma reachable_inv (P : state -> Prop) :
  (forall s s', step s s' -> P s -> P s') ->
  forall s s', reachable s s' -> P s -> P s'.
Proof. intros Hstep s s' Hr. induction Hr; eauto. Qed.

(** What [enter] changes: worker [i], the robots registry, the clock
    and the permits; the frontier, [visited] and the storage stay. *)
Lemma enter_sets s i u s' :
  enter s i u s' ->
  frontier s' = frontier s /\ visited s' = visited s /\ storage s' = storage s.
Proof. by destruct 1. Qed.

(** The shape of [fetch]'s prefix does not depend on the clock reading
    after [time.sleep]: [wait_time] is computed before the sleep. *)
Lemma fetch_prefix_after rob u now a1 a2 rb w :
  fetch_prefix rob u now a1 = Ok (rb, Some w) ->
  exists rb', fetch_prefix rob u now a2 = Ok (rb', Some w).
Proof.
  unfold fetch_prefix, RobotsTxt.wait.
  destruct (urlparse u) as [pr|]; cbn [result_bind]; [|done].
  destruct (RobotsTxt.allowed _ u) as [[]|]; cbn [result_bind]; [|done|done].
  intros [= <- <-]. eauto.
Qed.

(** Some [enter] always exists: the prefix of [fetch] raises, returns
    [None], or reaches the request (then with a clock reading late
    enough for the sleep). *)
Lemma enter_exists s i u : exists s', enter s i u s'.
Proof.
  destruct (fetch_prefix (robots s) u (clock s) (clock s)) as [[rb [w|]]|e] eqn:Hp.
  - destruct (fetch_prefix_after _ _ _ _ (clock s + w) _ _ Hp) as [rb' Hp'].
    eexists. eapply enter_start; [exact Hp'|apply Qle_refl].
  - eexists. by apply enter_disallowed.
  - eexists. by apply enter_raise.
Qed.

(** What a step does to the shared sets: [visited] only grows, and
    every URL that enters the frontier was not visited before the
    step. *)
Lemma step_sets s s' :
  step s s' ->
  visited s ⊆ visited s' /\ (forall u, u ∈ frontier s' -> u ∈ frontier s \/ u ∉ visited s).
Proof.
  destruct 1 as [| | |s i u s' _ _ _ _ _ _ He|s i u s' _ _ _ He| |];
    try (apply enter_sets in He as (-> & -> & _));
    unfold complete, release, pop; simpl; split; intros; try set_solver.
Qed.

(** C1: once a URL is visited and out of the frontier, no interleaving
    of the workers ever adds it back: it stays visited and outside the
    frontier. *)
Theorem visited_never_readded s s' u :
  reachable s s' -> u ∈ visited s -> u ∉ frontier s ->
  u ∈ visited s' /\ u ∉ frontier s'.
Proof.
  intros Hr Hv Hf.
  refine (reachable_inv (fun s => u ∈ visited s /\ u ∉ frontier s) _ s s' Hr (conj Hv Hf)).
  intros s1 s2 Hs [Hv1 Hf1]. destruct (step_sets s1 s2 Hs) as [Hsub Hnew].
  split; [set_solver|]. intros Hin. destruct (Hnew u Hin); done.
Qed.

(** Overwriting one worker changes a count by what the old and the new
    state contribute. *)
Lemma count_insert f ws i old new :
  ws !! i = Some old ->
  (count_ws f (<[i := new]> ws) + (if f old then 1 else 0) =
   count_ws f ws + (if f new then 1 else 0))%nat.
Proof.
  intros Hi. unfold count_ws.
  rewrite <- (take_drop_middle ws i old Hi) at 2.
  rewrite insert_take_drop by (eapply lookup_lt_Some; eauto).
  rewrite !filter_app, !filter_cons, !length_app.
  destruct (f old), (f new); simpl; repeat case_decide; simpl; try lia; done.
Qed.

Lemma count_ws_mono (f g : wstate -> bool) ws :
  (forall w, f w = true -> g w = true) -> (count_ws f ws <= count_ws g ws)%nat.
Proof.
  intros Hfg. unfold count_ws. induction ws as [|w ws IH]; simpl; [lia|].
  rewrite !filter_cons. specialize (Hfg w).
  destruct (f w), (g w); repeat case_decide; simpl; try lia; naive_solver.
Qed.

Lemma count_ws_length f ws : (count_ws f ws <= length ws)%nat.
Proof. apply length_filter. Qed.

(** A worker the count leaves out makes the count smaller than the pool. *)
Lemma count_ws_lt f ws i w : ws !! i = Some w -> f w = false -> (count_ws f ws < length ws)%nat.
Proof.
  intros Hi Hf. apply (length_filter_lt (fun w => f w = true) ws w); [by eapply list_elem_of_lookup_2|].
  by rewrite Hf.
Qed.

Lemma count_replicate f w n : f w = false -> count_ws f (replicate n w) = 0%nat.
Proof.
  intros Hf. induction n; simpl; [done|]. unfold count_ws in *.
  by rewrite filter_cons, decide_False by congruence.
Qed.

(** Account for the worker a step overwrites, in every count [f]. *)
Ltac count_step f Hw :=
  match goal with
  | |- context [<[_ := ?w]> _] => pose proof (count_insert f _ _ _ w Hw)
  end.

Lemma size_add_visited (u : string) (V : gset string) : (size ({[u]} ∪ V) <= S (size V))%nat.
Proof.
  rewrite size_union_alt, size_singleton.
  pose proof (subseteq_size (V ∖ {[u]}) V ltac:(set_solver)). lia.
Qed.

Lemma loop_cond_lt s : loop_cond limit s = true -> (size (visited s) < limit)%nat.
Proof. unfold loop_cond. by intros [_ ?%Nat.ltb_lt]%andb_true_iff. Qed.

(** The counting invariant behind the bound: a worker holding a popped
    URL popped it while fewer than [limit] URLs were visited. *)
Definition count_inv (s : state) : Prop :=
  (size (visited s) + inflight (workers s) <= limit - 1 + length (workers s))%nat.

Lemma step_count_inv s s' : step s s' -> count_inv s -> count_inv s'.
Proof.
  unfold count_inv, inflight. destruct 1 as
    [s i Hc Hw Hl|s i u Hc Hw Hl|s i u Hc Hw Hl|s i u s' Hc Hw Hl Hf Hv Hp He
    |s i u s' Hc Hw Hp He|s i u resp html now Hc Hw|s i u resp now Hc Hw];
    [| |apply loop_cond_lt in Hl|apply loop_cond_lt in Hl; destruct He|destruct He| |];
    simpl; rewrite ?length_insert; intros Hinv; try lia; count_step is_fetch Hw;
    try pose proof (count_ws_lt is_fetch _ _ _ Hw eq_refl); simpl in *; try lia.
  pose proof (size_add_visited u (visited s)). lia.
Qed.

Lemma step_workers_length s s' : step s s' -> length (workers s') = length (workers s).
Proof.
  destruct 1 as [| | |s i u s' _ _ _ _ _ _ He|s i u s' _ _ _ He| |];
    try destruct He; simpl; by rewrite ?length_insert.
Qed.

Lemma reachable_count_inv seeds W t0 s :
  reachable (init seeds W t0) s -> count_inv s /\ length (workers s) = W.
Proof.
  intros Hr. refine (reachable_inv (fun s => count_inv s /\ length (workers s) = W) _ _ _ Hr _).
  - intros s1 s2 Hs [Hc Hl]. split; [by eapply step_count_inv|].
    by rewrite (step_workers_length _ _ Hs).
  - unfold count_inv, init, inflight; cbn [visited workers].
    rewrite count_replicate, length_replicate, size_empty by done.
    split; [lia|done].
Qed.

(** C2: with [W] workers, a crawl visits at most [limit - 1 + W] URLs:
    [len(self.visited) < limit] is only tested before a URL is popped,
    and each of the [W] workers can hold one popped URL when the limit
    is reached. *)
Theorem visited_bound seeds W t0 s :
  reachable (init seeds W t0) s -> (size (visited s) <= limit - 1 + W)%nat.
Proof.
  intros (Hc & Hlen)%reachable_count_inv. unfold count_inv in Hc. lia.
Qed.

(** The semaphore: its permits and the workers waiting for a response
    (each holding a permit) add up to [max_concurrency], the number of
    workers. *)
Definition is_busy (w : wstate) : bool := if w is WFetch _ then true else false.
Definition sem_inv (s : state) : Prop :=
  (permits s + count_ws is_busy (workers s) = length (workers s))%nat.

Lemma step_sem_inv s s' : step s s' -> sem_inv s -> sem_inv s'.
Proof.
  unfold sem_inv. destruct 1 as
    [s i Hc Hw Hl|s i u Hc Hw Hl|s i u Hc Hw Hl|s i u s' Hc Hw Hl Hf Hv Hp He
    |s i u s' Hc Hw Hp He|s i u resp html now Hc Hw|s i u resp now Hc Hw];
    [| | |destruct He|destruct He| |];
    simpl; rewrite ?length_insert; intros Hinv; try lia; count_step is_busy Hw; simpl in *; lia.
Qed.

Lemma reachable_sem_inv seeds W t0 s : reachable (init seeds W t0) s -> sem_inv s.
Proof.
  intros Hr. refine (reachable_inv sem_inv step_sem_inv _ _ Hr _).
  unfold sem_inv, init; simpl. rewrite count_replicate, length_replicate by done. lia.
Qed.

(** *** Termination

    A popped URL is stale when another worker visited it meanwhile.
    Each step decreases the pair [(progress_measure, work_measure)]
    lexicographically: completing a fresh fetch grows [visited], which
    [count_inv] bounds, and makes at most [W - 1] popped URLs stale;
    completing a stale one removes it; every other step leaves the first
    component unchanged or smaller and shrinks the frontier or lowers the
    weight of a worker: [WAcquire] 3, [WFetch] 2, [WLoop] 1, done 0. *)
Definition is_stale (V : gset string) (w : wstate) : bool :=
  match w with WAcquire u | WFetch u => bool_decide (u ∈ V) | _ => false end.

Definition wweight (w : wstate) : nat :=
  match w with WLoop => 1 | WAcquire _ => 3 | WFetch _ => 2 | _ => 0 end.

Definition progress_measure (s : state) : nat :=
  length (workers s) * (limit - 1 + length (workers s) - size (visited s))
  + count_ws (is_stale (visited s)) (workers s).

Definition work_measure (s : state) : nat :=
  3 * size (frontier s) + sum_list_with wweight (workers s).

Definition measure_lt : relation (nat * nat) := slexprod nat nat lt lt.

Lemma measure_lt_wf : well_founded measure_lt.
Proof. apply wf_slexprod; apply lt_wf. Qed.

Lemma size_pop (u : string) (F : gset string) : u ∈ F -> (size (F ∖ {[u]}) < size F)%nat.
Proof.
  intros Hu. rewrite size_difference by set_solver. rewrite size_singleton.
  pose proof (subseteq_size ({[u]} : gset string) F ltac:(set_solver)). rewrite size_singleton in *. lia.
Qed.

Lemma size_visit (u : string) (V : gset string) : u ∉ V -> size ({[u]} ∪ V) = S (size V).
Proof. intros Hu. rewrite size_union by set_solver. by rewrite size_singleton. Qed.

(** Account for the worker a step overwrites, in the stale count and
    the weights. *)
Ltac measure_step V Hw :=
  match goal with
  | |- context [<[_ := ?w]> _] =>
      pose proof (count_insert (is_stale V) _ _ _ w Hw);
      pose proof (sum_list_with_insert wweight _ _ _ w Hw)
  end.

Lemma step_measure s s' :
  step s s' -> count_inv s ->
  (progress_measure s' < progress_measure s)%nat \/
  (progress_measure s' = progress_measure s /\ (work_measure s' < work_measure s)%nat).
Proof.
  unfold progress_measure, work_measure, count_inv.
  destruct 1 as
    [s i Hc Hw Hl|s i u Hc Hw Hl Hf Hv|s i u Hc Hw Hl Hf Hv Hp|s i u s' Hc Hw Hl Hf Hv Hp He
    |s i u s' Hc Hw Hp He|s i u resp html now Hc Hw Hr Hh Hn|s i u resp now Hc Hw Hr Hn];
    [| | |pose proof (size_pop u _ Hf); destruct He|destruct He| |];
    simpl; rewrite ?length_insert; intros Hinv.
  (* exit, skip, block *)
  1: measure_step (visited s) Hw; simpl in *; lia.
  1: pose proof (size_pop u _ Hf); lia.
  1: pose proof (size_pop u _ Hf); measure_step (visited s) Hw; simpl in *;
     rewrite bool_decide_false in * by done; lia.
  (* a popped URL enters [async with sem] *)
  1-3: measure_step (visited s) Hw; simpl in *; rewrite ?bool_decide_false in * by done; lia.
  (* a waiting worker takes its permit *)
  1-3: measure_step (visited s) Hw; simpl in *; destruct (bool_decide (u ∈ visited s)); lia.
  (* a response arrives *)
  - left. destruct (decide (u ∈ visited s)) as [Hv|Hv].
    + rewrite subseteq_union_1_L by set_solver.
      measure_step (visited s) Hw. simpl in *. rewrite bool_decide_true in * by done. lia.
    + rewrite size_visit by done.
      pose proof (count_insert is_fetch _ _ _ WLoop Hw). simpl in *.
      pose proof (count_ws_mono (is_stale ({[u]} ∪ visited s)) is_fetch (<[i:=WLoop]> (workers s))
                    ltac:(by intros [] ?)).
      pose proof (count_ws_length is_fetch (workers s)).
      unfold inflight in *.
      destruct (limit - 1 + length (workers s) - size (visited s))%nat as [|k] eqn:Hk; [lia|].
      assert (limit - 1 + length (workers s) - S (size (visited s)) = k)%nat as -> by lia.
      rewrite Nat.mul_succ_r. lia.
  - measure_step (visited s) Hw. simpl in *. destruct (bool_decide (u ∈ visited s)); lia.
Qed.

(** Crawl states satisfying [count_inv] are strongly normalising. *)
Lemma count_inv_sn s : count_inv s -> sn step s.
Proof.
  remember (progress_measure s, work_measure s) as m eqn:Hm. revert s Hm.
  induction m as [m IH] using (well_founded_induction measure_lt_wf).
  intros s -> Hinv. constructor. intros s' Hs. unfold flip in Hs.
  eapply IH; [|reflexivity|by eapply step_count_inv].
  destruct (step_measure s s' Hs Hinv) as [Hlt|[-> Hlt]]; [by apply left_slex|by apply right_slex].
Qed.

(** *** Progress *)

Definition is_done (w : wstate) : bool := if w is WDone then true else false.

(** [asyncio.gather] has returned: every worker returned, or one raised
    (which [gather] propagates). *)
Definition finished (s : state) : bool := crashed s || forallb is_done (workers s).

(** A crawl that has not finished can always take a step: a worker at the
    loop head exits, pops, or waits for a permit; a worker waiting for a
    permit gets one, since the [W] permits are only held by workers
    waiting for a response; and a worker waiting for a response can at
    least receive an exception. *)
Lemma progress s : sem_inv s -> finished s = false -> exists s', step s s'.
Proof.
  unfold finished, sem_inv. intros Hsem [Hc (i & w & Hw & Hd)%forallb_false_lookup]%orb_false_iff.
  destruct w as [|u|u| |e]; simpl in Hd; try done.
  - destruct (loop_cond limit s) eqn:Hl; [|eexists; by eapply step_exit].
    pose proof Hl as Hl'. apply andb_true_iff in Hl' as [Hf%bool_decide_eq_true _].
    destruct (set_choose_L _ Hf) as [u Hu].
    destruct (decide (u ∈ visited s)) as [Hv|Hv]; [eexists; by eapply step_skip|].
    destruct (decide (permits s = 0%nat)) as [Hp|Hp]; [eexists; by eapply step_block|].
    destruct (enter_exists (pop s u) i u) as [s' He]. eexists. by eapply step_enter.
  - pose proof (count_ws_lt is_busy _ _ _ Hw eq_refl).
    destruct (enter_exists s i u) as [s' He]. exists s'. eapply step_wake; [done|done|lia|done].
  - eexists. eapply (step_fail _ _ _ _ s i u None (clock s)); [done|done|done|apply Qle_refl].
  - exfalso. unfold crashed in Hc. by rewrite (existsb_lookup is_raised _ _ _ Hw) in Hc.
Qed.

Lemma finished_stuck s s' : finished s = true -> ~ step s s'.
Proof.
  unfold finished. intros [Hc|Hall]%orb_true_iff Hs.
  - destruct Hs; congruence.
  - rewrite forallb_forall in Hall.
    destruct Hs; match goal with
    | Hw : workers _ !! _ = Some _ |- _ =>
        apply list_elem_of_lookup_2, list_elem_of_In, Hall in Hw; done
    end.
Qed.

(** From a strongly normalising state where the semaphore invariant
    holds, the crawl can always be driven to a finished state. *)
Lemma sn_finishes s : sn step s -> sem_inv s -> exists s', reachable s s' /\ finished s' = true.
Proof.
  induction 1 as [s _ IH]. intros Hsem.
  destruct (finished s) eqn:Hf; [exists s; split; [apply rtc_refl|done]|].
  destruct (progress s Hsem Hf) as [s1 Hs1].
  destruct (IH s1 Hs1 (step_sem_inv _ _ Hs1 Hsem)) as (s' & Hr & Hfin).
  exists s'. split; [by eapply rtc_l|done].
Qed.

(** The policy every [RobotsTxt] of a crawl keeps. *)
Definition default_policy (rob : gmap string RobotsTxt.t) : Prop :=
  forall dom r, rob !! dom = Some r ->
    RobotsTxt.domain r = dom /\ RobotsTxt.rules r = [] /\ RobotsTxt.crawl_delay r = 1%Z.

Lemma fetch_prefix_default_policy rob u now after rob' o :
  fetch_prefix rob u now after = Ok (rob', o) -> default_policy rob -> default_policy rob'.
Proof.
  unfold fetch_prefix. destruct (urlparse u) as [pr|]; cbn [result_bind]; [|done].
  set (dom := scheme pr +:+ "://" +:+ netloc pr).
  set (rb := match rob !! dom with Some r => r | None => RobotsTxt.init true None dom end).
  intros Hf Hd.
  assert (Hrb : RobotsTxt.domain rb = dom /\ RobotsTxt.rules rb = [] /\
                RobotsTxt.crawl_delay rb = 1%Z).
  { unfold rb. destruct (rob !! dom) eqn:E; [by apply Hd|done]. }
  destruct (RobotsTxt.allowed rb u) as [[]|]; cbn [result_bind] in Hf; [|simplify_eq|done].
  - destruct (RobotsTxt.wait rb u now after) as [[w rb']|] eqn:Hw; [|done]. simplify_eq.
    apply wait_keeps_policy in Hw as (? & ? & ?).
    intros d r. rewrite lookup_insert. case_decide; [|by apply Hd]. intros; simplify_eq.
    naive_solver congruence.
  - intros d r. rewrite lookup_insert. case_decide; [|by apply Hd]. intros; simplify_eq.
    naive_solver.
Qed.

Lemma enter_default_policy s i u s' :
  enter s i u s' -> default_policy (robots s) -> default_policy (robots s').
Proof. destruct 1; simpl; [done| |]; by eapply fetch_prefix_default_policy. Qed.

(** C20: [RobotsTxt(domain)] is built inside the running event loop, so
    its [asyncio.run] raises and the robots file is never downloaded:
    every policy of a crawl is the default one (no rule, delay 1), and
    [allowed] accepts every URL [urlparse] accepts. *)
Theorem crawl_robots_default seeds W t0 s dom r :
  reachable (init seeds W t0) s -> robots s !! dom = Some r ->
  RobotsTxt.rules r = [] /\ RobotsTxt.crawl_delay r = 1%Z /\
  forall url pr, urlparse url = Ok pr -> RobotsTxt.allowed r url = Ok true.
Proof.
  intros Hr Hd.
  assert (default_policy (robots s)) as Hp.
  { refine (reachable_inv (fun s => default_policy (robots s)) _ _ _ Hr _);
      [|intros ? ?; simpl; by rewrite lookup_empty].
    destruct 1 as [| | |s1 i u s2 _ _ _ _ _ _ He|s1 i u s2 _ _ _ He| |]; intros Hp; simpl;
      try done; by eapply enter_default_policy; [exact He|exact Hp]. }
  destruct (Hp dom r Hd) as (_ & Hrules & Hdelay). split_and!; [done|done|].
  intros url pr Hu. rewrite (allowed_iff_no_prefix r url pr Hu), Hrules. done.
Qed.

(** The storage written by [save] mirrors [visited]. *)
Definition storage_inv (s : state) : Prop :=
  (forall u, u ∈ visited s -> exists html m,
      storage s !! sha256 u = Some (html, m) /\ sha256 (meta_url m) = sha256 u) /\
  (forall k html m, storage s !! k = Some (html, m) ->
      k = sha256 (meta_url m) /\ meta_url m ∈ visited s).

Lemma step_storage_inv s s' : step s s' -> storage_inv s -> storage_inv s'.
Proof.
  destruct 1 as [| | |s i u s' _ _ _ _ _ _ He|s i u s' _ _ _ He|s i u resp html now Hc Hw Hr Hh Hn|];
    try (apply enter_sets in He as (Hf & Hv & Hs); unfold storage_inv; rewrite Hv, Hs; done);
    try done.
  unfold release, complete, save, storage_inv; simpl. intros [Hv Hk]. split.
  - intros u' Hu'. rewrite lookup_insert. case_decide as He; [by eauto|].
    apply Hv. set_solver.
  - intros k h m. rewrite lookup_insert. case_decide; intros; simplify_eq/=; [set_solver|].
    destruct (Hk k h m) as [? ?]; [done|]. split; [done|set_solver].
Qed.

Lemma reachable_storage_inv seeds W t0 s :
  reachable (init seeds W t0) s -> storage_inv s.
Proof.
  intros Hr. refine (reachable_inv storage_inv step_storage_inv _ _ Hr _).
  unfold storage_inv; simpl. split; [set_solver|]. intros k h m. by rewrite lookup_empty.
Qed.

(** The storage has at most one page per visited URL. *)
Lemma storage_size s : storage_inv s -> (size (storage s) <= size (visited s))%nat.
Proof.
  intros [_ Hk]. transitivity (length (map sha256 (elements (visited s)))).
  - apply map_size_le_keys. intros k [html m] Hs. destruct (Hk k html m Hs) as [-> Hv].
    by apply list_elem_of_In, in_map, list_elem_of_In, elem_of_elements.
  - rewrite length_map. done.
Qed.

(** Every URL of [visited] has its page stored under [sha256] of
    the URL, with metadata naming a URL of the same hash, and every
    stored page belongs to a visited URL. *)
Theorem storage_matches_visited seeds W t0 s :
  reachable (init seeds W t0) s -> storage_inv s.
Proof. apply reachable_storage_inv. Qed.

End CrawlerFacts.

(** ** Interleavings the code allows *)

Section Scenarios.
Local Abbreviation run_demo limit := (run demo_sha256 demo_hrefs demo_urljoin limit).
Local Abbreviation reachable_demo limit := (reachable demo_sha256 demo_hrefs demo_urljoin limit).

(** C24: the limit is exceeded: with [limit = 1] and two workers the
    crawl reaches a state with two visited URLs. *)
Theorem crawl_exceeds_limit :
  exists s, reachable_demo 1 two_seeds s /\ size (visited s) = 2%nat.
Proof.
  exists (default two_seeds (run_demo 1 overshoot_schedule two_seeds)). split.
  - apply (run_reachable _ _ _ _ overshoot_schedule). vm_compute. reflexivity.
  - vm_compute. reflexivity.
Qed.

(** The bound of [visited_bound] is reached by the same run. *)
Lemma visited_bound_witness :
  (size (visited (default two_seeds (run_demo 1 overshoot_schedule two_seeds))) <= 1 - 1 + 2)%nat.
Proof.
  apply (visited_bound demo_sha256 demo_hrefs demo_urljoin 1 ["http://a/x"; "http://a/y"] 2 0).
  apply (run_reachable _ _ _ _ overshoot_schedule). vm_compute. reflexivity.
Defined.

(** C25: the pop-check-visited sequence is not atomic with respect to
    the fetch: two workers can be fetching the same URL at once.  The
    run is one the event loop produces: worker 0 pops [x] and suspends
    in its request, worker 1 pops [y] and suspends, the response for [y]
    arrives first, and worker 1, without suspending, adds the link [x]
    (not yet visited) to the frontier, loops, pops [x] and requests it
    (one of the two permits is free). *)
Theorem same_url_fetched_twice :
  exists s, reachable_demo 10 two_seeds s /\
            workers s = [WFetch "http://a/x"; WFetch "http://a/x"].
Proof.
  exists (default two_seeds (run_demo 10 (relink_prefix ++ [APop 1 "http://a/x" 3]) two_seeds)).
  split; [apply (run_reachable _ _ _ _ (relink_prefix ++ [APop 1 "http://a/x" 3]))|];
    vm_compute; reflexivity.
Qed.

(** C26: politeness is per [scheme://host], not per host: an [http] and
    an [https] URL of one host start their requests at the same instant,
    each [RobotsTxt] recording an access at time 1. *)
Theorem http_https_not_spaced :
  exists s, reachable_demo 10 (init ["http://h/a"; "https://h/b"] 2 0) s /\
    workers s = [WFetch "http://h/a"; WFetch "https://h/b"] /\
    (RobotsTxt.last_access <$> robots s !! "http://h") = Some {["h" := 1%Q]} /\
    (RobotsTxt.last_access <$> robots s !! "https://h") = Some {["h" := 1%Q]}.
Proof.
  set (s0 := init ["http://h/a"; "https://h/b"] 2 0).
  exists (default s0 (run_demo 10 [APop 0 "http://h/a" 1; APop 1 "https://h/b" 1] s0)).
  split; [apply (run_reachable _ _ _ _ [APop 0 "http://h/a" 1; APop 1 "https://h/b" 1])|];
    vm_compute; [reflexivity|].
  split_and!; reflexivity.
Qed.

(** One worker: the event loop then runs its events in one order. *)
Definition one_worker : state := init ["http://a/x"; "http://a/y"] 1 0.

(** A [404] answer for [x]; [y], which links to [x], is fetched next; [x]
    is popped again. *)
Definition refetch_schedule : list action :=
  [APop 0 "http://a/x" 1; AResume 0 (Some (mkResponse 404 (Some "text/html"%string) "gone")) 1;
   APop 0 "http://a/y" 2; AResume 0 (html_page "page-y") 2; APop 0 "http://a/x" 3].

(** C18: a failed fetch is not final.  With one worker, whose run is the
    only order of events the event loop has: [x] gets a [404] and is not
    marked visited; the worker pops [y], whose page links to [x], so [x]
    comes back into the frontier; the worker pops [x] and requests it a
    second time, holding the only permit. *)
Theorem failed_url_refetched :
  run_demo 10 refetch_schedule one_worker =
  Some (mkState ∅ {["http://a/y"]}
          {["http://a" := RobotsTxt.mk "http://a" [] 1 {["a" := 3%Q]}]}
          {["http://a/y" := ("page-y", mkMeta "http://a/y" 2 "page-y")]}
          [WFetch "http://a/x"] 3 0).
Proof. vm_compute. reflexivity. Qed.

End Scenarios.

(** ** The crawler properties *)

Section FrontierClaims.
Local Abbreviation run_demo limit := (run demo_sha256 demo_hrefs demo_urljoin limit).
Local Abbreviation reachable_demo limit := (reachable demo_sha256 demo_hrefs demo_urljoin limit).

(** A schedule the executable interpreter accepts is
    a run of the crawl. *)
Theorem run_sound sha256 hrefs urljoin limit acts s s' :
  run sha256 hrefs urljoin limit acts s = Some s' -> reachable sha256 hrefs urljoin limit s s'.
Proof. apply run_reachable. Qed.

Lemma run_sound_witness :
  reachable_demo 1 two_seeds (default two_seeds (run_demo 1 overshoot_schedule two_seeds)).
Proof. apply (run_sound _ _ _ _ overshoot_schedule). vm_compute. reflexivity. Defined.

Lemma visited_never_readded_witness :
  "http://a/y" ∈ visited (demo_state 10 (relink_prefix ++ [APop 1 "http://a/x" 3])) /\
  "http://a/y" ∉ frontier (demo_state 10 (relink_prefix ++ [APop 1 "http://a/x" 3])).
Proof.
  apply (visited_never_readded demo_sha256 demo_hrefs demo_urljoin 10
           (demo_state 10 relink_prefix)).
  - apply (run_reachable _ _ _ _ [APop 1 "http://a/x" 3]). vm_compute. reflexivity.
  - vm_compute. reflexivity.
  - vm_compute. discriminate.
Defined.

Lemma crawl_robots_default_witness :
  RobotsTxt.rules (default (RobotsTxt.mk "" [] 0 ∅) (robots (demo_state 10 relink_prefix) !! "http://a")) = [] /\
  RobotsTxt.crawl_delay (default (RobotsTxt.mk "" [] 0 ∅) (robots (demo_state 10 relink_prefix) !! "http://a")) = 1%Z.
Proof.
  destruct (crawl_robots_default demo_sha256 demo_hrefs demo_urljoin 10
           ["http://a/x"; "http://a/y"] 2 0 (demo_state 10 relink_prefix) "http://a"
           (default (RobotsTxt.mk "" [] 0 ∅) (robots (demo_state 10 relink_prefix) !! "http://a")))
    as (Hr & Hd & _).
  - apply (run_reachable _ _ _ _ relink_prefix). vm_compute. reflexivity.
  - vm_compute. reflexivity.
  - split; [exact Hr|exact Hd].
Defined.

Lemma storage_matches_visited_witness :
  storage_inv demo_sha256 (demo_state 1 overshoot_schedule).
Proof.
  apply (storage_matches_visited demo_sha256 demo_hrefs demo_urljoin 1
           ["http://a/x"; "http://a/y"] 2 0).
  apply (run_reachable _ _ _ _ overshoot_schedule). vm_compute. reflexivity.
Defined.

(** C3: termination: every schedule of [crawl(seeds, limit)] with [W]
    workers is finite, whatever [set.pop()] returns, whatever the
    responses, links and clock readings: no infinite sequence of steps
    starts from the initial state, even though a completed fetch can put
    any number of new URLs in the frontier. *)
Theorem crawl_terminates sha256 hrefs urljoin limit seeds W t0 :
  sn (step sha256 hrefs urljoin limit) (init seeds W t0).
Proof.
  apply count_inv_sn.
  by destruct (reachable_count_inv sha256 hrefs urljoin limit seeds W t0 (init seeds W t0)
                 (rtc_refl _ _)).
Qed.

(** C4: liveness: from every state of a crawl, a state where
    [asyncio.gather] has returned (every worker returned, or one raised)
    can be reached, and a state where no worker can move is such a
    state: [crawl] never deadlocks.  It rests on the semaphore: it has
    as many permits as there are workers, and a permit is only held
    during a request, which always ends, so a worker waiting in
    [async with sem] always gets one. *)
Theorem crawl_finishes sha256 hrefs urljoin limit seeds W t0 s :
  reachable sha256 hrefs urljoin limit (init seeds W t0) s ->
  (exists s', reachable sha256 hrefs urljoin limit s s' /\ finished s' = true) /\
  ((forall s', ~ step sha256 hrefs urljoin limit s s') -> finished s = true).
Proof.
  intros Hr. pose proof (reachable_sem_inv _ _ _ _ _ _ _ _ Hr) as Hsem.
  destruct (reachable_count_inv _ _ _ _ _ _ _ _ Hr) as [Hc _].
  split; [by apply sn_finishes; [apply count_inv_sn|]|].
  intros Hstuck. destruct (finished s) eqn:Hf; [done|].
  destruct (progress sha256 hrefs urljoin limit s Hsem Hf) as [s' Hs]. by destruct (Hstuck s').
Qed.

Lemma crawl_finishes_witness :
  exists s', reachable_demo 10 (demo_state 10 relink_prefix) s' /\ finished s' = true.
Proof.
  refine (proj1 (crawl_finishes demo_sha256 demo_hrefs demo_urljoin 10
                   ["http://a/x"; "http://a/y"] 2 0 (demo_state 10 relink_prefix) _)).
  apply (run_reachable _ _ _ _ relink_prefix). vm_compute. reflexivity.
Defined.

End FrontierClaims.
