(* ===== verification/Dedup.v ===== *)
(** * Dedup: the [Deduplicator] of [src/src/dedupe.py] over datasketch

    [Deduplicator.dedupe] (lines 15-28) reads every [.json] file of the
    parsed directory in [os.listdir] order, builds the MinHash of the
    document's token set, asks the [MinHashLSH] index for candidates, and
    when there is none inserts the signature under the file's id and
    writes the document out.  The signature and the index are those of the
    datasketch library, modelled from its source:

      - [MinHash.update]: [phv = ((a * hv + b) % mersenne_prime) &
        max_hash] on numpy [uint64] arrays, so [a * hv + b] wraps modulo
        [2^64] before the reduction; [hashvalues = minimum(phv,
        hashvalues)], starting from [max_hash];
      - [MinHashLSH]: [bands] hash tables, band [i] keyed by the slice
        [i*rows .. (i+1)*rows] of the signature; [insert] raises
        [ValueError] on a key already present; [query] returns every key
        sharing one band with the signature.

    The 32-bit token hash ([sha1_hash32]), the 128 random permutations
    [(a, b)] and the band parameters chosen by [_optimal_param] are
    section variables.  The theorems: the MinHash of a token list
    depends only on its set of tokens ([minhash_set_invariant]); [query]
    finds exactly the keys that share a band; one iteration of the loop
    skips a colliding document, writes a new one, and raises [ValueError]
    when a non-colliding document has the id of one already inserted (two
    file names that [fname.replace('.json', '')] maps to one id, as
    [h.json] and [h.json.json] for any dot-free [h]); the
    documents written out never share a band pairwise, every document
    dropped shares a band with one written before it, and of two
    documents with the same token set at most one is written. *)

From S2P Require Import Prelude Index.
From Stdlib Require Import QArith.

Definition num_perm : nat := 128.
Definition mersenne_prime : Z := (2 ^ 61 - 1)%Z.
Definition max_hash : Z := (2 ^ 32 - 1)%Z.

(** numpy [uint64] arithmetic. *)
Definition u64 (x : Z) : Z := (x mod 2 ^ 64)%Z.

(** One permuted hash of [MinHash.update]. *)
Definition permute (ab : Z * Z) (hv : Z) : Z :=
  Z.land (u64 (u64 (ab.1 * hv) + ab.2) mod mersenne_prime) max_hash.

(** The LSH index: one hash table per band and the [keys] table. *)
Record LSH := mkLSH {
  hashtables : list (gmap (list Z) (list string));
  keys : gmap string (list (list Z))
}.

(** The state of [dedupe]: the index and the documents written out. *)
Record DState := mkDState {
  lsh : LSH;
  written : list (string * Doc)
}.

Section Dedupe.
(** [sha1_hash32] of the UTF-8 encoding of a token. *)
Variable hash32 : string -> Z.
(** The [(a, b)] pairs of [MinHash.permutations]. *)
Variable perms : list (Z * Z).
(** [b] and [r] of [_optimal_param(threshold, num_perm)]. *)
Variable bands rows : nat.

(** [MinHash(num_perm=128)]: [hashvalues = [max_hash] * num_perm]. *)
Definition minhash_init : list Z := replicate (length perms) max_hash.

(** [m.update(t.encode('utf8'))]. *)
Definition minhash_update (hvs : list Z) (t : string) : list Z :=
  zip_with (fun ab h => Z.min (permute ab (hash32 t)) h) perms hvs.

(** [for t in tokens: m.update(...)] over the iteration order [toks]. *)
Definition minhash_of (toks : list string) : list Z := foldl minhash_update minhash_init toks.

(** The signature [dedupe] builds from [set(doc['tokens'])]. *)
Definition signature (d : Doc) : list Z :=
  minhash_of (elements (list_to_set (tokens d) : gset string)).

(** [self.hashranges] and [_H(hashvalues[start:end])]. *)
Definition band_slice (sig : list Z) (i : nat) : list Z := take rows (drop (i * rows) sig).
Definition band_keys (sig : list Z) : list (list Z) := band_slice sig <$> seq 0 bands.

Definition lsh_empty : LSH := mkLSH (replicate bands ∅) ∅.

(** [MinHashLSH.insert(key, minhash)]. *)
Definition lsh_insert (key : string) (sig : list Z) (l : LSH) : result LSH :=
  if bool_decide (is_Some (keys l !! key)) then Raise ValueError
  else
    let Hs := band_keys sig in
    Ok (mkLSH (zip_with (fun H ht => <[H := default [] (ht !! H) ++ [key]]> ht)
                        Hs (hashtables l))
              (<[key := Hs]> (keys l))).

(** [MinHashLSH.query(minhash)]: the set of candidate keys. *)
Definition lsh_query (sig : list Z) (l : LSH) : gset string :=
  ⋃ (zip_with (fun H ht => list_to_set (default [] (ht !! H)) : gset string)
              (band_keys sig) (hashtables l)).

(** One iteration of the loop of [dedupe], lines 16-28. *)
Definition dedupe_step (st : DState) (entry : string * Doc) : result DState :=
  let '(fname, doc) := entry in
  if endswith fname ".json" then
    let m := signature doc in
    let h := Indexer.doc_id_of fname in
    if bool_decide (lsh_query m (lsh st) = ∅) then
      l' <- lsh_insert h m (lsh st) ;;
      Ok (mkDState l' (written st ++ [(fname, doc)]))
    else Ok st
  else Ok st.

Fixpoint dedupe_go (st : DState) (listing : list (string * Doc)) : result DState :=
  match listing with
  | [] => Ok st
  | e :: rest => st' <- dedupe_step st e ;; dedupe_go st' rest
  end.

(** [Deduplicator(...).dedupe()] over a listing of decoded files. *)
Definition dedupe (listing : list (string * Doc)) : result (list (string * Doc)) :=
  st <- dedupe_go (mkDState lsh_empty []) listing ;; Ok (written st).

(** Two signatures collide when they share one band. *)
Definition collide (s1 s2 : list Z) : Prop :=
  exists i, (i < bands)%nat /\ band_slice s1 i = band_slice s2 i.

End Dedupe.

Module Deduplicator.

(** The attributes of a [Deduplicator] object, lines 6-13: the two
    directories ([os.makedirs] of line 11 only creates the output one),
    the threshold, the [MinHashLSH(threshold=threshold, num_perm=128)]
    index and the [hashes] dict, which no method reads. *)
Record t := mk {
  input_dir : string;
  output_dir : string;
  threshold : Q;
  lsh : LSH;
  hashes : gmap string (list Z)
}.

(** [Deduplicator(input_dir, output_dir, threshold)], lines 7-13; [bands]
    is the [b] that [_optimal_param] gives the threshold. *)
Definition init (bands : nat) (input_dir output_dir : string) (threshold : Q) : t :=
  mk input_dir output_dir threshold (lsh_empty bands) ∅.

End Deduplicator.

Section DedupeOn.
Variable hash32 : string -> Z.
Variable perms : list (Z * Z).
Variable bands rows : nat.

(** [d.dedupe()] on the object [d], lines 15-28: the loop runs on
    [d.lsh], which keeps the keys it inserts; the result pairs the
    updated object with the documents written out. *)
Definition dedupe_on (d : Deduplicator.t) (listing : list (string * Doc))
    : result (Deduplicator.t * list (string * Doc)) :=
  st <- dedupe_go hash32 perms bands rows (mkDState (Deduplicator.lsh d) []) listing ;;
  Ok (Deduplicator.mk (Deduplicator.input_dir d) (Deduplicator.output_dir d)
        (Deduplicator.threshold d) (lsh st) (Deduplicator.hashes d), written st).

End DedupeOn.

(** A concrete instance for the scenarios: a 32-bit polynomial string
    hash, 128 odd multipliers, 4 bands of 32 rows. *)
Definition demo_hash32 (t : string) : Z :=
  foldl (fun h c => (h * 31 + Z.of_nat (Ascii.nat_of_ascii c)) mod 2 ^ 32)%Z 7%Z
        (String.list_ascii_of_string t).
Definition demo_perms : list (Z * Z) :=
  map (fun i => (Z.of_nat (2 * i + 1) * 2654435761, Z.of_nat i * 40503))%Z (seq 0 num_perm).
Definition demo_doc (n : string) (toks : list string) : Doc :=
  mkDoc ("http://example.com/" +:+ n) (Some n) [] "" toks (demo_meta n).
Definition demo_dedupe_listing : list (string * Doc) :=
  [("1.json", demo_doc "1" ["alpha"; "beta"; "gamma"]);
   ("2.json", demo_doc "2" ["gamma"; "alpha"; "beta"; "beta"]);
   ("3.json", demo_doc "3" ["delta"; "epsilon"; "zeta"]);
   ("notes.txt", demo_doc "4" ["eta"])]%string.

Section DedupFacts.
Variable hash32 : string -> Z.
Variable perms : list (Z * Z).
Variable bands rows : nat.
Local Abbreviation minhash_of := (minhash_of hash32 perms).
Local Abbreviation signature := (signature hash32 perms).

(** A fresh [Deduplicator]'s [dedupe()] writes the documents [dedupe]
    keeps, and raises what it raises. *)
Lemma dedupe_on_init_ok i o th l d' out :
  dedupe_on hash32 perms bands rows (Deduplicator.init bands i o th) l = Ok (d', out) ->
  dedupe hash32 perms bands rows l = Ok out.
Proof. unfold dedupe_on, dedupe. destruct (dedupe_go _ _ _ _ _ _); simpl; congruence. Qed.

Lemma dedupe_on_init_raise i o th l e :
  dedupe_on hash32 perms bands rows (Deduplicator.init bands i o th) l = Raise e ->
  dedupe hash32 perms bands rows l = Raise e.
Proof. unfold dedupe_on, dedupe. destruct (dedupe_go _ _ _ _ _ _); simpl; congruence. Qed.

(** The minimum one permutation reaches over the tokens, from
    [max_hash]. *)
Definition minval (ab : Z * Z) (toks : list string) : Z :=
  foldl (fun acc t => Z.min (permute ab (hash32 t)) acc) max_hash toks.

Lemma foldl_min_le_iff (ab : Z * Z) toks a x :
  (x <= foldl (fun acc t => Z.min (permute ab (hash32 t)) acc) a toks)%Z <->
  (x <= a)%Z /\ forall t, t ∈ toks -> (x <= permute ab (hash32 t))%Z.
Proof.
  revert a. induction toks as [|t toks IH]; intros a; simpl.
  - set_solver.
  - rewrite IH, Z.min_glb_iff. set_solver.
Qed.

Lemma minhash_of_minval toks : minhash_of toks = map (fun ab => minval ab toks) perms.
Proof.
  induction toks as [|t toks IH] using rev_ind.
  - unfold minhash_of, Dedup.minhash_of, minhash_init. simpl.
    induction perms; simpl; by f_equal.
  - unfold minhash_of, Dedup.minhash_of in *. rewrite foldl_app. simpl. rewrite IH.
    unfold minhash_update, minval. clear IH. induction perms as [|ab l IHl]; simpl; [done|].
    rewrite foldl_app. simpl. by f_equal.
Qed.

(** MinHash only depends on the set of tokens: neither the order of
    the updates nor repeated tokens matter. *)
Lemma minhash_set_invariant toks1 toks2 :
  (forall t, t ∈ toks1 <-> t ∈ toks2) -> minhash_of toks1 = minhash_of toks2.
Proof.
  intros Hset. rewrite !minhash_of_minval. apply map_ext. intros ab. unfold minval.
  destruct (proj1 (foldl_min_le_iff ab toks1 max_hash _) (Z.le_refl _)) as [H1a H1b].
  destruct (proj1 (foldl_min_le_iff ab toks2 max_hash _) (Z.le_refl _)) as [H2a H2b].
  apply Z.le_antisymm; apply foldl_min_le_iff; split; try done; intros t Ht.
  - by apply H1b, Hset.
  - by apply H2b, Hset.
Qed.

End DedupFacts.

Section LSHFacts.
Variable bands rows : nat.
Local Abbreviation band_keys := (band_keys bands rows).
Local Abbreviation band_slice := (band_slice rows).
Local Abbreviation lsh_insert := (lsh_insert bands rows).
Local Abbreviation lsh_query := (lsh_query bands rows).

Lemma band_keys_length sig : length (band_keys sig) = bands.
Proof. unfold Dedup.band_keys. by rewrite length_fmap, length_seq. Qed.

Lemma band_keys_lookup sig i H :
  band_keys sig !! i = Some H <-> (i < bands)%nat /\ H = band_slice sig i.
Proof.
  unfold Dedup.band_keys. rewrite list_lookup_fmap.
  destruct (seq 0 bands !! i) eqn:E; simpl.
  - apply lookup_seq in E as [-> ?]. naive_solver.
  - apply lookup_ge_None in E. rewrite length_seq in E. split; [done|lia].
Qed.

(** The index invariant: band [i]'s table lists exactly the keys whose
    [i]-th band key it is. *)
Definition lsh_wf (l : LSH) : Prop :=
  length (hashtables l) = bands /\
  (forall i ht H k, hashtables l !! i = Some ht ->
     k ∈ default [] (ht !! H) <-> exists Hs, keys l !! k = Some Hs /\ Hs !! i = Some H) /\
  (forall k Hs, keys l !! k = Some Hs -> length Hs = bands).

Lemma lsh_empty_wf : lsh_wf (lsh_empty bands).
Proof.
  split_and!; simpl; [by rewrite length_replicate| |by setoid_rewrite lookup_empty].
  intros i ht H k (-> & _)%lookup_replicate. rewrite lookup_empty. simpl.
  setoid_rewrite lookup_empty. split; [set_solver|naive_solver].
Qed.

Lemma lsh_query_iff l sig k :
  lsh_wf l ->
  k ∈ lsh_query sig l <->
  exists Hs, keys l !! k = Some Hs /\
    exists i, (i < bands)%nat /\ Hs !! i = Some (band_slice sig i).
Proof.
  intros (Hlen & Htab & _). unfold Dedup.lsh_query. rewrite elem_of_union_list. split.
  - intros (X & (i & Hi)%list_elem_of_lookup & Hk). rewrite lookup_zip_with in Hi.
    destruct (band_keys sig !! i) as [H|] eqn:EH; [|done]. simpl in Hi.
    destruct (hashtables l !! i) as [ht|] eqn:Eht; [|done].
    injection Hi as HX. rewrite <- HX in Hk.
    apply band_keys_lookup in EH as [? ->].
    rewrite elem_of_list_to_set, (Htab i ht _ k Eht) in Hk. naive_solver.
  - intros (Hs & Hk & i & Hi & HH).
    assert (is_Some (hashtables l !! i)) as [ht Eht] by (apply lookup_lt_is_Some; lia).
    eexists. split.
    + assert (band_keys sig !! i = Some (band_slice sig i)) as EH
        by (apply band_keys_lookup; done).
      apply list_elem_of_lookup. exists i. rewrite lookup_zip_with, EH, Eht. done.
    + rewrite elem_of_list_to_set, (Htab i ht _ k Eht). eauto.
Qed.

Lemma lsh_insert_wf l key sig l' :
  lsh_wf l -> lsh_insert key sig l = Ok l' ->
  lsh_wf l' /\ keys l' = <[key := band_keys sig]> (keys l) /\ keys l !! key = None.
Proof.
  intros (Hlen & Htab & Hks). unfold Dedup.lsh_insert.
  case_bool_decide as Hk; [done|]. intros Hl'. injection Hl' as <-.
  assert (Hnone : keys l !! key = None) by (destruct (keys l !! key); [exfalso; eauto|done]).
  split_and!; [|done|done]. split_and!; simpl.
  - rewrite length_zip_with, band_keys_length, Hlen. lia.
  - intros i ht' H k Ht'. rewrite lookup_zip_with in Ht'.
    destruct (band_keys sig !! i) as [Hi|] eqn:EHi; [|done]. simpl in Ht'.
    destruct (hashtables l !! i) as [ht|] eqn:Eht; [|done]. injection Ht' as <-.
    setoid_rewrite lookup_insert.
    destruct (decide (Hi = H)) as [<-|Hne]; simpl.
    + rewrite elem_of_app, list_elem_of_singleton, (Htab i ht Hi k Eht). split.
      * intros [(Hs & Hks' & HHs)| ->].
        -- exists Hs. case_decide; [congruence|done].
        -- exists (band_keys sig). by rewrite decide_True.
      * intros (Hs & Hks' & HHs). case_decide as Hkk; [by right|]. left. eauto.
    + rewrite (Htab i ht H k Eht). split.
      * intros (Hs & Hks' & HHs). exists Hs. case_decide; [congruence|done].
      * intros (Hs & Hks' & HHs). case_decide; [|eauto]. injection Hks' as <-. congruence.
  - intros k Hs. rewrite lookup_insert. case_decide; [|apply Hks].
    intros [= <-]. apply band_keys_length.
Qed.

(** Non-collision decided by comparing the bands one by one. *)
Lemma not_collide_check s1 s2 :
  forallb (fun i => negb (bool_decide (band_slice s1 i = band_slice s2 i))) (seq 0 bands) = true ->
  ~ collide bands rows s1 s2.
Proof.
  intros H (i & Hi & He). rewrite forallb_forall in H.
  specialize (H i (proj2 (in_seq bands 0 i) (conj (Nat.le_0_l i) Hi))).
  by rewrite bool_decide_true in H.
Qed.

End LSHFacts.

Section DedupLoop.
Variable hash32 : string -> Z.
Variable perms : list (Z * Z).
Variable bands rows : nat.
Local Abbreviation signature := (signature hash32 perms).
Local Abbreviation band_keys := (band_keys bands rows).
Local Abbreviation band_slice := (band_slice rows).
Local Abbreviation lsh_insert := (lsh_insert bands rows).
Local Abbreviation lsh_query := (lsh_query bands rows).
Local Abbreviation lsh_wf := (lsh_wf bands).
Local Abbreviation collide := (collide bands rows).
Local Abbreviation dedupe_step := (dedupe_step hash32 perms bands rows).
Local Abbreviation dedupe_go := (dedupe_go hash32 perms bands rows).
Local Abbreviation dedupe := (dedupe hash32 perms bands rows).

(** The invariant of the loop of [dedupe]. *)
Definition dedup_inv (st : DState) : Prop :=
  lsh_wf (lsh st) /\
  (forall k Hs, keys (lsh st) !! k = Some Hs ->
     exists e, e ∈ written st /\ k = Indexer.doc_id_of e.1 /\ Hs = band_keys (signature e.2)) /\
  (forall f d, (f, d) ∈ written st ->
     keys (lsh st) !! Indexer.doc_id_of f = Some (band_keys (signature d))) /\
  (forall i j e1 e2, (i < j)%nat -> written st !! i = Some e1 -> written st !! j = Some e2 ->
     ~ collide (signature e1.2) (signature e2.2)).

Lemma band_keys_collide s1 s2 i :
  (i < bands)%nat -> band_keys s1 !! i = Some (band_slice s2 i) -> collide s1 s2.
Proof. intros Hi Hl. apply band_keys_lookup in Hl as [_ Hl]. by exists i. Qed.

(** A signature the index does not answer collides with no document
    written so far, and one it answers collides with one of them. *)
Lemma query_hit st d k :
  dedup_inv st -> k ∈ lsh_query (signature d) (lsh st) ->
  exists e, e ∈ written st /\ collide (signature e.2) (signature d).
Proof.
  intros (Hwf & Hk & _). rewrite (lsh_query_iff bands rows _ _ _ Hwf).
  intros (Hs & HkHs & i & Hi & HHs). destruct (Hk k Hs HkHs) as (e & He & _ & ->).
  exists e. split; [done|]. by apply (band_keys_collide _ _ i).
Qed.

Lemma query_collision st d :
  dedup_inv st ->
  (lsh_query (signature d) (lsh st) = ∅ <->
   forall e, e ∈ written st -> ~ collide (signature e.2) (signature d)).
Proof.
  intros (Hwf & Hk & Hw & Hpw). split.
  - intros Hq [f d'] He (i & Hi & Hsl). apply (not_elem_of_empty (C := gset string)
      (Indexer.doc_id_of f)). rewrite <- Hq, (lsh_query_iff bands rows _ _ _ Hwf).
    eexists. split; [by apply Hw|]. exists i. split; [done|].
    apply (band_keys_lookup bands rows). split; [done|]. simpl in Hsl. by rewrite Hsl.
  - intros Hnone. apply set_eq. intros k. split; [|set_solver].
    intros (e & He & Hc)%(query_hit st d k (conj Hwf (conj Hk (conj Hw Hpw)))).
    by destruct (Hnone e He).
Qed.

Lemma dedup_inv_empty : dedup_inv (mkDState (lsh_empty bands) []).
Proof.
  split_and!; simpl; [apply (lsh_empty_wf bands)| | |]; intros *; rewrite ?lookup_empty; try done.
  set_solver.
Qed.

Lemma dedupe_step_spec st e st' :
  dedup_inv st -> dedupe_step st e = Ok st' ->
  dedup_inv st' /\
  ((written st' = written st /\
    (endswith e.1 ".json" = true ->
     exists e', e' ∈ written st /\ collide (signature e'.2) (signature e.2))) \/
   written st' = written st ++ [e]).
Proof.
  intros Hinv. pose proof Hinv as (Hwf & Hk & Hw & Hpw).
  destruct e as [fname doc]. unfold Dedup.dedupe_step.
  destruct (endswith fname ".json") eqn:Ej;
    [|intros [= <-]; split; [done|left; split; [done|simpl; by rewrite Ej]]].
  case_bool_decide as Hq.
  2: { intros [= <-]. split; [done|]. left. split; [done|]. intros _.
       destruct (set_choose_L _ Hq) as [k Hkq]. by apply (query_hit st doc k). }
  destruct (lsh_insert _ _ (lsh st)) as [l'|] eqn:Hi; [|done]. intros [= <-].
  destruct (lsh_insert_wf bands rows _ _ _ _ Hwf Hi) as (Hwf' & Hkeys & Hnone).
  split; [|by right]. split_and!; simpl; [done| | |].
  - intros k Hs. rewrite Hkeys, lookup_insert. case_decide.
    + intros [= <-]. exists (fname, doc). split_and!; [set_solver|done|done].
    + intros (e & He & ? & ->)%Hk. exists e. set_solver.
  - intros f d [Hold|Hnew%list_elem_of_singleton]%elem_of_app; rewrite Hkeys.
    + rewrite lookup_insert_ne; [by apply Hw|]. intros Heq. rewrite Heq, (Hw f d Hold) in Hnone. done.
    + injection Hnew as -> ->. apply lookup_insert_eq.
  - intros i j e1 e2 Hij [[Hi1 He1]|[-> <-]]%lookup_snoc_Some [[Hj2 He2]|[-> <-]]%lookup_snoc_Some;
      try lia; [by apply (Hpw i j)|].
    apply (proj1 (query_collision st doc Hinv) Hq). by eapply list_elem_of_lookup_2.
Qed.

Lemma dedupe_go_spec st l st' :
  dedup_inv st -> dedupe_go st l = Ok st' ->
  dedup_inv st' /\
  (exists l', written st' = written st ++ l' /\ l' `sublist_of` l) /\
  (forall e, e ∈ l -> endswith e.1 ".json" = true ->
     e ∈ written st' \/ exists e', e' ∈ written st' /\ collide (signature e'.2) (signature e.2)).
Proof.
  revert st. induction l as [|e l IH]; intros st Hinv; simpl.
  { intros [= <-]. split_and!; [done| |set_solver]. exists []. by rewrite app_nil_r. }
  destruct (dedupe_step st e) as [st1|] eqn:Hs; simpl; [|done]. intros Hgo.
  destruct (dedupe_step_spec st e st1 Hinv Hs) as [Hinv1 Hw1].
  destruct (IH st1 Hinv1 Hgo) as (Hinv' & (l' & Hl' & Hsub) & Hcov).
  split_and!; [done| |].
  - destruct Hw1 as [[Hw1 _]|Hw1]; rewrite Hl', Hw1.
    + exists l'. split; [done|]. by apply sublist_cons.
    + exists (e :: l'). split; [by rewrite <- app_assoc|]. by apply sublist_skip.
  - intros e' [->|He']%elem_of_cons Hj; [|by apply Hcov].
    assert (forall x, x ∈ written st1 -> x ∈ written st') as Hsub1
      by (intros x Hx; rewrite Hl'; apply elem_of_app; by left).
    destruct Hw1 as [[Hw1 Hc]|Hw1].
    + right. destruct (Hc Hj) as (e'' & He'' & Hcol). exists e''.
      split; [apply Hsub1; by rewrite Hw1|done].
    + left. apply Hsub1. rewrite Hw1. apply elem_of_app. right. by apply list_elem_of_singleton.
Qed.

(** A step whose id is not yet a key does not raise; it keeps the keys
    or adds the id of a [.json] entry. *)
Lemma dedupe_step_total st e :
  (endswith e.1 ".json" = true -> keys (lsh st) !! Indexer.doc_id_of e.1 = None) ->
  exists st', dedupe_step st e = Ok st' /\
    (keys (lsh st') = keys (lsh st) \/
     (endswith e.1 ".json" = true /\
      keys (lsh st') = <[Indexer.doc_id_of e.1 := band_keys (signature e.2)]> (keys (lsh st)))).
Proof.
  intros Hfresh. destruct e as [fname doc]. unfold Dedup.dedupe_step. cbv beta iota zeta.
  simpl in Hfresh. destruct (endswith fname ".json") eqn:Ej; [|eauto].
  case_bool_decide; [|eauto]. unfold Dedup.lsh_insert.
  rewrite bool_decide_false by (rewrite Hfresh by done; by intros []).
  simpl. eauto.
Qed.

(** The loop does not raise when the [.json] entries have distinct ids
    that are not keys yet. *)
Lemma dedupe_go_total st l :
  dedup_inv st -> NoDup (json_ids l) ->
  (forall e, e ∈ l -> endswith e.1 ".json" = true -> keys (lsh st) !! Indexer.doc_id_of e.1 = None) ->
  exists st', dedupe_go st l = Ok st'.
Proof.
  revert st. induction l as [|e l IH]; intros st Hinv Hnd Hfresh; simpl; [eauto|].
  destruct (dedupe_step_total st e) as (st1 & Hs & Hk); [apply Hfresh; set_solver|].
  rewrite Hs. simpl. rewrite json_ids_cons in Hnd. apply NoDup_app in Hnd as (Hnd1 & Hdis & Hnd).
  apply IH; [by destruct (dedupe_step_spec st e st1 Hinv Hs)|done|].
  intros e' He' Hj'. destruct Hk as [->|[Hj ->]]; [apply Hfresh; set_solver|].
  rewrite Hj in Hdis. rewrite lookup_insert_ne; [apply Hfresh; set_solver|].
  intros Heq. apply (Hdis (Indexer.doc_id_of e.1)); [set_solver|]. rewrite Heq. by apply json_ids_elem.
Qed.

(** [dedupe] returns, writing documents with distinct ids, when the
    [.json] entries of its listing have distinct ids. *)
Lemma dedupe_succeeds listing :
  NoDup (json_ids listing) -> exists out, dedupe listing = Ok out /\ NoDup (json_ids out).
Proof.
  intros Hnd. unfold Dedup.dedupe.
  destruct (dedupe_go_total _ listing dedup_inv_empty Hnd) as (st & Hgo);
    [intros; apply lookup_empty|].
  rewrite Hgo. simpl. eexists. split; [done|].
  destruct (dedupe_go_spec _ _ _ dedup_inv_empty Hgo) as (_ & (l' & Hl & Hs) & _).
  simpl in Hl. rewrite Hl. eapply sublist_NoDup; [exact Hnd|]. by apply json_ids_sublist.
Qed.

Lemma dedupe_written_no_collision listing out :
  dedupe listing = Ok out ->
  forall i j e1 e2, (i < j)%nat -> out !! i = Some e1 -> out !! j = Some e2 ->
    ~ collide (signature e1.2) (signature e2.2).
Proof.
  unfold Dedup.dedupe. destruct (dedupe_go _ _) as [st|] eqn:Hgo; simpl; [|done].
  intros [= <-]. by destruct (dedupe_go_spec _ _ _ dedup_inv_empty Hgo) as ((_ & _ & _ & ?) & _).
Qed.

(** [dedupe] writes a subsequence of its listing. *)
Lemma dedupe_out_sublist listing out : dedupe listing = Ok out -> out `sublist_of` listing.
Proof.
  unfold Dedup.dedupe. destruct (dedupe_go _ _) as [st|] eqn:Hgo; simpl; [|done].
  intros [= <-]. destruct (dedupe_go_spec _ _ _ dedup_inv_empty Hgo) as (_ & (l' & Hl & Hs) & _).
  simpl in Hl. by rewrite Hl.
Qed.

(** C28: [dedupe] writes a subsequence of the listing, and every [.json]
    document it drops shares a band with one it writes (the greedy
    clustering keeps a representative of every document). *)
Theorem dedupe_covers listing out :
  dedupe listing = Ok out ->
  out `sublist_of` listing /\
  forall e, e ∈ listing -> endswith e.1 ".json" = true ->
    e ∈ out \/ exists e', e' ∈ out /\ collide (signature e'.2) (signature e.2).
Proof.
  intros Hd. split; [by apply dedupe_out_sublist|]. revert Hd.
  unfold Dedup.dedupe. destruct (dedupe_go _ _) as [st|] eqn:Hgo; simpl; [|done].
  intros [= <-]. by destruct (dedupe_go_spec _ _ _ dedup_inv_empty Hgo) as (_ & _ & Hc).
Qed.

(** Of two documents with the same token set at most one is written
    (as soon as the index has one band). *)
Lemma dedupe_same_token_set listing out i j e1 e2 :
  (0 < bands)%nat -> dedupe listing = Ok out -> (i < j)%nat ->
  out !! i = Some e1 -> out !! j = Some e2 ->
  (list_to_set (tokens e1.2) : gset string) ≠ list_to_set (tokens e2.2).
Proof.
  intros Hb Hd Hij H1 H2 Heq. apply (dedupe_written_no_collision listing out Hd i j e1 e2 Hij H1 H2).
  exists 0%nat. split; [done|]. unfold Dedup.signature. by rewrite Heq.
Qed.

End DedupLoop.

(** ** The deduplication properties *)

Section DedupClaims.
Local Abbreviation sig := (signature demo_hash32 demo_perms).
Local Abbreviation demo_out := [("1.json", demo_doc "1" ["alpha"; "beta"; "gamma"]);
                                 ("3.json", demo_doc "3" ["delta"; "epsilon"; "zeta"])]%string.

(** One iteration of the loop of [dedupe] on a [.json] file: it
    skips a document colliding with one already written; otherwise it
    writes the document when its id is new and raises [ValueError] (the
    key already exists in [MinHashLSH]) when it is not. *)
Theorem dedupe_step_cases hash32 perms bands rows st f d :
  dedup_inv hash32 perms bands rows st -> endswith f ".json" = true ->
  ((exists e, e ∈ written st /\
     collide bands rows (signature hash32 perms e.2) (signature hash32 perms d)) ->
   dedupe_step hash32 perms bands rows st (f, d) = Ok st) /\
  ((forall e, e ∈ written st ->
     ~ collide bands rows (signature hash32 perms e.2) (signature hash32 perms d)) ->
   match keys (lsh st) !! Indexer.doc_id_of f with
   | Some _ => dedupe_step hash32 perms bands rows st (f, d) = Raise ValueError
   | None => exists l',
       dedupe_step hash32 perms bands rows st (f, d) = Ok (mkDState l' (written st ++ [(f, d)]))
   end).
Proof.
  intros Hinv Hj. unfold dedupe_step. cbv beta iota zeta. rewrite Hj. split.
  - intros (e & He & Hc). rewrite bool_decide_false; [done|].
    rewrite (query_collision _ _ _ _ st d Hinv). intros Hn. by apply (Hn e).
  - intros Hn. rewrite bool_decide_true by (by apply query_collision). unfold lsh_insert.
    destruct (keys (lsh st) !! _) eqn:E; simpl; eauto.
Qed.

Lemma dedupe_step_cases_witness :
  ((exists e, e ∈ written (mkDState (lsh_empty 4) []) /\
     collide 4 32 (sig e.2) (sig (demo_doc "1" ["alpha"]))) ->
   dedupe_step demo_hash32 demo_perms 4 32 (mkDState (lsh_empty 4) []) ("1.json", demo_doc "1" ["alpha"])
   = Ok (mkDState (lsh_empty 4) [])) /\
  ((forall e, e ∈ written (mkDState (lsh_empty 4) []) ->
     ~ collide 4 32 (sig e.2) (sig (demo_doc "1" ["alpha"]))) ->
   match keys (lsh (mkDState (lsh_empty 4) [])) !! Indexer.doc_id_of "1.json" with
   | Some _ => dedupe_step demo_hash32 demo_perms 4 32 (mkDState (lsh_empty 4) [])
                 ("1.json", demo_doc "1" ["alpha"]) = Raise ValueError
   | None => exists l',
       dedupe_step demo_hash32 demo_perms 4 32 (mkDState (lsh_empty 4) [])
         ("1.json", demo_doc "1" ["alpha"]) =
       Ok (mkDState l' (written (mkDState (lsh_empty 4) []) ++ [("1.json", demo_doc "1" ["alpha"])]))
   end).
Proof. exact (dedupe_step_cases demo_hash32 demo_perms 4 32 _ "1.json" _ (dedup_inv_empty _ _ _ _) eq_refl). Defined.

(** C27: the documents [dedupe] writes out never share an LSH band
    pairwise. *)
Theorem dedupe_pairwise hash32 perms bands rows listing out :
  dedupe hash32 perms bands rows listing = Ok out ->
  forall i j e1 e2, (i < j)%nat -> out !! i = Some e1 -> out !! j = Some e2 ->
    ~ collide bands rows (signature hash32 perms e1.2) (signature hash32 perms e2.2).
Proof. apply dedupe_written_no_collision. Qed.

Lemma dedupe_pairwise_witness :
  ~ collide 4 32 (sig (demo_doc "1" ["alpha"; "beta"; "gamma"]))
                 (sig (demo_doc "3" ["delta"; "epsilon"; "zeta"])).
Proof.
  refine (dedupe_pairwise demo_hash32 demo_perms 4 32 demo_dedupe_listing demo_out _ 0 1
           ("1.json", demo_doc "1" ["alpha"; "beta"; "gamma"])
           ("3.json", demo_doc "3" ["delta"; "epsilon"; "zeta"]) _ _ _).
  - vm_compute. reflexivity.
  - lia.
  - reflexivity.
  - reflexivity.
Defined.

Lemma dedupe_covers_witness :
  demo_out `sublist_of` demo_dedupe_listing /\
  forall e, e ∈ demo_dedupe_listing -> endswith e.1 ".json" = true ->
    e ∈ demo_out \/ exists e', e' ∈ demo_out /\ collide 4 32 (sig e'.2) (sig e.2).
Proof. apply dedupe_covers. vm_compute. reflexivity. Defined.

(** C35: two file names that [fname.replace('.json', '')] maps to one
    id, [h.json] and [h.json.json] for any [h] without a dot, break both
    stages that derive ids: [Indexer.build] indexes both under [h] and
    its index is not well formed, and [dedupe] raises [ValueError] for
    every pair of documents that do not collide, since the second id is
    already a key of the [MinHashLSH] index. *)
Theorem dedupe_id_clash hash32 perms bands rows h d1 d2 :
  no_dot h -> ~ collide bands rows (signature hash32 perms d1) (signature hash32 perms d2) ->
  Indexer.doc_id_of (h +:+ ".json") = h /\ Indexer.doc_id_of (h +:+ ".json.json") = h /\
  ~ InvertedIndex.wf (Indexer.build [(h +:+ ".json", d1); (h +:+ ".json.json", d2)]) /\
  dedupe hash32 perms bands rows [(h +:+ ".json", d1); (h +:+ ".json.json", d2)] = Raise ValueError.
Proof.
  intros Hh Hnc.
  assert (Indexer.doc_id_of (h +:+ ".json") = h) as E1 by (by apply str_replace_json_suffix).
  assert (Indexer.doc_id_of (h +:+ ".json.json") = h) as E2 by (by apply str_replace_json_json).
  split_and!; [done|done|by apply build_id_clash|].
  destruct (dedupe_step_cases hash32 perms bands rows (mkDState (lsh_empty bands) []) (h +:+ ".json") d1
              (dedup_inv_empty _ _ _ _) (endswith_append _ _)) as [_ H1].
  specialize (H1 ltac:(by intros e ?%elem_of_nil)). cbn [lsh keys lsh_empty] in H1.
  rewrite lookup_empty in H1. destruct H1 as [l1 H1]. cbn [written app] in H1.
  destruct (dedupe_step_spec hash32 perms bands rows _ _ _ (dedup_inv_empty _ _ _ _) H1)
    as [(Hwf & Hk & Hw & Hpw) _].
  destruct (dedupe_step_cases hash32 perms bands rows (mkDState l1 [(h +:+ ".json", d1)])
              (h +:+ ".json.json") d2 (conj Hwf (conj Hk (conj Hw Hpw))) (endswith_json_json h))
    as [_ H2].
  specialize (H2 ltac:(by intros e ->%list_elem_of_singleton)).
  cbn [lsh written] in H2, Hw. rewrite E2 in H2.
  pose proof (Hw (h +:+ ".json") d1 ltac:(set_solver)) as Hkey. rewrite E1 in Hkey.
  cbn [lsh] in Hkey. rewrite Hkey in H2.
  unfold dedupe. cbn [dedupe_go]. rewrite H1. cbn [result_bind]. cbn [dedupe_go]. by rewrite H2.
Qed.

Lemma dedupe_id_clash_witness :
  Indexer.doc_id_of ("x" +:+ ".json") = "x" /\ Indexer.doc_id_of ("x" +:+ ".json.json") = "x" /\
  ~ InvertedIndex.wf (Indexer.build [("x" +:+ ".json", demo_doc "1" ["alpha"; "beta"; "gamma"]);
                                     ("x" +:+ ".json.json", demo_doc "3" ["delta"; "epsilon"; "zeta"])]) /\
  dedupe demo_hash32 demo_perms 4 32
    [("x" +:+ ".json", demo_doc "1" ["alpha"; "beta"; "gamma"]);
     ("x" +:+ ".json.json", demo_doc "3" ["delta"; "epsilon"; "zeta"])] = Raise ValueError.
Proof.
  apply dedupe_id_clash.
  - intros c Hc. simpl in Hc. apply list_elem_of_singleton in Hc. by subst.
  - apply not_collide_check. vm_compute. reflexivity.
Defined.

(** C36: [dedupe] returns (no [ValueError] from [MinHashLSH.insert]) as
    soon as the [.json] file names of its listing give distinct ids, and
    the documents it writes then have distinct ids. *)
Theorem dedupe_total hash32 perms bands rows listing :
  NoDup (json_ids listing) ->
  exists out, dedupe hash32 perms bands rows listing = Ok out /\ NoDup (json_ids out).
Proof. apply dedupe_succeeds. Qed.

Lemma dedupe_total_witness :
  exists out, dedupe demo_hash32 demo_perms 4 32 demo_dedupe_listing = Ok out /\ NoDup (json_ids out).
Proof. apply dedupe_total. vm_compute. repeat constructor; set_solver. Defined.

End DedupClaims.
