(* ===== verification/Search.v ===== *)
(** * Search: the [/search] handler of [src/src/api.py] and the semantic
    and hybrid scorers of [src/src/ranker.py]

    [SemanticRanker.score] is the cosine similarity of the query's
    embedding (the external [SentenceTransformer.encode], a section
    variable) and the stored vector of the document, with numpy's
    behaviour: [KeyError] for a document without a vector, [ValueError]
    for vectors of different lengths, and NaN for a zero vector (0/0).
    [HybridRanker.score] is [alpha * bm25 + (1 - alpha) * semantic].
    Scores are [pyfloat]: a real number or NaN.

    [search] lowers and splits the query, filters the document table by
    [site], scores every remaining document, sorts the [(score, doc_id)]
    tuples with [list.sort(reverse=True)] under Python's comparison of
    tuples, floats and strings, keeps [candidates[:topK]] (Python slicing,
    negative [topK] included) and builds the hits.  The sort is modelled by
    a stable insertion sort; it is the result of CPython's sort whenever
    [<] is a strict total order on the candidates, which holds when no
    score is NaN, and every theorem on the order assumes that.  The module
    state of [api.py] (the index, [bm25] and the lazily created
    [semantic] and [hybrid]) is the record [Api]; [load_index] is the
    snapshot loading of lines 17-24, which accepts exactly the dicts
    [InvertedIndex.save] writes ([load_index_iff]). *)

From S2P Require Import Prelude Index Ranker.
From Stdlib Require Import Reals Lra.
From stdpp Require Import sorting.

(** ** Python floats and comparisons *)

(** A Python float: a real number, or NaN. *)
Inductive pyfloat :=
  | Num (r : R)
  | NaN.

#[export] Instance R_eq_decision : EqDecision R := Req_EM_T.
#[export] Instance R_lt_decision (x y : R) : Decision (x < y)%R := Rlt_dec x y.

(** Python's [<] and [==] on a type, as the sort and tuple comparison use
    them. *)
Class PyCmp (A : Type) := {
  py_lt : A -> A -> bool;
  py_eq : A -> A -> bool
}.

(** Float comparison: every comparison with NaN is false. *)
#[export] Instance pyfloat_cmp : PyCmp pyfloat := {|
  py_lt x y := match x, y with Num a, Num b => bool_decide (a < b)%R | _, _ => false end;
  py_eq x y := match x, y with Num a, Num b => bool_decide (a = b) | _, _ => false end
|}.

(** String comparison: lexicographic on code points, a proper prefix
    being smaller. *)
Fixpoint str_lt (s t : string) : bool :=
  match s, t with
  | EmptyString, String _ _ => true
  | String a s', String b t' =>
      let x := Ascii.nat_of_ascii a in
      let y := Ascii.nat_of_ascii b in
      if (x <? y)%nat then true else if (y <? x)%nat then false else str_lt s' t'
  | _, _ => false
  end.

#[export] Instance string_cmp : PyCmp string := {|
  py_lt := str_lt;
  py_eq s t := bool_decide (s = t)
|}.

(** Tuple comparison: the first position whose items are not [==]
    decides with [<]; equal tuples are not smaller. *)
#[export] Instance pair_cmp {A B} `{PyCmp A} `{PyCmp B} : PyCmp (A * B) := {|
  py_lt p q :=
    if py_eq p.1 q.1 then (if py_eq p.2 q.2 then false else py_lt p.2 q.2)
    else py_lt p.1 q.1;
  py_eq p q := py_eq p.1 q.1 && py_eq p.2 q.2
|}.

(** ** [list.sort] *)

Section Sort.
Context {A : Type} `{PyCmp A}.

(** Insert [x] after every element it is not smaller than. *)
Fixpoint insert_sorted (x : A) (l : list A) : list A :=
  match l with
  | [] => [x]
  | y :: l' => if py_lt x y then x :: l else y :: insert_sorted x l'
  end.

(** [l.sort()]: a stable sort by [<]. *)
Definition sort_asc (l : list A) : list A := foldl (fun acc x => insert_sorted x acc) [] l.

(** [l.sort(reverse=True)]: CPython reverses the list, sorts it stably
    and reverses the result. *)
Definition sort_reverse (l : list A) : list A := rev (sort_asc (rev l)).

End Sort.

(** [l[:k]] for an integer [k]. *)
Definition py_slice_upto {A} (l : list A) (k : Z) : list A :=
  if (0 <=? k)%Z then take (Z.to_nat k) l
  else take (Z.to_nat (Z.of_nat (length l) + k)) l.

(** [f(x) for x in l] where [f] may raise: the first exception wins. *)
Fixpoint result_map {A B} (f : A -> result B) (l : list A) : result (list B) :=
  match l with
  | [] => Ok []
  | x :: l' => y <- f x ;; ys <- result_map f l' ;; Ok (y :: ys)
  end.

(** ** The semantic and hybrid scorers *)

Local Open Scope R_scope.

(** [np.dot] and [np.linalg.norm] on vectors of reals. *)
Definition dot (u v : list R) : R := Rsum (zip_with Rmult u v).
Definition norm (u : list R) : R := sqrt (dot u u).

(** [np.dot(q, d) / (norm(q) * norm(d))]: [ValueError] for vectors of
    different lengths, NaN when a vector is zero (then [0/0]). *)
Definition cosine (u v : list R) : result pyfloat :=
  if bool_decide (length u = length v) then
    let den := norm u * norm v in
    if Req_dec_T den 0 then Ok NaN else Ok (Num (dot u v / den))
  else Raise ValueError.

Record SemanticRanker := mkSemantic {
  sem_index : InvertedIndex.t;
  embeddings : gmap string (list R)
}.

Record HybridRanker := mkHybrid {
  hy_bm25 : BM25.t;
  hy_semantic : SemanticRanker;
  alpha : R
}.

Record SearchRequest := mkRequest {
  query : string;
  topK : Z;
  useSemantic : bool;
  site : option string;
  dateRange : option string
}.

Record Hit := mkHit {
  hit_title : option string;
  hit_url : string;
  snippet : string;
  hit_score : pyfloat;
  highlights : list string
}.

(** The module state of [api.py]: the index and [bm25] built at import,
    and [semantic] and [hybrid], set together by [get_semantic]. *)
Record Api := mkApi {
  api_index : InvertedIndex.t;
  bm25 : BM25.t;
  sem_hybrid : option (SemanticRanker * HybridRanker)
}.

Section Handlers.
(** [SentenceTransformer('all-MiniLM-L6-v2').encode]. *)
Variable embed : string -> list R.
(** The contents of [data/embeddings.pkl]. *)
Variable stored_embeddings : gmap string (list R).

(** [SemanticRanker.score(query, doc_id)], lines 39-42. *)
Definition semantic_score (s : SemanticRanker) (text doc_id : string) : result pyfloat :=
  let q_vec := embed text in
  match embeddings s !! doc_id with
  | None => Raise KeyError
  | Some d_vec => cosine q_vec d_vec
  end.

(** [HybridRanker.score(query, doc_id)], lines 50-53; NaN absorbs the
    sum. *)
Definition hybrid_score (h : HybridRanker) (q : list string) (doc_id : string) : result pyfloat :=
  b <- BM25.score (hy_bm25 h) q doc_id ;;
  s <- semantic_score (hy_semantic h) (String.concat " " q) doc_id ;;
  Ok (match s with
      | Num x => Num (alpha h * b + (1 - alpha h) * x)
      | NaN => NaN
      end).

(** The module body after the index is loaded, lines 19-28: the
    [InvertedIndex] [index], [bm25 = BM25(index)], and no semantic
    ranker yet. *)
Definition api_init (I : InvertedIndex.t) : Api := mkApi I (BM25.default I) None.

(** Lines 17-24: the dict [pickle.load] reads from [data/index.pkl],
    assigned key by key to a fresh [InvertedIndex()] exactly as
    [InvertedIndex.load] does; a missing key raises [KeyError], and the
    module (so the server) fails to import. *)
Definition load_index (data : InvertedIndex.Pickled) : result InvertedIndex.t :=
  match InvertedIndex.load InvertedIndex.empty data with
  | (ix, None) => Ok ix
  | (_, Some e) => Raise e
  end.

(** The module body, lines 17-28. *)
Definition api_start (data : InvertedIndex.Pickled) : result Api :=
  ix <- load_index data ;; Ok (api_init ix).

(** [get_semantic()], lines 30-35. *)
Definition get_semantic (a : Api) : Api * HybridRanker :=
  match sem_hybrid a with
  | Some (_, h) => (a, h)
  | None =>
      let s := mkSemantic (api_index a) stored_embeddings in
      let h := mkHybrid (bm25 a) s 0.7 in
      (mkApi (api_index a) (bm25 a) (Some (s, h)), h)
  end.

(** The site test of line 44: [not (req.site and req.site not in url)];
    the document is only looked up when [site] is a non-empty string. *)
Definition keep (I : InvertedIndex.t) (site : option string) (doc_id : string) : result bool :=
  match site with
  | Some s =>
      if bool_decide (s = ""%string) then Ok true
      else match InvertedIndex.doc_table I !! doc_id with
           | None => Raise KeyError
           | Some doc => Ok (str_contains (url doc) s)
           end
  | None => Ok true
  end.

(** The loop of lines 43-47 over the document ids, in table order. *)
Fixpoint candidates_of (I : InvertedIndex.t) (site : option string)
    (score : string -> result pyfloat) (ids : list string) : result (list (pyfloat * string)) :=
  match ids with
  | [] => Ok []
  | d :: ids' =>
      k <- keep I site d ;;
      if k then
        s <- score d ;;
        rest <- candidates_of I site score ids' ;;
        Ok ((s, d) :: rest)
      else candidates_of I site score ids'
  end.

(** One hit, lines 51-60. *)
Definition make_hit (I : InvertedIndex.t) (q : list string) (c : pyfloat * string) : result Hit :=
  match InvertedIndex.doc_table I !! c.2 with
  | None => Raise KeyError
  | Some doc =>
      Ok (mkHit (title doc) (url doc) (String.substring 0 300 (body doc)) c.1
                (filter (fun t => t ∈ tokens doc) q))
  end.

(** The candidates in the order of [candidates.sort(reverse=True)],
    truncated to [topK]. *)
Definition ranked (cands : list (pyfloat * string)) (k : Z) : list (pyfloat * string) :=
  py_slice_upto (sort_reverse cands) k.

(** [req.query.lower().split()], line 39. *)
Definition query_tokens (req : SearchRequest) : list string := py_split (py_lower (query req)).

(** Lines 41-42 and the scorer of line 46: [get_semantic()] runs before
    the loop when [useSemantic] holds. *)
Definition scorer (a : Api) (req : SearchRequest) : Api * (string -> result pyfloat) :=
  let q := query_tokens req in
  if useSemantic req then
    let '(a', h) := get_semantic a in (a', hybrid_score h q)
  else (a, fun d => r <- BM25.score (bm25 a) q d ;; Ok (Num r)).

(** Lines 43-50 for a scorer: the [(score, doc_id)] tuples
    [candidates[:topK]] the hits are built from. *)
Definition ranked_by (I : InvertedIndex.t) (site : option string)
    (score : string -> result pyfloat) (ids : list string) (k : Z)
    : result (list (pyfloat * string)) :=
  cands <- candidates_of I site score ids ;; Ok (ranked cands k).

(** Lines 39-50 over the document ids [ids] in the iteration order of
    [index.doc_table]. *)
Definition ranked_in (ids : list string) (a : Api) (req : SearchRequest)
    : Api * result (list (pyfloat * string)) :=
  let '(a', score) := scorer a req in
  (a', ranked_by (api_index a) (site req) score ids (topK req)).

(** [search(req)], lines 38-61. *)
Definition search_in (ids : list string) (a : Api) (req : SearchRequest) : Api * result (list Hit) :=
  let '(a', r) := ranked_in ids a req in
  (a', top <- r ;; result_map (make_hit (api_index a) (query_tokens req)) top).

(** [search(req)] over the document table. *)
Definition search (a : Api) (req : SearchRequest) : Api * result (list Hit) :=
  search_in (map_to_list (InvertedIndex.doc_table (api_index a))).*1 a req.

End Handlers.

(** ** The sort: a permutation, sorted on a strict total order *)

Lemma StronglySorted_lookup {B} (Rel : B -> B -> Prop) l i j x y :
  StronglySorted Rel l -> (i < j)%nat -> l !! i = Some x -> l !! j = Some y -> Rel x y.
Proof.
  intros Hs. revert i j. induction Hs as [|z l _ IH Hz]; intros i j Hij Hi Hj; [done|].
  destruct i as [|i], j as [|j]; simpl in *; [lia| |lia|].
  - injection Hi as <-. rewrite Forall_forall in Hz. apply Hz. by eapply list_elem_of_lookup_2.
  - apply (IH i j); [lia|done|done].
Qed.

Lemma StronglySorted_rev {B} (Rel : B -> B -> Prop) l :
  StronglySorted Rel l -> StronglySorted (fun a b => Rel b a) (rev l).
Proof.
  induction 1 as [|x l _ IH Hx]; simpl; [constructor|].
  apply StronglySorted_app_2; [|done|repeat constructor].
  intros a b Ha ->%list_elem_of_singleton. rewrite Forall_forall in Hx. apply Hx.
  by apply list_elem_of_In, in_rev, list_elem_of_In.
Qed.

Section SortFacts.
Context {A : Type} `{PyCmp A}.

Lemma insert_sorted_perm x l : insert_sorted x l ≡ₚ x :: l.
Proof.
  induction l as [|y l IH]; simpl; [done|].
  destruct (py_lt x y); [done|]. rewrite IH. constructor.
Qed.

Lemma sort_asc_perm l : sort_asc l ≡ₚ l.
Proof.
  unfold sort_asc.
  cut (forall acc, foldl (fun acc x => insert_sorted x acc) acc l ≡ₚ l ++ acc).
  { intros Hc. by rewrite Hc, app_nil_r. }
  induction l as [|x l IH]; intros acc; simpl; [done|].
  rewrite IH, insert_sorted_perm. symmetry. apply Permutation_middle.
Qed.

Lemma sort_reverse_perm l : sort_reverse l ≡ₚ l.
Proof. unfold sort_reverse. by rewrite <- Permutation_rev, sort_asc_perm, <- Permutation_rev. Qed.

(** [<] is a strict total order on the elements satisfying [P]. *)
Variable P : A -> Prop.
Hypothesis lt_irrefl : forall x, P x -> py_lt x x = false.
Hypothesis lt_trans : forall x y z, P x -> P y -> P z ->
  py_lt x y = true -> py_lt y z = true -> py_lt x z = true.
Hypothesis lt_total : forall x y, P x -> P y -> x <> y -> py_lt x y = true \/ py_lt y x = true.

Local Abbreviation lt := (fun a b => py_lt a b = true).

Lemma insert_sorted_sorted x l :
  P x -> Forall P l -> x ∉ l -> StronglySorted lt l -> StronglySorted lt (insert_sorted x l).
Proof.
  intros Hx. induction l as [|y l IH]; intros Hl Hnin Hs; simpl; [repeat constructor|].
  apply Forall_cons in Hl as [Hy Hl]. apply StronglySorted_cons in Hs as [Hyl Hs].
  pose proof Hl as Hl'. pose proof Hyl as Hyl'. rewrite Forall_forall in Hyl', Hl'.
  destruct (py_lt x y) eqn:Exy.
  - apply StronglySorted_cons. split; [|by apply StronglySorted_cons].
    apply Forall_forall. intros z [->|Hz]%elem_of_cons; [done|]. eauto.
  - assert (py_lt y x = true) as Eyx.
    { destruct (lt_total x y) as [?|?]; [done|done|set_solver|congruence|done]. }
    apply StronglySorted_cons. split; [|apply IH; [done|set_solver|done]].
    apply Forall_forall. intros z Hz. rewrite insert_sorted_perm in Hz.
    apply elem_of_cons in Hz as [->|Hz]; eauto.
Qed.

Lemma sort_asc_sorted l : Forall P l -> NoDup l -> StronglySorted lt (sort_asc l).
Proof.
  unfold sort_asc.
  cut (forall acc, Forall P (l ++ acc) -> NoDup (l ++ acc) -> StronglySorted lt acc ->
         StronglySorted lt (foldl (fun acc x => insert_sorted x acc) acc l)).
  { intros Hc Hl Hnd. apply Hc; rewrite ?app_nil_r; [done|done|constructor]. }
  induction l as [|x l IH]; intros acc Hl Hnd Hs; simpl; [done|].
  apply Forall_cons in Hl as [Hx Hl]. apply NoDup_cons in Hnd as [Hnin Hnd].
  apply Forall_app in Hl as [Hl Hacc].
  apply IH.
  - rewrite insert_sorted_perm. apply Forall_app. by repeat constructor.
  - rewrite insert_sorted_perm, <- Permutation_middle. by constructor.
  - apply insert_sorted_sorted; [done|done|set_solver|done].
Qed.

Lemma sort_reverse_sorted l :
  Forall P l -> NoDup l -> StronglySorted (fun a b => lt b a) (sort_reverse l).
Proof.
  intros Hl Hnd. apply StronglySorted_rev, sort_asc_sorted.
  - by apply Forall_rev.
  - by rewrite <- Permutation_rev.
Qed.

(** Sorting is independent of the initial order. *)
Lemma sort_reverse_perm_eq l l' :
  Forall P l -> NoDup l -> l ≡ₚ l' -> sort_reverse l = sort_reverse l'.
Proof.
  intros Hl Hnd Hp.
  assert (Forall P l') as Hl' by (by rewrite <- Hp).
  assert (NoDup l') as Hnd' by (by rewrite <- Hp).
  apply (StronglySorted_unique_strong (fun a b => lt b a)).
  - intros x y Hx Hy Hyx Hxy. cbv beta in Hyx, Hxy.
    rewrite sort_reverse_perm in Hx, Hy. rewrite Forall_forall in Hl, Hl'.
    pose proof (lt_trans x y x (Hl x Hx) (Hl' y Hy) (Hl x Hx) Hxy Hyx) as Hxx.
    by rewrite lt_irrefl in Hxx by auto.
  - by apply sort_reverse_sorted.
  - by apply sort_reverse_sorted.
  - by rewrite !sort_reverse_perm.
Qed.

End SortFacts.

(** ** The order of the candidates *)

Lemma str_lt_irrefl s : str_lt s s = false.
Proof. induction s as [|a s IH]; simpl; [done|]. by rewrite Nat.ltb_irrefl. Qed.

Lemma str_lt_trans s t u : str_lt s t = true -> str_lt t u = true -> str_lt s u = true.
Proof.
  revert t u. induction s as [|a s IH]; intros [|b t] [|c u]; simpl; try done.
  destruct (Nat.ltb_spec (Ascii.nat_of_ascii a) (Ascii.nat_of_ascii b)),
    (Nat.ltb_spec (Ascii.nat_of_ascii b) (Ascii.nat_of_ascii a)),
    (Nat.ltb_spec (Ascii.nat_of_ascii b) (Ascii.nat_of_ascii c)),
    (Nat.ltb_spec (Ascii.nat_of_ascii c) (Ascii.nat_of_ascii b)),
    (Nat.ltb_spec (Ascii.nat_of_ascii a) (Ascii.nat_of_ascii c)),
    (Nat.ltb_spec (Ascii.nat_of_ascii c) (Ascii.nat_of_ascii a)); try lia; eauto.
Qed.

Lemma ascii_code_inj a b : Ascii.nat_of_ascii a = Ascii.nat_of_ascii b -> a = b.
Proof.
  intros E. rewrite <- (Ascii.ascii_nat_embedding a), <- (Ascii.ascii_nat_embedding b). by f_equal.
Qed.

Lemma str_lt_total s t : s <> t -> str_lt s t = true \/ str_lt t s = true.
Proof.
  revert t. induction s as [|a s IH]; intros [|b t] Hne; simpl; auto.
  destruct (Nat.ltb_spec (Ascii.nat_of_ascii a) (Ascii.nat_of_ascii b)),
    (Nat.ltb_spec (Ascii.nat_of_ascii b) (Ascii.nat_of_ascii a)); auto; try lia.
  assert (a = b) as <- by (apply ascii_code_inj; lia).
  apply IH. congruence.
Qed.

(** A candidate [(score, doc_id)] whose score is a number. *)
Definition no_nan (c : pyfloat * string) : Prop := c.1 <> NaN.

Lemma cand_lt_num r1 r2 d1 d2 :
  py_lt (Num r1, d1) (Num r2, d2) = true <-> (r1 < r2)%R \/ (r1 = r2 /\ str_lt d1 d2 = true).
Proof.
  simpl. case_bool_decide as Hr; [subst; case_bool_decide as Hd|case_bool_decide as Hlt].
  - subst. rewrite str_lt_irrefl. split; [done|]. intros [?|[_ ?]]; [lra|done].
  - split; [auto|]. intros [?|[_ ?]]; [lra|done].
  - split; [auto|]. intros [?|[? _]]; [done|congruence].
  - split; [done|]. intros [?|[? _]]; [done|congruence].
Qed.

Lemma no_nan_num c : no_nan c -> exists r, c.1 = Num r.
Proof. destruct c as [[r|] d]; [eauto|done]. Qed.

Lemma cand_lt_irrefl c : no_nan c -> py_lt c c = false.
Proof.
  intros (r & Hr)%no_nan_num. destruct c as [s d]. simpl in Hr. subst.
  destruct (py_lt (Num r, d) (Num r, d)) eqn:E; [|done].
  apply cand_lt_num in E as [?|[_ ?]]; [lra|]. by rewrite str_lt_irrefl in *.
Qed.

Lemma cand_lt_trans c1 c2 c3 : no_nan c1 -> no_nan c2 -> no_nan c3 ->
  py_lt c1 c2 = true -> py_lt c2 c3 = true -> py_lt c1 c3 = true.
Proof.
  intros (r1 & H1)%no_nan_num (r2 & H2)%no_nan_num (r3 & H3)%no_nan_num.
  destruct c1, c2, c3. simpl in H1, H2, H3. subst. rewrite !cand_lt_num.
  intros [?|[-> ?]] [?|[-> ?]]; [left; lra|left; lra|left; lra|eauto using str_lt_trans].
Qed.

Lemma cand_lt_total c1 c2 : no_nan c1 -> no_nan c2 -> c1 <> c2 ->
  py_lt c1 c2 = true \/ py_lt c2 c1 = true.
Proof.
  intros (r1 & H1)%no_nan_num (r2 & H2)%no_nan_num Hne.
  destruct c1 as [s1 d1], c2 as [s2 d2]. simpl in H1, H2. subst. rewrite !cand_lt_num.
  destruct (Rtotal_order r1 r2) as [?|[->|?]]; auto.
  destruct (str_lt_total d1 d2); [congruence|auto|auto].
Qed.

Lemma cands_sorted cands :
  Forall no_nan cands -> NoDup cands ->
  StronglySorted (fun a b => py_lt b a = true) (sort_reverse cands).
Proof. apply sort_reverse_sorted; eauto using cand_lt_irrefl, cand_lt_trans, cand_lt_total. Qed.

Lemma cands_sort_perm_eq cands cands' :
  Forall no_nan cands -> NoDup cands -> cands ≡ₚ cands' -> sort_reverse cands = sort_reverse cands'.
Proof. apply sort_reverse_perm_eq; eauto using cand_lt_irrefl, cand_lt_trans, cand_lt_total. Qed.

(** ** The candidates, the slice and the hits *)

Lemma result_map_ok {A B} (f : A -> result B) l l' :
  result_map f l = Ok l' -> forall y, y ∈ l' -> exists x, x ∈ l /\ f x = Ok y.
Proof.
  revert l'. induction l as [|x l IH]; intros l' Hl y Hy; simpl in Hl.
  - injection Hl as <-. set_solver.
  - destruct (f x) as [y0|] eqn:Ef; [|done]. simpl in Hl.
    destruct (result_map f l) as [l0|]; [|done]. injection Hl as <-.
    apply elem_of_cons in Hy as [->|Hy]; [exists x; set_solver|].
    destruct (IH l0 eq_refl y Hy) as (x' & ? & ?). exists x'. set_solver.
Qed.

Lemma result_map_raise {A B} (f : A -> result B) l e :
  result_map f l = Raise e -> exists x, x ∈ l /\ f x = Raise e.
Proof.
  induction l as [|x l IH]; simpl; [done|].
  destruct (f x) as [y|e'] eqn:Ef; simpl; [|intros [= <-]; exists x; set_solver].
  destruct (result_map f l) as [l0|e']; simpl; [done|].
  intros [= <-]. destruct (IH eq_refl) as (x' & ? & ?). exists x'. set_solver.
Qed.

(** [load] of a snapshot overwrites every attribute; [api.py]'s load
    succeeds exactly on snapshots. *)
Lemma load_save J I : InvertedIndex.load J (InvertedIndex.save I) = (I, None).
Proof. by destruct I. Qed.

Lemma load_index_iff data I : load_index data = Ok I <-> data = InvertedIndex.save I.
Proof.
  unfold load_index, InvertedIndex.load, InvertedIndex.save.
  destruct data as [[ix|] [st|] [tf|] [tb|] [n|]]; simpl; split; intros H; simplify_eq; try done.
  by destruct I.
Qed.

Lemma py_slice_upto_length {A} (l : list A) k :
  length (py_slice_upto l k) =
  if (0 <=? k)%Z then Nat.min (Z.to_nat k) (length l)
  else Z.to_nat (Z.of_nat (length l) + k).
Proof. unfold py_slice_upto. destruct (0 <=? k)%Z eqn:E; rewrite length_take; lia. Qed.

Section Candidates.
Variable I : InvertedIndex.t.
Variable site : option string.
Variable score : string -> result pyfloat.
Local Abbreviation cands_of := (candidates_of I site score).

Lemma candidates_of_cons d ids c :
  cands_of (d :: ids) = Ok c <->
  exists c0, cands_of ids = Ok c0 /\
    ((keep I site d = Ok false /\ c = c0) \/
     exists s, keep I site d = Ok true /\ score d = Ok s /\ c = (s, d) :: c0).
Proof.
  simpl. destruct (keep I site d) as [[|]|e]; simpl;
    [destruct (score d) as [s|e]; simpl| |];
    destruct (cands_of ids) as [c0|e']; simpl; naive_solver.
Qed.

(** The candidates are the kept documents with their scores, in the
    order of [ids]. *)
Lemma candidates_of_spec ids c :
  cands_of ids = Ok c ->
  (forall x, x ∈ c -> x.2 ∈ ids /\ keep I site x.2 = Ok true /\ score x.2 = Ok x.1) /\
  (forall d, d ∈ ids -> keep I site d = Ok true -> exists s, score d = Ok s /\ (s, d) ∈ c) /\
  c.*2 `sublist_of` ids /\
  length c = length (filter (fun d => keep I site d = Ok true) ids).
Proof.
  revert c. induction ids as [|d ids IH]; intros c Hc.
  { injection Hc as <-. split_and!; [set_solver|set_solver|done|done]. }
  apply candidates_of_cons in Hc as (c0 & Hc0 & Hd).
  destruct (IH c0 Hc0) as (Hin & Hcov & Hsub & Hlen).
  rewrite filter_cons.
  destruct Hd as [[Hk ->]|(s & Hk & Hs & ->)].
  - rewrite decide_False by congruence. split_and!; [| |by apply sublist_cons|done].
    + intros x Hx. destruct (Hin x Hx) as (? & ? & ?). set_solver.
    + intros d' [->|Hd']%elem_of_cons Hk'; [congruence|].
      destruct (Hcov d' Hd' Hk') as (s & ? & ?). eauto.
  - rewrite decide_True by done. split_and!; [| |simpl; by apply sublist_skip|simpl; by f_equal].
    + intros x [->|Hx]%elem_of_cons; [simpl; set_solver|].
      destruct (Hin x Hx) as (? & ? & ?). set_solver.
    + intros d' [->|Hd']%elem_of_cons Hk'; [exists s; set_solver|].
      destruct (Hcov d' Hd' Hk') as (s' & ? & ?). exists s'. set_solver.
Qed.

Lemma candidates_of_raise ids e :
  cands_of ids = Raise e -> exists d, d ∈ ids /\ (keep I site d = Raise e \/ score d = Raise e).
Proof.
  induction ids as [|d ids IH]; simpl; [done|].
  destruct (keep I site d) as [[|]|e'] eqn:Hk; simpl.
  - destruct (score d) as [s|e'] eqn:Hs; simpl; [|intros [= <-]; exists d; set_solver].
    destruct (cands_of ids) as [c0|e'] eqn:Hc; simpl; [done|].
    intros [= <-]. destruct (IH eq_refl) as (d' & ? & ?). exists d'. set_solver.
  - intros (d' & ? & ?)%IH. exists d'. set_solver.
  - intros [= <-]. exists d. set_solver.
Qed.

Lemma candidates_of_nodup ids c : NoDup ids -> cands_of ids = Ok c -> NoDup c.
Proof.
  intros Hnd (_ & _ & Hsub & _)%candidates_of_spec.
  apply (NoDup_fmap_1 snd). by eapply sublist_NoDup.
Qed.

Lemma candidates_of_no_nan ids c :
  (forall d, d ∈ ids -> score d <> Ok NaN) -> cands_of ids = Ok c -> Forall no_nan c.
Proof.
  intros Hnan (Hin & _)%candidates_of_spec. apply Forall_forall.
  intros [s d] Hx Hs. simpl in Hs. subst. destruct (Hin _ Hx) as (Hd & _ & Hsc). by apply (Hnan d).
Qed.

(** The loop does not depend on the iteration order of the table, up to
    the order of the candidates. *)
Lemma candidates_of_perm ids ids' c :
  ids ≡ₚ ids' -> cands_of ids = Ok c -> exists c', cands_of ids' = Ok c' /\ c' ≡ₚ c.
Proof.
  intros Hp. revert c. induction Hp as [|d l l' _ IH|d1 d2 l|l l' l'' _ IH1 _ IH2]; intros c Hc.
  - eauto.
  - apply candidates_of_cons in Hc as (c0 & Hc0 & Hd).
    destruct (IH c0 Hc0) as (c0' & Hc0' & Hp0).
    destruct Hd as [[Hk ->]|(s & Hk & Hs & ->)].
    + exists c0'. split; [|done]. apply candidates_of_cons. eauto.
    + exists ((s, d) :: c0'). split; [|by constructor]. apply candidates_of_cons. eauto 10.
  - revert Hc. simpl.
    destruct (keep I site d1) as [[|]|], (keep I site d2) as [[|]|]; simpl;
      destruct (score d1), (score d2), (cands_of l); simpl; intros Hc; try discriminate;
      injection Hc as <-; eexists; (split; [reflexivity|]); by try constructor.
  - destruct (IH1 c Hc) as (c' & Hc' & Hp').
    destruct (IH2 c' Hc') as (c'' & Hc'' & Hp''). exists c''. split; [done|]. by rewrite Hp''.
Qed.

End Candidates.

(** ** Facts of the handler *)

Lemma elem_of_py_slice_upto {A} (x : A) l k : x ∈ py_slice_upto l k -> x ∈ l.
Proof.
  unfold py_slice_upto. intros Hx. destruct (0 <=? k)%Z;
    apply list_elem_of_lookup in Hx as (i & (Hi & _)%lookup_take_Some);
    by eapply list_elem_of_lookup_2.
Qed.

Lemma StronglySorted_take {B} (Rel : B -> B -> Prop) (L : list B) n :
  StronglySorted Rel L -> StronglySorted Rel (take n L).
Proof. rewrite <- (take_drop n L) at 1. apply StronglySorted_app_1_l. Qed.

(** In a sorted list, an element outside the first [n] comes after all
    of them. *)
Lemma take_sorted_top {B} (Rel : B -> B -> Prop) (L : list B) n x :
  StronglySorted Rel L -> x ∈ L ->
  x ∈ take n L \/ (length (take n L) = n /\ forall c, c ∈ take n L -> Rel c x).
Proof.
  intros Hs (j & Hj)%list_elem_of_lookup.
  destruct (decide (j < n)%nat) as [Hjn|Hjn].
  - left. apply list_elem_of_lookup. exists j. by rewrite lookup_take_lt.
  - right. pose proof (lookup_lt_Some _ _ _ Hj). split; [rewrite length_take; lia|].
    intros c (i & (Hi & Hin)%lookup_take_Some)%list_elem_of_lookup.
    apply (StronglySorted_lookup Rel L i j); [done|lia|done|done].
Qed.

Lemma ranked_by_ok I site score ids k top :
  ranked_by I site score ids k = Ok top ->
  exists cands, candidates_of I site score ids = Ok cands /\
    top = py_slice_upto (sort_reverse cands) k.
Proof.
  unfold ranked_by. destruct (candidates_of _ _ _ _) as [c|]; simpl; [|done].
  intros [= <-]. eauto.
Qed.

Lemma search_in_ok embed E ids a req a' hits :
  search_in embed E ids a req = (a', Ok hits) ->
  exists top, ranked_by (api_index a) (site req) (scorer embed E a req).2 ids (topK req) = Ok top /\
    result_map (make_hit (api_index a) (query_tokens req)) top = Ok hits.
Proof.
  unfold search_in, ranked_in. destruct (scorer embed E a req) as [a0 sc]. simpl.
  destruct (ranked_by _ _ _ _ _) as [top|]; simpl; [|done]. intros [= _ Hh]. eauto.
Qed.

Lemma bm25_scorer_no_nan embed E a req d :
  useSemantic req = false -> (scorer embed E a req).2 d <> Ok NaN.
Proof.
  intros Hs. unfold scorer. rewrite Hs. simpl.
  destruct (BM25.score _ _ _); simpl; congruence.
Qed.

Lemma dot_zero_r u v : Forall (fun x => x = 0%R) v -> dot u v = 0%R.
Proof.
  unfold dot, Rsum. intros Hv.
  cut (forall acc, fold_left Rplus (zip_with Rmult u v) acc = acc); [auto|].
  revert u. induction Hv as [|x v Hx _ IH]; intros [|y u] acc; simpl; try done.
  rewrite IH, Hx. lra.
Qed.

(** ** The search properties *)

Section SearchClaims.

(** C29: the ranking of [search] is a top-K: when no score is NaN and
    [topK >= 0], the tuples kept are sorted by decreasing
    [(score, doc_id)], are kept documents with their scores, and every
    kept document left out comes after all of them, the result having
    then exactly [topK] entries. *)
Theorem ranked_top_k I site score ids k top :
  NoDup ids -> (0 <= k)%Z -> (forall d, d ∈ ids -> score d <> Ok NaN) ->
  ranked_by I site score ids k = Ok top ->
  StronglySorted (fun x y => py_lt y x = true) top /\
  (forall c, c ∈ top -> c.2 ∈ ids /\ keep I site c.2 = Ok true /\ score c.2 = Ok c.1) /\
  (forall d, d ∈ ids -> keep I site d = Ok true ->
     exists s, score d = Ok s /\
       ((s, d) ∈ top \/
        (length top = Z.to_nat k /\ forall c, c ∈ top -> py_lt (s, d) c = true))).
Proof.
  intros Hnd Hk Hnan (cands & Hc & ->)%ranked_by_ok.
  unfold py_slice_upto. rewrite (proj2 (Z.leb_le 0 k) Hk).
  pose proof (cands_sorted cands (candidates_of_no_nan _ _ _ _ _ Hnan Hc)
                (candidates_of_nodup _ _ _ _ _ Hnd Hc)) as Hs.
  destruct (candidates_of_spec _ _ _ _ _ Hc) as (Hin & Hcov & _).
  split_and!; [by apply StronglySorted_take| |].
  - intros x (i & (Hi & _)%lookup_take_Some)%list_elem_of_lookup.
    apply Hin. rewrite <- (sort_reverse_perm cands). by eapply list_elem_of_lookup_2.
  - intros d Hd Hkd. destruct (Hcov d Hd Hkd) as (s & Hsd & Hsc).
    exists s. split; [done|].
    apply (take_sorted_top (fun a b => py_lt b a = true)); [done|]. by rewrite sort_reverse_perm.
Qed.

Lemma ranked_top_k_witness :
  NoDup ["d1"]%string /\ (0 <= 10)%Z /\
  (StronglySorted (fun x y => py_lt y x = true) [(Num 1, "d1"%string)] /\
   (forall c, c ∈ [(Num 1, "d1"%string)] ->
      c.2 ∈ ["d1"]%string /\ keep scenario_index None c.2 = Ok true /\ Ok (Num 1) = Ok c.1) /\
   (forall d, d ∈ ["d1"]%string -> keep scenario_index None d = Ok true ->
      exists s, Ok (Num 1) = Ok s /\
        ((s, d) ∈ [(Num 1, "d1"%string)] \/
         (length [(Num 1, "d1"%string)] = Z.to_nat 10 /\
          forall c, c ∈ [(Num 1, "d1"%string)] -> py_lt (s, d) c = true)))).
Proof.
  split; [repeat constructor; set_solver|]. split; [lia|].
  apply (ranked_top_k scenario_index None (fun _ => Ok (Num 1)) ["d1"]%string 10).
  - repeat constructor; set_solver.
  - lia.
  - intros d _ [=].
  - reflexivity.
Defined.

(** The [site] filter: every hit of a search with a non-empty [site]
    has a URL containing it, whatever the scores. *)
Theorem search_site_filter embed E ids a req a' hits s :
  search_in embed E ids a req = (a', Ok hits) -> site req = Some s -> s <> ""%string ->
  forall h, h ∈ hits -> str_contains (hit_url h) s = true.
Proof.
  intros (top & Htop & Hh)%search_in_ok Hsite Hs h Hin.
  destruct (result_map_ok _ _ _ Hh h Hin) as (c & Hc & Hmk).
  destruct (ranked_by_ok _ _ _ _ _ _ Htop) as (cands & Hcands & ->).
  apply elem_of_py_slice_upto in Hc. rewrite sort_reverse_perm in Hc.
  destruct (candidates_of_spec _ _ _ _ _ Hcands) as (Hin' & _).
  destruct (Hin' c Hc) as (_ & Hkeep & _).
  rewrite Hsite in Hkeep. unfold keep in Hkeep. rewrite bool_decide_false in Hkeep by done.
  unfold make_hit in Hmk. destruct (InvertedIndex.doc_table _ !! c.2); [|done].
  injection Hkeep as Hk. injection Hmk as <-. done.
Qed.

Lemma search_site_filter_witness :
  search_in (fun _ => []) ∅ ["d1"; "d2"; "d3"]%string (api_init scenario_index)
    (mkRequest "" 10 false (Some "3"%string) None) =
    (api_init scenario_index, Ok [mkHit (Some "3"%string) "http://example.com/3" "" (Num 0) []]) /\
  Some "3"%string = Some "3"%string /\ "3"%string <> ""%string /\
  (forall h, h ∈ [mkHit (Some "3"%string) "http://example.com/3" "" (Num 0) []] ->
     str_contains (hit_url h) "3" = true).
Proof.
  assert (search_in (fun _ => []) ∅ ["d1"; "d2"; "d3"]%string (api_init scenario_index)
    (mkRequest "" 10 false (Some "3"%string) None) =
    (api_init scenario_index, Ok [mkHit (Some "3"%string) "http://example.com/3" "" (Num 0) []])) as E
    by reflexivity.
  split_and!; [exact E|done|done|].
  exact (search_site_filter _ _ _ _ _ _ _ "3" E eq_refl ltac:(done)).
Defined.

(** C30: the length of the ranking is Python's slice [candidates[:topK]]
    of the [n] kept documents: [min(topK, n)] for [topK >= 0], and
    [max(0, n + topK)] for a negative [topK], which drops the last
    [-topK] results instead of returning none. *)
Theorem ranked_length I site score ids k top :
  ranked_by I site score ids k = Ok top ->
  length top =
  (let n := length (filter (fun d => keep I site d = Ok true) ids) in
   if (0 <=? k)%Z then Nat.min (Z.to_nat k) n else Z.to_nat (Z.of_nat n + k)).
Proof.
  intros (cands & Hc & ->)%ranked_by_ok.
  destruct (candidates_of_spec _ _ _ _ _ Hc) as (_ & _ & _ & Hlen).
  rewrite py_slice_upto_length, (Permutation_length (sort_reverse_perm cands)), Hlen.
  done.
Qed.

Lemma ranked_length_witness :
  ranked_by scenario_index None (fun _ => Ok NaN) ["d1"; "d2"; "d3"]%string (-1) =
    Ok [(NaN, "d1"); (NaN, "d2")]%string /\
  length [(NaN, "d1"); (NaN, "d2")]%string = 2%nat.
Proof.
  assert (ranked_by scenario_index None (fun _ => Ok NaN) ["d1"; "d2"; "d3"]%string (-1) =
    Ok [(NaN, "d1"); (NaN, "d2")]%string) as E by (vm_compute; reflexivity).
  split; [exact E|]. rewrite (ranked_length _ _ _ _ _ _ E). vm_compute. reflexivity.
Defined.

(** C31: a semantic search fails when a document it scores has no stored
    embedding: the result is an exception ([KeyError], or an earlier
    [ZeroDivisionError]), never a list of hits in which the document would
    count as zero. *)
Theorem search_missing_embedding embed E ids a req d :
  useSemantic req = true -> d ∈ ids -> keep (api_index a) (site req) d = Ok true ->
  embeddings (hy_semantic (get_semantic E a).2) !! d = None ->
  forall a' hits, search_in embed E ids a req <> (a', Ok hits).
Proof.
  intros Hsem Hd Hk Hnone a' hits (top & Htop & _)%search_in_ok.
  destruct (ranked_by_ok _ _ _ _ _ _ Htop) as (cands & Hc & _).
  destruct (candidates_of_spec _ _ _ _ _ Hc) as (_ & Hcov & _).
  destruct (Hcov d Hd Hk) as (s & Hs & _). revert Hs.
  unfold scorer. rewrite Hsem. destruct (get_semantic E a) as [a0 h]. simpl in *.
  unfold hybrid_score. destruct (BM25.score _ _ _); simpl; [|done].
  unfold semantic_score. by rewrite Hnone.
Qed.

Lemma search_missing_embedding_witness :
  search_in (fun _ => [1%R]) ∅ ["d1"]%string (api_init scenario_index)
    (mkRequest "a" 10 true None None) <> (api_init scenario_index, Ok []).
Proof.
  apply (search_missing_embedding _ _ _ _ _ "d1"%string); [reflexivity|set_solver|reflexivity|reflexivity].
Defined.

(** C32: the answer of [search] does not depend on the iteration order of
    [index.doc_table] (a dict, modelled as a [gmap]) when no score is NaN:
    any enumeration of the table gives the same hits. *)
Theorem search_any_order embed E ids a req a' hits :
  ids ≡ₚ (map_to_list (InvertedIndex.doc_table (api_index a))).*1 ->
  (forall d, d ∈ ids -> (scorer embed E a req).2 d <> Ok NaN) ->
  search embed E a req = (a', Ok hits) -> search_in embed E ids a req = (a', Ok hits).
Proof.
  intros Hp Hnan. unfold search, search_in, ranked_in.
  destruct (scorer embed E a req) as [a0 sc]. simpl in Hnan.
  destruct (ranked_by _ _ _ (map_to_list _).*1 _) as [top|] eqn:Htop; simpl; [|done].
  intros Hh. rewrite <- Hh. do 2 f_equal.
  destruct (ranked_by_ok _ _ _ _ _ _ Htop) as (cands & Hc & ->).
  destruct (candidates_of_perm _ _ _ _ _ _ (symmetry Hp) Hc) as (c' & Hc' & Hpc).
  assert (NoDup ids) as Hnd by (rewrite Hp; apply NoDup_fst_map_to_list).
  unfold ranked_by. rewrite Hc'. simpl. unfold ranked.
  rewrite (cands_sort_perm_eq c' cands); [done| | |done].
  - exact (candidates_of_no_nan _ _ sc ids c' Hnan Hc').
  - exact (candidates_of_nodup _ _ sc ids c' Hnd Hc').
Qed.

Lemma search_any_order_witness :
  search_in (fun _ => []) ∅ ["d1"; "d2"; "d3"]%string (api_init scenario_index)
    (mkRequest "" 10 false (Some "3"%string) None) =
  (api_init scenario_index, Ok [mkHit (Some "3"%string) "http://example.com/3" "" (Num 0) []]).
Proof.
  apply search_any_order.
  - apply (bool_decide_unpack _). vm_compute. reflexivity.
  - intros d _. by apply bm25_scorer_no_nan.
  - reflexivity.
Defined.

(** C33: a stored embedding that is the zero vector makes the hybrid
    score NaN (numpy's [0/0]) whatever the BM25 score and [alpha]; such a
    score compares false with every other score in the sort. *)
Theorem hybrid_zero_vector_nan embed h q d v b :
  BM25.score (hy_bm25 h) q d = Ok b ->
  embeddings (hy_semantic h) !! d = Some v ->
  length (embed (String.concat " " q)) = length v ->
  Forall (fun x => x = 0%R) v ->
  hybrid_score embed h q d = Ok NaN.
Proof.
  intros Hb Hv Hlen Hz. unfold hybrid_score. rewrite Hb. simpl.
  unfold semantic_score. rewrite Hv. unfold cosine. rewrite bool_decide_true by done.
  destruct (Req_dec_T _ 0) as [_|Hne]; [done|]. exfalso. apply Hne.
  unfold norm at 2. rewrite dot_zero_r, sqrt_0 by done. lra.
Qed.

Lemma hybrid_zero_vector_nan_witness :
  hybrid_score (fun _ => [1%R])
    (mkHybrid (BM25.default scenario_index)
              (mkSemantic scenario_index {["d1"%string := [0%R]]}) 0.7) [] "d1" = Ok NaN.
Proof.
  apply (hybrid_zero_vector_nan _ _ _ _ [0%R] 0%R).
  - reflexivity.
  - reflexivity.
  - reflexivity.
  - repeat constructor.
Defined.

(** The embeddings are loaded once, at the first semantic search:
    afterwards [get_semantic] returns the same hybrid scorer, holding the
    first snapshot, whatever [data/embeddings.pkl] holds by then. *)
Lemma semantic_loaded_once embed E1 E2 ids a req :
  sem_hybrid a = None -> useSemantic req = true ->
  get_semantic E2 (search_in embed E1 ids a req).1 =
    ((search_in embed E1 ids a req).1, (get_semantic E1 a).2) /\
  embeddings (hy_semantic (get_semantic E1 a).2) = E1.
Proof.
  intros Hn Hs. unfold search_in, ranked_in, scorer. rewrite Hs.
  unfold get_semantic. rewrite Hn. done.
Qed.

End SearchClaims.
