(* ===== verification/Pipeline.v ===== *)
(** * Pipeline: the stages of [src/scripts/run_pipeline.py] composed

    [run_pipeline.py] crawls into [data/raw], parses into [data/parsed],
    deduplicates into [data/deduped], indexes that directory and embeds
    it.  The crawler's storage is the map [storage] of [Frontier] (key [h]
    standing for the files [h.html] and [h.meta]); [parse_all] writes one
    [sha256(url).json] file per page with the [Document] of [Parser], so
    the parsed directory is a map from file names to documents; the
    deduplicator reads it in [os.listdir] order (any enumeration of the
    map) and writes a subsequence of it; the indexer and the embedder
    read the deduplicated directory, each in its own [os.listdir] order.

    The theorems: whatever the crawl stored and whatever the directory
    orders, on the parser's files the deduplicator does not raise and the
    index built is well formed, because hex digests have no dot, so
    [fname.replace('.json', '')] gives distinct ids to distinct files;
    the embedder (the [Embedder] object, whose [build()] keeps the
    entries of earlier calls), when it finishes, gives an embedding to
    exactly the
    documents of the index, and it raises exactly when a document has a
    [null] title. *)

From S2P Require Import Prelude Index Parser Frontier Dedup.
From Stdlib Require Import Ascii QArith Reals.

Module Parser.

(** The attributes of a [Parser] object, lines 55-59 of
    [src/src/parser.py]: the directory of the crawled pages and the one
    [parse_all] writes ([os.makedirs] of line 59 creates it). *)
Record t := mk {
  storage_dir : string;
  output_dir : string
}.

(** [Parser(storage_dir, output_dir)]. *)
Definition init (storage_dir output_dir : string) : t := mk storage_dir output_dir.

End Parser.

Section ParseAll.
(** [hashlib.sha256(s.encode()).hexdigest()]. *)
Variable sha256 : string -> string.
(** BeautifulSoup, spaCy and the stop words, as in [Parser]. *)
Variable soup_of : string -> Soup.
Variable nlp : string -> list NlpToken.
Variable STOPWORDS : gset string.

(** The loop of [Parser.parse_all()], lines 62-72 of [src/src/parser.py],
    over the stored pages: the document of the page's URL (read back from
    its [.meta] file) and HTML, written to [sha256(url).json], a later
    write of the same name replacing the earlier one.  An exception of
    [Document(...)] ends the loop. *)
Fixpoint parse_all_go (out : gmap string Doc) (pages : list (string * (string * Meta)))
    : result (gmap string Doc) :=
  match pages with
  | [] => Ok out
  | (_, (html, meta)) :: rest =>
      doc <- Document.init soup_of nlp STOPWORDS (meta_url meta) html ;;
      parse_all_go (<[sha256 (meta_url meta) +:+ ".json" := Document.to_dict doc]> out) rest
  end.

(** [Parser.parse_all()], lines 61-72, reading the storage directory in
    [os.listdir] order. *)
Definition parse_all (storage : gmap string (string * Meta)) : result (gmap string Doc) :=
  parse_all_go ∅ (map_to_list storage).

End ParseAll.

Module Embedder.

(** The attributes of an [Embedder] object, lines 7-11 of
    [src/src/embedder.py], but the model [self.model], which is the
    section variable [encode] of its methods. *)
Record t := mk {
  input_dir : string;
  output_path : string;
  embeddings : gmap string (list R)
}.

(** [Embedder(input_dir, output_path)]. *)
Definition init (input_dir output_path : string) : t := mk input_dir output_path ∅.

End Embedder.

Section EmbedderBuild.
(** [SentenceTransformer('all-MiniLM-L6-v2').encode]. *)
Variable encode : string -> list R.

(** The text [Embedder.build] encodes, line 19 of [src/src/embedder.py]:
    [doc['title'] + ' ' + ' '.join(doc['headings']) + ' ' + doc['body']],
    which raises [TypeError] when the title is [null]. *)
Definition embed_text (doc : Doc) : result string :=
  match title doc with
  | Some t => Ok (t +:+ " " +:+ String.concat " " (headings doc) +:+ " " +:+ body doc)
  | None => Raise TypeError
  end.

(** The loop of [Embedder.build()], lines 14-20. *)
Fixpoint embedder_go (E : gmap string (list R)) (listing : list (string * Doc))
    : result (gmap string (list R)) :=
  match listing with
  | [] => Ok E
  | (fname, doc) :: rest =>
      if endswith fname ".json" then
        text <- embed_text doc ;;
        embedder_go (<[Indexer.doc_id_of fname := encode text]> E) rest
      else embedder_go E rest
  end.

(** [Embedder.build()], lines 13-22, over a directory listing: the map
    written to [embeddings.pkl]. *)
Definition embedder_build (listing : list (string * Doc)) : result (gmap string (list R)) :=
  embedder_go ∅ listing.

(** [build()] on the object [e], lines 13-22: [self.embeddings] keeps the
    entries of earlier calls, and the updated dict is dumped to
    [self.output_path].  An exception leaves the object half updated;
    nothing in the code catches it, so that state is not kept. *)
Definition embedder_build_on (e : Embedder.t) (listing : list (string * Doc))
    : result (Embedder.t * gmap string (list R)) :=
  E <- embedder_go (Embedder.embeddings e) listing ;;
  Ok (Embedder.mk (Embedder.input_dir e) (Embedder.output_path e) E, E).

End EmbedderBuild.

(** A digest without dots, for the examples: the URL with its dots
    removed. *)
Definition demo_digest (u : string) : string :=
  String.string_of_list_ascii (filter (fun c => c <> "."%char) (String.list_ascii_of_string u)).

(** ** Facts *)

Section ParseFacts.
Variable sha256 : string -> string.
Variable soup_of : string -> Soup.
Variable nlp : string -> list NlpToken.
Variable STOPWORDS : gset string.
Local Abbreviation parse_all_go := (parse_all_go sha256 soup_of nlp STOPWORDS).

Lemma parse_all_go_names out pages P :
  (forall k d, out !! k = Some d -> exists u, k = sha256 u +:+ ".json") ->
  parse_all_go out pages = Ok P ->
  forall k d, P !! k = Some d -> exists u, k = sha256 u +:+ ".json".
Proof.
  revert out. induction pages as [|[k0 [html meta]] l IH]; intros out Hout; simpl.
  - by intros [= <-].
  - destruct (Document.init _ _ _ _ _) as [doc|]; simpl; [|done].
    apply IH. intros k d. rewrite lookup_insert. case_decide; [intros _; eauto|apply Hout].
Qed.

Lemma parse_all_go_raise out pages e :
  parse_all_go out pages = Raise e <->
  e = KeyError /\ exists k html m, (k, (html, m)) ∈ pages /\ soup_canonical (soup_of html) = Some None.
Proof.
  revert out. induction pages as [|[k0 [html meta]] l IH]; intros out; simpl.
  - split; [done|]. intros (_ & k & h & m & Hin & _). by apply not_elem_of_nil in Hin.
  - setoid_rewrite elem_of_cons.
    destruct (Document.init _ _ _ _ _) as [doc|e'] eqn:Hi; simpl.
    + rewrite IH. assert (soup_canonical (soup_of html) <> Some None) as Hc.
      { intros Hc. pose proof (proj2 (init_raise nlp STOPWORDS soup_of (meta_url meta) html KeyError)
                                   (conj eq_refl Hc)). congruence. }
      naive_solver.
    + apply init_raise in Hi as [-> Hc]. naive_solver.
Qed.

Lemma parse_all_go_docs out pages P k d :
  parse_all_go out pages = Ok P -> P !! k = Some d ->
  out !! k = Some d \/
  exists k0 html meta doc, (k0, (html, meta)) ∈ pages /\ k = sha256 (meta_url meta) +:+ ".json" /\
    Document.init soup_of nlp STOPWORDS (meta_url meta) html = Ok doc /\ d = Document.to_dict doc.
Proof.
  revert out. induction pages as [|[k0 [html meta]] l IH]; intros out; simpl.
  - intros [= <-]. by left.
  - destruct (Document.init _ _ _ _ _) as [doc|] eqn:Hi; simpl; [|done].
    intros Hgo HP. destruct (IH _ Hgo HP) as [Hin|(k1 & h1 & m1 & doc1 & ? & ? & ? & ?)].
    + revert Hin. rewrite lookup_insert. case_decide; intros; simplify_eq; [|by left].
      right. exists k0, html, meta, doc. split_and!; [set_solver|done|done|done].
    + right. exists k1, h1, m1, doc1. split_and!; [set_solver|done|done|done].
Qed.

End ParseFacts.

(** Distinct names give distinct ids in a map, when ids are injective on
    its names. *)
Lemma NoDup_map_fst_inj {B} (f : string -> string) (l : list (string * B)) :
  NoDup l.*1 -> (forall x y, x ∈ l -> y ∈ l -> f x.1 = f y.1 -> x.1 = y.1) ->
  NoDup (map (fun p => f p.1) l).
Proof.
  induction l as [|a l IH]; intros Hnd Hinj; simpl; [constructor|].
  apply NoDup_cons in Hnd as [Hna Hnd]. constructor.
  - intros (b & Hfb & Hb)%list_elem_of_In%in_map_iff. apply list_elem_of_In in Hb.
    apply Hna. rewrite (Hinj a b); [|set_solver|set_solver|done].
    apply list_elem_of_fmap. by exists b.
  - apply IH; [done|]. intros x y Hx Hy. apply Hinj; set_solver.
Qed.

Lemma no_dot_demo_digest u : no_dot (demo_digest u).
Proof.
  intros c. unfold demo_digest. rewrite String.list_ascii_of_string_of_list_ascii.
  by intros (? & _)%list_elem_of_filter.
Qed.

(** The parser names its files so that their ids are distinct. *)
Lemma parse_all_ids_nodup sha256 soup_of nlp STOPWORDS storage P L :
  (forall u, no_dot (sha256 u)) ->
  parse_all sha256 soup_of nlp STOPWORDS storage = Ok P ->
  L ≡ₚ map_to_list P -> NoDup (json_ids L).
Proof.
  intros Hdot HP HL.
  assert (forall x, x ∈ L -> exists u, x.1 = sha256 u +:+ ".json") as Hname.
  { intros [n d] Hx. rewrite HL in Hx. apply elem_of_map_to_list in Hx.
    refine (parse_all_go_names sha256 soup_of nlp STOPWORDS ∅ _ P _ HP n d Hx).
    intros ??. by rewrite lookup_empty. }
  assert (NoDup L.*1) as Hnd by (rewrite HL; apply NoDup_fst_map_to_list).
  unfold json_ids. apply NoDup_map_fst_inj.
  - apply (sublist_NoDup _ L.*1); [done|]. apply fmap_sublist, sublist_filter.
  - intros x y (_ & Hx)%list_elem_of_filter (_ & Hy)%list_elem_of_filter.
    destruct (Hname x Hx) as (u & ->), (Hname y Hy) as (v & ->).
    unfold Indexer.doc_id_of. rewrite !str_replace_json_suffix by apply Hdot. by intros ->.
Qed.

Section EmbedFacts.
Variable encode : string -> list R.

Lemma embedder_go_dom E listing E' d :
  embedder_go encode E listing = Ok E' ->
  is_Some (E' !! d) <-> is_Some (E !! d) \/ d ∈ json_ids listing.
Proof.
  revert E. induction listing as [|[fname doc] l IH]; intros E; simpl.
  - intros [= <-]. unfold json_ids. simpl. set_solver.
  - rewrite json_ids_cons. cbn [fst]. destruct (endswith fname ".json").
    + destruct (embed_text doc) as [text|]; simpl; [|done]. intros ->%IH.
      rewrite lookup_insert_is_Some, elem_of_cons.
      destruct (decide (Indexer.doc_id_of fname = d)); naive_solver.
    + intros ->%IH. set_solver.
Qed.

Lemma embedder_go_raise E listing :
  (exists e, embedder_go encode E listing = Raise e) <->
  exists fname doc, (fname, doc) ∈ listing /\ endswith fname ".json" = true /\ title doc = None.
Proof.
  revert E. induction listing as [|[fname doc] l IH]; intros E; simpl.
  - split; [by intros []|]. intros (? & ? & Hin & _). by apply not_elem_of_nil in Hin.
  - setoid_rewrite elem_of_cons. destruct (endswith fname ".json") eqn:Hj.
    + unfold embed_text. destruct (title doc) as [t|] eqn:Ht; simpl.
      * rewrite IH. naive_solver.
      * split; [|eauto]. intros _. exists fname, doc. auto.
    + rewrite IH. split; intros (f & d0 & Hin & He & Ht); exists f, d0; [by auto|].
      destruct Hin as [[= -> ->]|]; [congruence|done].
Qed.

Lemma embedder_go_raise_type E listing e :
  embedder_go encode E listing = Raise e -> e = TypeError.
Proof.
  revert E. induction listing as [|[fname doc] l IH]; intros E; simpl; [done|].
  destruct (endswith fname ".json"); [|apply IH].
  unfold embed_text. destruct (title doc); simpl; [apply IH|congruence].
Qed.

(** Every stored vector is the encoding of some text. *)
Lemma embedder_go_values E listing E' d v :
  embedder_go encode E listing = Ok E' -> E' !! d = Some v ->
  E !! d = Some v \/ exists text, v = encode text.
Proof.
  revert E. induction listing as [|[fname doc] l IH]; intros E; simpl; [intros [= <-]; auto|].
  destruct (endswith fname ".json"); [|apply IH].
  destruct (embed_text doc) as [text|]; simpl; [|done].
  intros Hgo Hd. destruct (IH _ Hgo Hd) as [Hv|]; [|by right].
  revert Hv. rewrite lookup_insert. case_decide; intros; simplify_eq; naive_solver.
Qed.

(** [build()] on a fresh [Embedder] dumps [embedder_build]. *)
Lemma embedder_build_on_init input_dir output_path listing :
  embedder_build_on encode (Embedder.init input_dir output_path) listing =
  E <- embedder_build encode listing ;; Ok (Embedder.mk input_dir output_path E, E).
Proof. reflexivity. Qed.

End EmbedFacts.

(** ** The pipeline properties *)

Section PipelineClaims.

(** The deduplication and indexing stages of [run_pipeline.py]
    succeed on what the parser wrote, whatever the crawler stored and
    whatever the [os.listdir] orders of the parsed and deduplicated
    directories, and the index is well formed, as long as the digests
    naming the files have no dot (a hex digest has none): every file is
    named [sha256(url).json], so [fname.replace('.json', '')] gives
    distinct ids to distinct files. *)
Lemma pipeline_index_wf sha256 soup_of nlp STOPWORDS hash32 perms bands rows storage P L1 :
  (forall u, no_dot (sha256 u)) ->
  parse_all sha256 soup_of nlp STOPWORDS storage = Ok P ->
  L1 ≡ₚ map_to_list P ->
  exists out, dedupe hash32 perms bands rows L1 = Ok out /\
    forall L2, L2 ≡ₚ out -> InvertedIndex.wf (Indexer.build L2).
Proof.
  intros Hdot HP HL1.
  destruct (dedupe_succeeds hash32 perms bands rows L1) as (out & Hd & Hnd);
    [by eapply parse_all_ids_nodup|].
  exists out. split; [done|]. intros L2 HL2. apply build_preserves_wf.
  by rewrite (json_ids_perm _ _ HL2).
Qed.

(** When the embedder finishes, the embedder and the indexer have
    read the same deduplicated directory (each in its own [os.listdir]
    order) and derived ids the same way, so the documents of the index
    are exactly the documents with an embedding: a semantic search over
    the pipeline's output never meets the missing embedding of
    [search_missing_embedding]. *)
Lemma pipeline_embeddings_cover encode L L' E d :
  L' ≡ₚ L -> embedder_build encode L' = Ok E ->
  is_Some (InvertedIndex.doc_table (Indexer.build L) !! d) <-> is_Some (E !! d).
Proof.
  intros Hp HE. rewrite build_doc_table_dom, (embedder_go_dom encode ∅ L' E d HE), lookup_empty.
  rewrite (json_ids_perm _ _ Hp). split; [auto|]. intros [[]|]; done.
Qed.

(** C17 (error): [Embedder.build] raises ([TypeError], from
    [None + ' ']) exactly when some document of its directory has a
    [null] title, which [Document.parse] writes for every page whose
    [<title>] is empty or has markup inside: one such page stops the
    whole embedding stage. *)
Theorem embedder_null_title encode listing :
  (exists e, embedder_build encode listing = Raise e) <->
  exists fname doc, (fname, doc) ∈ listing /\ endswith fname ".json" = true /\ title doc = None.
Proof. apply embedder_go_raise. Qed.

End PipelineClaims.
