(* ===== verification/RunPipeline.v ===== *)
(** * RunPipeline: the driver [src/scripts/run_pipeline.py]

    The script crawls four seeds with three workers and [limit=20] into
    [data/raw], then runs [Parser.parse_all], [Deduplicator.dedupe],
    [Indexer.build] and [Embedder.build] in that order, each stage
    reading the directory the previous one wrote.  [run_pipeline] is
    that sequence on the state where the crawl stopped: the storage of
    the crawl ([Frontier]) or the exception a worker raised, which
    [asyncio.gather] and [asyncio.run] propagate; then the stages of
    [Pipeline], with the [os.listdir] order of a directory as the
    section variable [listdir].  The directories are taken empty at the
    start, as on a first run.

    The theorems: when the script finishes, the index it saved is well
    formed, every indexed document has an embedding and conversely, and
    at most [limit - 1 + 3 = 22] documents are indexed; when it stops
    with an exception, a worker raised it, or a stored page has a
    canonical link without [href] ([KeyError]), or a stored page has a
    [<title>] without a single string ([TypeError] in the embedder). *)

From S2P Require Import Prelude Index Parser Url Robots Frontier Dedup Pipeline.
From Stdlib Require Import QArith Reals.

(** The directory and file names of lines 12-16. *)
Definition RAW_DIR : string := "data/raw".
Definition PARSED_DIR : string := "data/parsed".
Definition DEDUPED_DIR : string := "data/deduped".
Definition INDEX_PATH : string := "data/index.pkl".
Definition EMBED_PATH : string := "data/embeddings.pkl".

(** The seeds of lines 23-28. *)
Definition seeds : list string :=
  ["https://fastapi.tiangolo.com/"; "https://spacy.io/";
   "https://www.sentence-transformers.org/"; "https://www.python.org/"]%string.

(** [Crawler(RAW_DIR, max_concurrency=3)], line 27. *)
Definition max_concurrency : nat := 3.

(** [crawler.crawl(seeds, limit=20)], line 29. *)
Definition crawl_limit : nat := 20.

(** The exception of a worker that raised, if any. *)
Definition raised_exc (ws : list wstate) : option py_exc :=
  head (omap (fun w => if w is WRaised e then Some e else None) ws).

(** [asyncio.run(crawler.crawl(seeds, limit=20))], line 29, when the
    crawl stopped in state [s]: the exception of a worker that raised,
    or the storage directory. *)
Definition crawl_result (s : state) : result (gmap string (string * Meta)) :=
  match raised_exc (workers s) with
  | Some e => Raise e
  | None => Ok (storage s)
  end.

Section Driver.
Variable sha256 : string -> string.
Variable soup_of : string -> Soup.
Variable nlp : string -> list NlpToken.
Variable STOPWORDS : gset string.
Variable hash32 : string -> Z.
Variable perms : list (Z * Z).
Variable bands rows : nat.
Variable encode : string -> list R.
(** [os.listdir] of a directory holding the given [.json] files. *)
Variable listdir : gmap string Doc -> list (string * Doc).

(** Lines 34-55 on the raw directory: [parse_all] writes
    [data/parsed]; a fresh [Deduplicator(PARSED_DIR, DEDUPED_DIR)] (the
    default threshold [0.9]) writes each document it keeps to
    [data/deduped] under its file name; a fresh [Indexer] and a fresh
    [Embedder] both read [data/deduped] and write [data/index.pkl] and
    [data/embeddings.pkl], the two files the script leaves. *)
Definition run_stages (raw : gmap string (string * Meta))
    : result (InvertedIndex.Pickled * gmap string (list R)) :=
  parsed <- parse_all sha256 soup_of nlp STOPWORDS raw ;;
  dd <- dedupe_on hash32 perms bands rows
          (Deduplicator.init bands PARSED_DIR DEDUPED_DIR (9 # 10)) (listdir parsed) ;;
  let deduped : gmap string Doc := list_to_map dd.2 in
  let snapshot := (Indexer.build_on (Indexer.init DEDUPED_DIR INDEX_PATH) (listdir deduped)).2 in
  eb <- embedder_build_on encode (Embedder.init DEDUPED_DIR EMBED_PATH) (listdir deduped) ;;
  Ok (snapshot, eb.2).

(** The script from the state where the crawl stopped. *)
Definition run_pipeline (s : state) : result (InvertedIndex.Pickled * gmap string (list R)) :=
  raw <- crawl_result s ;;
  run_stages raw.

End Driver.

(** ** Facts *)

Section DriverFacts.
Variable sha256 : string -> string.
Variable soup_of : string -> Soup.
Variable nlp : string -> list NlpToken.
Variable STOPWORDS : gset string.
Variable hash32 : string -> Z.
Variable perms : list (Z * Z).
Variable bands rows : nat.
Variable encode : string -> list R.
Variable listdir : gmap string Doc -> list (string * Doc).
(** [os.listdir] lists every file of the directory once. *)
Hypothesis listdir_perm : forall m, listdir m ≡ₚ map_to_list m.
(** A hex digest has no dot. *)
Hypothesis sha256_hex : forall u, no_dot (sha256 u).

Lemma parse_all_size raw P :
  parse_all sha256 soup_of nlp STOPWORDS raw = Ok P -> (size P <= size raw)%nat.
Proof.
  intros HP. rewrite <- (length_map_to_list raw).
  rewrite <- (length_map (fun p : string * (string * Meta) => sha256 (meta_url p.2.2) +:+ ".json")).
  apply map_size_le_keys. intros k d Hk.
  destruct (parse_all_go_docs sha256 soup_of nlp STOPWORDS ∅ _ P k d HP Hk)
    as [Hk0|(k0 & html & meta & doc & Hin & -> & _)]; [by rewrite lookup_empty in Hk0|].
  apply list_elem_of_In, in_map_iff. exists (k0, (html, meta)). split; [done|].
  by apply list_elem_of_In.
Qed.

(** The [.json] files of [data/deduped] are the documents [dedupe] kept,
    each under its own name. *)
Lemma deduped_listing P out :
  dedupe hash32 perms bands rows (listdir P) = Ok out ->
  NoDup out.*1 /\ listdir (list_to_map out) ≡ₚ out /\ out `sublist_of` listdir P.
Proof.
  intros Hd. pose proof (dedupe_out_sublist hash32 perms bands rows _ _ Hd) as Hsub.
  assert (NoDup out.*1) as Hnd.
  { apply (sublist_NoDup _ (listdir P).*1); [|by apply fmap_sublist].
    rewrite (listdir_perm P). apply NoDup_fst_map_to_list. }
  split_and!; [done| |done]. rewrite listdir_perm. by apply map_to_list_to_map.
Qed.

Lemma json_ids_length L : (length (json_ids L) <= length L)%nat.
Proof. unfold json_ids. rewrite length_map. apply length_filter. Qed.

(** What a finished run of the stages produced. *)
Lemma run_stages_ok raw snap E :
  run_stages sha256 soup_of nlp STOPWORDS hash32 perms bands rows encode listdir raw = Ok (snap, E) ->
  exists idx, snap = InvertedIndex.save idx /\
  InvertedIndex.wf idx /\ (InvertedIndex.N idx <= size raw)%nat /\
  forall d, is_Some (InvertedIndex.doc_table idx !! d) <-> is_Some (E !! d).
Proof.
  unfold run_stages.
  destruct (parse_all _ _ _ _ raw) as [P|] eqn:HP; cbn [result_bind]; [|done].
  destruct (dedupe_on _ _ _ _ _ _) as [[dd out]|] eqn:Hd; cbn [result_bind snd]; [|done].
  apply dedupe_on_init_ok in Hd.
  rewrite build_on_init, embedder_build_on_init.
  destruct (embedder_build _ _) as [E'|] eqn:HE; simpl; [|done]. intros [= <- <-].
  exists (Indexer.build (listdir (list_to_map out))). split; [done|].
  destruct (deduped_listing P out Hd) as (Hnd & Hl & Hsub).
  assert (NoDup (json_ids out)) as Hids.
  { destruct (dedupe_succeeds hash32 perms bands rows (listdir P)) as (out' & Hd' & Hnd');
      [by eapply parse_all_ids_nodup|congruence]. }
  assert (InvertedIndex.wf (Indexer.build (listdir (list_to_map out)))) as Hwf.
  { apply build_preserves_wf. by rewrite (json_ids_perm _ _ Hl). }
  split_and!; [done| |].
  - rewrite (InvertedIndex.wf_N _ Hwf).
    transitivity (length (json_ids (listdir (list_to_map out)))).
    { apply map_size_le_keys. intros k x Hk. apply build_doc_table_dom. by exists x. }
    rewrite (json_ids_length _), Hl, (sublist_length _ _ Hsub), listdir_perm, length_map_to_list.
    by apply parse_all_size.
  - intros d. rewrite build_doc_table_dom, (embedder_go_dom encode ∅ _ E' d HE), lookup_empty.
    split; [auto|]. intros [[]|]; done.
Qed.

(** Why the stages can stop: a canonical link without [href] in the
    parser, a [null] title in the embedder; [dedupe] never raises on the
    parser's files. *)
Lemma run_stages_raise raw e :
  run_stages sha256 soup_of nlp STOPWORDS hash32 perms bands rows encode listdir raw = Raise e ->
  (e = KeyError /\ exists k html m, raw !! k = Some (html, m) /\ soup_canonical (soup_of html) = Some None) \/
  (e = TypeError /\ exists k html m, raw !! k = Some (html, m) /\ soup_title (soup_of html) = Some None).
Proof.
  unfold run_stages.
  destruct (parse_all _ _ _ _ raw) as [P|e'] eqn:HP; simpl.
  2:{ intros [= <-]. left. apply parse_all_go_raise in HP as [-> (k & html & m & Hin & Hc)].
      split; [done|]. exists k, html, m. split; [|done]. by apply elem_of_map_to_list. }
  destruct (dedupe_on _ _ _ _ _ _) as [[dd out]|e'] eqn:Hd; simpl;
    [apply dedupe_on_init_ok in Hd|apply dedupe_on_init_raise in Hd].
  2:{ destruct (dedupe_succeeds hash32 perms bands rows (listdir P)) as (out' & Hd' & _);
        [by eapply parse_all_ids_nodup|congruence]. }
  rewrite embedder_build_on_init.
  destruct (embedder_build _ _) as [E'|e'] eqn:HE; simpl; [done|]. intros [= <-]. right.
  split; [by eapply embedder_go_raise_type|].
  destruct (proj1 (embedder_go_raise encode ∅ _) (ex_intro _ e' HE)) as (f & doc & Hin & _ & Ht).
  destruct (deduped_listing P out Hd) as (_ & Hl & Hsub).
  rewrite Hl in Hin. apply (elem_of_sublist _ _ _ Hin) in Hsub as Hin2. clear Hin. rename Hin2 into Hin.
  rewrite (listdir_perm P) in Hin. apply elem_of_map_to_list in Hin.
  destruct (parse_all_go_docs sha256 soup_of nlp STOPWORDS ∅ _ P f doc HP Hin)
    as [Hk0|(k0 & html & meta & doc' & Hin' & _ & Hi & ->)]; [by rewrite lookup_empty in Hk0|].
  exists k0, html, meta. split; [by apply elem_of_map_to_list|].
  simpl in Ht. rewrite (init_title nlp STOPWORDS soup_of _ _ _ Hi) in Ht.
  by destruct (soup_title (soup_of html)) as [[]|].
Qed.

End DriverFacts.

Lemma raised_exc_lookup ws e : raised_exc ws = Some e -> exists i, ws !! i = Some (WRaised e).
Proof.
  unfold raised_exc. induction ws as [|w ws IH]; simpl; [done|].
  destruct w; simpl; try (intros (i & ?)%IH; by exists (S i)). intros [= ->]. by exists 0%nat.
Qed.

(** ** A run of the script

    The crawl fetches the FastAPI seed, whose page has an empty
    [<title>], and stops; in the demo environment of [Parser] the page
    [notitle] is that page. *)
Definition demo_crawl : list action :=
  [APop 0 "https://fastapi.tiangolo.com/" 1; AResume 0 (html_page "fastapi") 2].
Definition demo_crawl_notitle : list action :=
  [APop 0 "https://fastapi.tiangolo.com/" 1; AResume 0 (html_page "notitle") 2].

Definition demo_crawled (acts : list action) : state :=
  default (init seeds max_concurrency 0)
    (run demo_digest demo_hrefs demo_urljoin crawl_limit acts (init seeds max_concurrency 0)).

Definition demo_run (acts : list action) : result (InvertedIndex.Pickled * gmap string (list R)) :=
  run_pipeline demo_digest demo_soup demo_nlp demo_stopwords demo_hash32 demo_perms 4 32
    (fun _ => [1%R]) map_to_list (demo_crawled acts).


(** ** The driver properties *)

Section DriverClaims.

(** C7 (bounds): when [run_pipeline.py] finishes, [data/index.pkl]
    holds the snapshot of a well-formed index, the documents of the
    index are exactly the documents of [data/embeddings.pkl], and at
    most [22 = limit - 1 + max_concurrency] documents are indexed: the
    crawl's overshoot of [limit] reaches the index, but no further. *)
Theorem run_pipeline_ok sha256 hrefs urljoin soup_of nlp STOPWORDS hash32 perms bands rows
    encode listdir t0 s snap E :
  (forall m, listdir m ≡ₚ map_to_list m) -> (forall u, no_dot (sha256 u)) ->
  reachable sha256 hrefs urljoin crawl_limit (init seeds max_concurrency t0) s ->
  run_pipeline sha256 soup_of nlp STOPWORDS hash32 perms bands rows encode listdir s = Ok (snap, E) ->
  exists idx, snap = InvertedIndex.save idx /\
  InvertedIndex.wf idx /\ (InvertedIndex.N idx <= 22)%nat /\
  forall d, is_Some (InvertedIndex.doc_table idx !! d) <-> is_Some (E !! d).
Proof.
  intros Hls Hhex Hr. unfold run_pipeline, crawl_result.
  destruct (raised_exc (workers s)); simpl; [done|].
  intros (idx & Hsnap & Hwf & HN & Hcov)%run_stages_ok; [|done|done].
  exists idx. split_and!; [done|done| |done].
  pose proof (storage_size sha256 _ (reachable_storage_inv _ _ _ _ _ _ _ _ Hr)).
  destruct (reachable_count_inv _ _ _ _ _ _ _ _ Hr) as [Hc Hlen].
  unfold count_inv in Hc. unfold crawl_limit, max_concurrency in *. lia.
Qed.

Lemma run_pipeline_ok_witness :
  exists idx, (ok_or (InvertedIndex.save InvertedIndex.empty, ∅) (demo_run demo_crawl)).1 =
                InvertedIndex.save idx /\
  InvertedIndex.wf idx /\ (InvertedIndex.N idx <= 22)%nat /\
  forall d, is_Some (InvertedIndex.doc_table idx !! d)
    <-> is_Some ((ok_or (InvertedIndex.save InvertedIndex.empty, ∅) (demo_run demo_crawl)).2 !! d).
Proof.
  apply (run_pipeline_ok demo_digest demo_hrefs demo_urljoin demo_soup demo_nlp demo_stopwords
           demo_hash32 demo_perms 4 32 (fun _ => [1%R]) map_to_list 0 (demo_crawled demo_crawl)).
  - intros m. reflexivity.
  - apply no_dot_demo_digest.
  - apply (run_reachable _ _ _ _ demo_crawl). vm_compute. reflexivity.
  - vm_compute. reflexivity.
Defined.

(** C15 (error): [run_pipeline.py] stops with an exception only when a
    crawl worker raised it, when a stored page has a canonical [<link>]
    without [href] ([KeyError] in [Document.parse]), or when a stored
    page has a [<title>] that is empty or holds markup ([TypeError] in
    [Embedder.build], from its [null] title); the deduplicator never
    raises on the parser's files. *)
Theorem run_pipeline_errors sha256 soup_of nlp STOPWORDS hash32 perms bands rows encode listdir s e :
  (forall m, listdir m ≡ₚ map_to_list m) -> (forall u, no_dot (sha256 u)) ->
  run_pipeline sha256 soup_of nlp STOPWORDS hash32 perms bands rows encode listdir s = Raise e ->
  (exists i, workers s !! i = Some (WRaised e)) \/
  (e = KeyError /\ exists k html m, storage s !! k = Some (html, m) /\
                                    soup_canonical (soup_of html) = Some None) \/
  (e = TypeError /\ exists k html m, storage s !! k = Some (html, m) /\
                                     soup_title (soup_of html) = Some None).
Proof.
  intros Hls Hhex. unfold run_pipeline, crawl_result.
  destruct (raised_exc (workers s)) as [e'|] eqn:Hx; simpl.
  - intros [= <-]. left. by apply raised_exc_lookup.
  - intros Hst. right. by eapply run_stages_raise.
Qed.

Lemma run_pipeline_errors_witness :
  demo_run demo_crawl_notitle = Raise TypeError /\
  ((exists i, workers (demo_crawled demo_crawl_notitle) !! i = Some (WRaised TypeError)) \/
   (TypeError = KeyError /\ exists k html m, storage (demo_crawled demo_crawl_notitle) !! k = Some (html, m) /\
                                  soup_canonical (demo_soup html) = Some None) \/
   (TypeError = TypeError /\ exists k html m, storage (demo_crawled demo_crawl_notitle) !! k = Some (html, m) /\
                                   soup_title (demo_soup html) = Some None)).
Proof.
  assert (demo_run demo_crawl_notitle = Raise TypeError) as H by (vm_compute; reflexivity).
  split; [exact H|].
  exact (run_pipeline_errors demo_digest demo_soup demo_nlp demo_stopwords demo_hash32 demo_perms 4 32
           (fun _ => [1%R]) map_to_list (demo_crawled demo_crawl_notitle) TypeError
           (fun m => reflexivity _) no_dot_demo_digest H).
Defined.

End DriverClaims.
