(* ===== verification/Serve.v ===== *)
(** * Serve: [src/main.py] serving the files of the pipeline

    [main.py] imports [api] (which loads [data/index.pkl] at import) and
    runs [uvicorn.run(app)], which answers [/search] requests with
    [search].  [serve] is that loop on a list of requests answered one
    after another; [Concurrent] models uvicorn's thread pool, which may
    run several [search] calls at once, and relates its answers to
    those of [serve].

    The theorems: while serving, the module state keeps the loaded index
    and [BM25(index)], and the semantic pair once built ([api_ok]); when
    the embeddings cover the index and the embedding model has a fixed
    dimension, [search] raises only [ZeroDivisionError], for a non-empty
    query on an index whose documents are all empty; on the files
    [run_pipeline.py] writes, this holds for every sequence of
    requests. *)

From S2P Require Import Prelude Index Ranker Parser Url Robots Frontier Dedup Search Pipeline RunPipeline.
From Stdlib Require Import QArith Reals.

Section Server.
(** [SentenceTransformer('all-MiniLM-L6-v2').encode], and the contents
    of [data/embeddings.pkl]. *)
Variable embed : string -> list R.
Variable stored : gmap string (list R).

(** [uvicorn.run(app, ...)], lines 6-8 of [src/main.py]: the requests
    answered in order, each by [search] on the module state the previous
    one left. *)
Fixpoint serve (a : Api) (reqs : list SearchRequest) : Api * list (result (list Hit)) :=
  match reqs with
  | [] => (a, [])
  | req :: reqs' =>
      let '(a1, res) := search embed stored a req in
      let '(a2, outs) := serve a1 reqs' in
      (a2, res :: outs)
  end.

(** [src/main.py], lines 4-8: [from api import app] runs the module
    body of [api.py], which loads the index snapshot (and raises when it
    is not one), then uvicorn answers the requests. *)
Definition main (data : InvertedIndex.Pickled) (reqs : list SearchRequest)
    : result (list (result (list Hit))) :=
  a0 <- api_start data ;;
  Ok (serve a0 reqs).2.

End Server.

(** ** Facts *)

Section ServeFacts.
Variable embed : string -> list R.
Variable stored : gmap string (list R).
Variable I : InvertedIndex.t.
Variable D : nat.
(** Every document of the index has a stored embedding. *)
Hypothesis stored_cover :
  forall d, is_Some (InvertedIndex.doc_table I !! d) -> is_Some (stored !! d).
(** The model's vectors, stored or computed, have one dimension. *)
Hypothesis embed_dim : forall t, length (embed t) = D.
Hypothesis stored_dim : forall d v, stored !! d = Some v -> length v = D.

(** The hybrid scorer [get_semantic] builds over [I]. *)
Definition hybrid0 : HybridRanker := mkHybrid (BM25.default I) (mkSemantic I stored) 0.7.

(** The module state while serving [I]. *)
Definition api_ok (a : Api) : Prop :=
  api_index a = I /\ bm25 a = BM25.default I /\
  (sem_hybrid a = None \/ sem_hybrid a = Some (mkSemantic I stored, hybrid0)).

(** The one exception left: BM25's [ZeroDivisionError] when every
    document is empty and the query is not. *)
Definition empty_index_error (req : SearchRequest) (e : py_exc) : Prop :=
  e = ZeroDivisionError /\ query_tokens req <> [] /\ BM25.total_length I = 0%nat.

Lemma api_ok_init : api_ok (api_init I).
Proof. unfold api_ok. naive_solver. Qed.

Lemma get_semantic_ok a :
  api_ok a -> api_ok (get_semantic stored a).1 /\ (get_semantic stored a).2 = hybrid0.
Proof.
  intros (Hi & Hb & [Hs|Hs]); unfold get_semantic; rewrite Hs; simpl; [|unfold api_ok; naive_solver].
  rewrite Hi, Hb. unfold api_ok; simpl. naive_solver.
Qed.

Lemma bm25_raise q d e :
  is_Some (InvertedIndex.doc_table I !! d) -> BM25.score (BM25.default I) q d = Raise e ->
  e = ZeroDivisionError /\ q <> [] /\ BM25.total_length I = 0%nat.
Proof.
  intros Hd Hs. destruct (score_raise_cases (BM25.default I) q d e Hd Hs) as (-> & Ha & Hq).
  split_and!; [done|done|]. by apply init_avgdl_zero in Ha.
Qed.

Lemma semantic_ok text d :
  is_Some (InvertedIndex.doc_table I !! d) -> exists p, semantic_score embed (mkSemantic I stored) text d = Ok p.
Proof.
  intros Hd. destruct (stored_cover d Hd) as [v Hv]. unfold semantic_score, cosine. simpl.
  rewrite Hv, bool_decide_true by (rewrite embed_dim; symmetry; by eapply stored_dim).
  destruct (Req_dec_T _ _); eauto.
Qed.

Lemma scorer_ok a req :
  api_ok a ->
  api_ok (scorer embed stored a req).1 /\
  forall d e, is_Some (InvertedIndex.doc_table I !! d) ->
    (scorer embed stored a req).2 d = Raise e -> empty_index_error req e.
Proof.
  intros Ha. unfold scorer. destruct (useSemantic req).
  - destruct (get_semantic_ok a Ha) as [Ha' Hh].
    destruct (get_semantic stored a) as [a' h]. simpl in *. subst h. split; [done|].
    intros d e Hd. unfold hybrid_score. simpl.
    destruct (BM25.score _ _ d) as [b|e'] eqn:Hbm; simpl.
    + destruct (semantic_ok (String.concat " " (query_tokens req)) d Hd) as [p ->]. done.
    + intros [= <-]. by apply bm25_raise in Hbm.
  - split; [done|]. intros d e Hd. simpl. destruct Ha as (_ & -> & _).
    destruct (BM25.score _ _ d) as [b|e'] eqn:Hbm; simpl; [done|].
    intros [= <-]. by apply bm25_raise in Hbm.
Qed.

Lemma keep_no_raise site d e :
  is_Some (InvertedIndex.doc_table I !! d) -> keep I site d <> Raise e.
Proof.
  intros [doc Hd]. unfold keep. destruct site; [|done]. case_bool_decide; [done|]. by rewrite Hd.
Qed.

Lemma elem_of_table_ids d :
  d ∈ (map_to_list (InvertedIndex.doc_table I)).*1 -> is_Some (InvertedIndex.doc_table I !! d).
Proof. intros ([d' x] & -> & Hx)%list_elem_of_fmap. apply elem_of_map_to_list in Hx. by exists x. Qed.

(** One request: the state stays [api_ok], and the answer is a list of
    hits or the empty-index [ZeroDivisionError]. *)
Lemma search_ok a req :
  api_ok a ->
  api_ok (search embed stored a req).1 /\
  forall e, (search embed stored a req).2 = Raise e -> empty_index_error req e.
Proof.
  intros Ha. pose proof (scorer_ok a req Ha) as [Ha' Hsc].
  unfold search, search_in, ranked_in. destruct Ha as (Hi & _ & _). rewrite Hi.
  destruct (scorer embed stored a req) as [a1 sc]. simpl in *. split; [done|].
  intros e. unfold ranked_by.
  destruct (candidates_of I (site req) sc _) as [c|e'] eqn:Hc; simpl.
  - intros (x & Hx & Hmk)%result_map_raise. exfalso.
    apply elem_of_py_slice_upto in Hx. rewrite sort_reverse_perm in Hx.
    destruct (candidates_of_spec I (site req) sc _ c Hc) as (Hin & _).
    destruct (Hin x Hx) as (Hd & _). apply elem_of_table_ids in Hd as [doc Hd].
    unfold make_hit in Hmk. by rewrite Hd in Hmk.
  - intros [= <-]. apply candidates_of_raise in Hc as (d & Hd & [Hk|Hs]);
      apply elem_of_table_ids in Hd; [by apply keep_no_raise in Hk|by apply (Hsc d e')].
Qed.

Lemma serve_ok a reqs :
  api_ok a ->
  api_ok (serve embed stored a reqs).1 /\
  forall i req e, reqs !! i = Some req -> (serve embed stored a reqs).2 !! i = Some (Raise e) ->
    empty_index_error req e.
Proof.
  revert a. induction reqs as [|req reqs IH]; intros a Ha; simpl; [split; [done|by intros []]|].
  destruct (search_ok a req Ha) as [Ha1 Herr].
  destruct (search embed stored a req) as [a1 res]. simpl in *.
  destruct (IH a1 Ha1) as [Ha2 Hrest]. destruct (serve embed stored a1 reqs) as [a2 outs].
  simpl in *. split; [done|]. intros [|i] r e; simpl; [intros [= <-] [= ->]; by apply Herr|].
  apply Hrest.
Qed.

End ServeFacts.

(** A crawl whose only page ([the], a stop word) leaves an empty
    document. *)
Definition demo_crawl_empty : list action :=
  [APop 0 "https://fastapi.tiangolo.com/" 1%Q; AResume 0 (html_page "the") 2%Q].

Definition demo_requests : list SearchRequest :=
  [mkRequest "fastapi" 10 true None None; mkRequest "" 10 false None None].

(** ** The serving property *)

Section ServeClaims.

(** C8: serving what [run_pipeline.py] wrote: [main.py] starts (the
    snapshot in [data/index.pkl] loads, as the index of a well-formed
    index) and answers every sequence of requests, each with hits, except
    in one case when the embedding model has a fixed dimension:
    [ZeroDivisionError] from BM25, for a non-empty query, when every
    indexed document has no token. *)
Theorem serve_pipeline_output sha256 soup_of nlp STOPWORDS hash32 perms bands rows encode listdir
    s D snap E reqs :
  (forall m, listdir m ≡ₚ map_to_list m) -> (forall u, no_dot (sha256 u)) ->
  (forall t, length (encode t) = D) ->
  run_pipeline sha256 soup_of nlp STOPWORDS hash32 perms bands rows encode listdir s = Ok (snap, E) ->
  exists idx outs, snap = InvertedIndex.save idx /\ InvertedIndex.wf idx /\
    main encode E snap reqs = Ok outs /\
    forall i req e, reqs !! i = Some req -> outs !! i = Some (Raise e) ->
      e = ZeroDivisionError /\ query_tokens req <> [] /\ BM25.total_length idx = 0%nat.
Proof.
  intros Hls Hhex Hdim. unfold run_pipeline, crawl_result.
  destruct (raised_exc (workers s)); simpl; [done|].
  intros Hst. pose proof Hst as (idx & -> & Hwf & _ & Hcov)%run_stages_ok; [|done|done].
  assert (forall d v, E !! d = Some v -> length v = D) as HEdim.
  { intros d v Hv. unfold run_stages in Hst.
    destruct (parse_all _ _ _ _ _); simpl in Hst; [|done].
    destruct (dedupe_on _ _ _ _ _ _); simpl in Hst; [|done].
    rewrite embedder_build_on_init in Hst.
    destruct (embedder_build _ _) as [E'|] eqn:HE; simpl in Hst; [|done].
    assert (E' = E) as <- by congruence.
    destruct (embedder_go_values encode ∅ _ _ d v HE Hv) as [Hv0|[t ->]];
      [by rewrite lookup_empty in Hv0|apply Hdim]. }
  destruct (serve_ok encode E idx D (fun d Hd => proj1 (Hcov d) Hd) Hdim HEdim (api_init idx) reqs
              (api_ok_init _ _)) as [_ Herr].
  exists idx, (serve encode E (api_init idx) reqs).2. split_and!; [done|done| |exact Herr].
  unfold main, api_start. by rewrite (proj2 (load_index_iff (InvertedIndex.save idx) idx) eq_refl).
Qed.

Lemma serve_pipeline_output_witness :
  exists idx outs,
    (ok_or (InvertedIndex.save InvertedIndex.empty, ∅) (demo_run demo_crawl_empty)).1 =
      InvertedIndex.save idx /\ InvertedIndex.wf idx /\
    main (fun _ => [1%R]) (ok_or (InvertedIndex.save InvertedIndex.empty, ∅) (demo_run demo_crawl_empty)).2
      (ok_or (InvertedIndex.save InvertedIndex.empty, ∅) (demo_run demo_crawl_empty)).1
      demo_requests = Ok outs /\
    forall i req e, demo_requests !! i = Some req -> outs !! i = Some (Raise e) ->
      e = ZeroDivisionError /\ query_tokens req <> [] /\ BM25.total_length idx = 0%nat.
Proof.
  apply (serve_pipeline_output demo_digest demo_soup demo_nlp demo_stopwords demo_hash32 demo_perms
           4 32 (fun _ => [1%R]) map_to_list (demo_crawled demo_crawl_empty) 1).
  - intros m. reflexivity.
  - apply no_dot_demo_digest.
  - reflexivity.
  - vm_compute. reflexivity.
Defined.

End ServeClaims.
