(* ===== verification/Concurrent.v ===== *)
(** * Concurrent: uvicorn's thread pool answering [/search] requests

    [search] in [src/src/api.py] is a plain [def] endpoint, so FastAPI
    runs each request on a worker thread of its pool, and the threads
    share the module globals of [api.py].  The index and [bm25] are
    fixed once the module has run (lines 17-26); [semantic] and
    [hybrid] (lines 27-28) are written by [get_semantic] (lines 30-35),
    a check-then-act on [semantic] with no lock.

    [Globals] are the module globals, with [loads] counting the reads of
    [data/embeddings.pkl].  A thread is its request and its position
    [pc] in [get_semantic]; [thread_step] is one atomic step of a thread
    at that position, and [pool_step] interleaves the threads: one
    thread of the pool, any thread, takes a step.  A step is one read or
    write of a global: the check of line 32, the store of line 33 (the
    read of the file before it touches no global), the read of [bm25]
    and [semantic] of line 34, the store of line 34, and the read of
    [hybrid] by [return] on line 35.  Past [get_semantic] a thread only
    reads the fixed index and its own [hybrid_ranker], so the rest of
    the handler is the function [answer_with] of the position
    [Scoring].  [run_sched] runs a schedule, a list of thread ids, and
    stutters on an id with no step.

    The theorems: every answer of every interleaving is the answer of
    the sequential [serve], or [AttributeError] (a thread that reads [hybrid] between
    another thread's two stores gets [None]); and both the
    [AttributeError] and a second read of the embeddings file happen on
    some schedule. *)

From S2P Require Import Prelude Index Ranker Search Serve.
From Stdlib Require Import Reals.

Section Pool.
(** [SentenceTransformer('all-MiniLM-L6-v2').encode], and the contents
    of [data/embeddings.pkl]. *)
Variable embed : string -> list R.
Variable stored : gmap string (list R).

(** The module globals of [api.py], lines 19-28, and the number of
    [SemanticRanker] constructions, each a read of
    [data/embeddings.pkl]. *)
Record Globals := mkGlobals {
  g_index : InvertedIndex.t;
  g_bm25 : BM25.t;
  semantic : option SemanticRanker;
  hybrid : option HybridRanker;
  loads : nat
}.

(** Lines 19-28 after the snapshot is loaded into [index]. *)
Definition globals_init (I : InvertedIndex.t) : Globals :=
  mkGlobals I (BM25.default I) None None 0.

(** Where a thread is in [search]: before a line of [get_semantic], or
    past line 42 with its [hybrid_ranker] ([None] when [useSemantic] is
    false: the name is then never read). *)
Inductive pc :=
  | AtCheck
  | AtLoad
  | AtHybrid
  | AtStoreHybrid (h : HybridRanker)
  | AtReturn
  | Scoring (hybrid_ranker : option HybridRanker).

(** One atomic step of [get_semantic], lines 32-35.  Line 34 reads the
    global [semantic], which another thread may have written since this
    thread's line 33; no thread ever resets it to [None], so the [None]
    case of [AtHybrid] is never reached. *)
Definition thread_step (g : Globals) (p : pc) : option (Globals * pc) :=
  match p with
  | AtCheck =>
      Some (g, match semantic g with None => AtLoad | Some _ => AtReturn end)
  | AtLoad =>
      Some (mkGlobals (g_index g) (g_bm25 g) (Some (mkSemantic (g_index g) stored))
              (hybrid g) (S (loads g)), AtHybrid)
  | AtHybrid =>
      match semantic g with
      | Some s => Some (g, AtStoreHybrid (mkHybrid (g_bm25 g) s 0.7))
      | None => None
      end
  | AtStoreHybrid h =>
      Some (mkGlobals (g_index g) (g_bm25 g) (semantic g) (Some h) (loads g), AtReturn)
  | AtReturn => Some (g, Scoring (hybrid g))
  | Scoring _ => None
  end.

Record Thread := mkThread {
  t_req : SearchRequest;
  t_pc : pc
}.

(** A request arriving: line 41 calls [get_semantic] when [useSemantic]
    holds. *)
Definition thread_start (req : SearchRequest) : Thread :=
  mkThread req (if useSemantic req then AtCheck else Scoring None).

(** The globals and the threads in flight. *)
Definition Pool : Type := Globals * list Thread.

Definition pool_init (I : InvertedIndex.t) (reqs : list SearchRequest) : Pool :=
  (globals_init I, thread_start <$> reqs).

(** Some thread of the pool takes a step. *)
Inductive pool_step : relation Pool :=
  | pool_step_at i g ts t g' p' :
      ts !! i = Some t -> thread_step g (t_pc t) = Some (g', p') ->
      pool_step (g, ts) (g', <[i := mkThread (t_req t) p']> ts).

(** The executable scheduler: thread [i] steps, or nothing happens. *)
Definition step_at (i : nat) (c : Pool) : Pool :=
  match c.2 !! i with
  | Some t =>
      match thread_step c.1 (t_pc t) with
      | Some (g', p') => (g', <[i := mkThread (t_req t) p']> c.2)
      | None => c
      end
  | None => c
  end.

Definition run_sched (sched : list nat) (c : Pool) : Pool :=
  foldl (fun c i => step_at i c) c sched.

(** The scorer of line 46 with the thread's [hybrid_ranker]: calling
    [score] on [None] raises [AttributeError]. *)
Definition scorer_with (b : BM25.t) (ho : option HybridRanker) (req : SearchRequest)
    : string -> result pyfloat :=
  let q := query_tokens req in
  if useSemantic req then
    match ho with
    | Some h => hybrid_score embed h q
    | None => fun _ => Raise AttributeError
    end
  else fun d => r <- BM25.score b q d ;; Ok (Num r).

(** Lines 43-61 for a thread past [get_semantic]. *)
Definition answer_with (I : InvertedIndex.t) (b : BM25.t) (req : SearchRequest)
    (ho : option HybridRanker) : result (list Hit) :=
  top <- ranked_by I (site req) (scorer_with b ho req)
           (map_to_list (InvertedIndex.doc_table I)).*1 (topK req) ;;
  result_map (make_hit I (query_tokens req)) top.

(** A thread's answer, once it is past [get_semantic]. *)
Definition respond (g : Globals) (t : Thread) : option (result (list Hit)) :=
  match t_pc t with
  | Scoring ho => Some (answer_with (g_index g) (g_bm25 g) (t_req t) ho)
  | _ => None
  end.

(** Threads past the load of line 33 (or that skipped it). *)
Definition past_load (t : Thread) : nat :=
  match t_pc t with AtCheck | AtLoad => 0 | _ => 1 end.

End Pool.

(** ** The pool's invariant *)

Section PoolFacts.
Variable embed : string -> list R.
Variable stored : gmap string (list R).
Variable I : InvertedIndex.t.

(** The globals while serving [I]: [semantic] and [hybrid] are unset or
    the pair [get_semantic] builds. *)
Definition glob_ok (g : Globals) : Prop :=
  g_index g = I /\ g_bm25 g = BM25.default I /\
  (semantic g = None \/ semantic g = Some (mkSemantic I stored)) /\
  (hybrid g = None \/ hybrid g = Some (hybrid0 stored I)).

(** What a thread at each position knows of the globals. *)
Definition thread_ok (g : Globals) (t : Thread) : Prop :=
  match t_pc t with
  | AtCheck | AtLoad => True
  | AtHybrid | AtReturn => semantic g = Some (mkSemantic I stored)
  | AtStoreHybrid h => semantic g = Some (mkSemantic I stored) /\ h = hybrid0 stored I
  | Scoring ho => ho = None \/ ho = Some (hybrid0 stored I)
  end.

Definition pool_ok (c : Pool) : Prop :=
  glob_ok c.1 /\ Forall (thread_ok c.1) c.2 /\ (loads c.1 <= sum_list_with past_load c.2)%nat.

Lemma thread_ok_mono g g' t :
  (semantic g = Some (mkSemantic I stored) -> semantic g' = Some (mkSemantic I stored)) ->
  thread_ok g t -> thread_ok g' t.
Proof. unfold thread_ok. destruct (t_pc t); naive_solver. Qed.

(** One step of a thread keeps the invariant, never unsets [semantic],
    and reads the file only when it leaves line 33. *)
Lemma thread_step_ok g r p g' p' :
  thread_step stored g p = Some (g', p') -> glob_ok g -> thread_ok g (mkThread r p) ->
  glob_ok g' /\ thread_ok g' (mkThread r p') /\
  (semantic g = Some (mkSemantic I stored) -> semantic g' = Some (mkSemantic I stored)) /\
  (loads g' + past_load (mkThread r p) <= loads g + past_load (mkThread r p'))%nat.
Proof.
  intros Hs (Hi & Hb & Hsem & Hhy). unfold thread_ok, past_load; simpl.
  destruct p; simpl in Hs; [destruct (semantic g) eqn:E| | destruct (semantic g) eqn:E | | |];
    simplify_eq/=; unfold glob_ok; simpl; rewrite ?Hi, ?Hb; try (destruct Hsem; congruence);
    naive_solver lia.
Qed.

Lemma pool_step_ok c c' : pool_step stored c c' -> pool_ok c -> pool_ok c'.
Proof.
  destruct 1 as [i g ts t g' p' Hi Hs]. intros (Hg & Hts & Hl).
  pose proof (proj1 (Forall_lookup _ _) Hts i t Hi) as Ht.
  destruct t as [r p]. simpl in *.
  destruct (thread_step_ok g r p g' p' Hs Hg Ht) as (Hg' & Ht' & Hmono & Hload).
  pose proof (sum_list_with_insert past_load ts i _ (mkThread r p') Hi).
  split_and!; [done| |simpl in *; lia].
  apply Forall_insert; [|done]. eapply Forall_impl; [exact Hts|]. intros t0. by apply thread_ok_mono.
Qed.

Lemma pool_step_reqs c c' : pool_step stored c c' -> t_req <$> c'.2 = t_req <$> c.2.
Proof.
  destruct 1 as [i g ts t g' p' Hi Hs]. simpl.
  by rewrite list_fmap_insert, list_insert_id by (by rewrite list_lookup_fmap, Hi).
Qed.

Lemma pool_init_ok reqs : pool_ok (pool_init I reqs).
Proof.
  split_and!; [unfold glob_ok; naive_solver| |simpl; lia].
  apply Forall_fmap, Forall_forall. intros req _. unfold thread_start, thread_ok; simpl.
  destruct (useSemantic req); naive_solver.
Qed.

(** Every pool reachable from the requests [reqs] keeps the invariant
    and the requests. *)
Lemma reachable_ok reqs c :
  rtc (pool_step stored) (pool_init I reqs) c -> pool_ok c /\ t_req <$> c.2 = reqs.
Proof.
  intros Hr. pattern c. eapply rtc_ind_r; [..|exact Hr]; clear c Hr.
  - split; [apply pool_init_ok|]. simpl. rewrite <- list_fmap_compose.
    rewrite <- (list_fmap_id reqs) at 2. apply list_fmap_ext. intros _ req _.
    unfold thread_start. simpl. by destruct (useSemantic req).
  - intros c1 c2 _ Hs [Hok Hreq].
    split; [by eapply pool_step_ok|]. by rewrite (pool_step_reqs _ _ Hs).
Qed.

(** ** Answers *)

(** [None] as [hybrid_ranker] changes the answer only into
    [AttributeError]: the first document scored raises it. *)
Lemma candidates_of_attribute_error site f ids :
  candidates_of I site (fun _ => Raise AttributeError) ids = candidates_of I site f ids \/
  candidates_of I site (fun _ => Raise AttributeError) ids = Raise AttributeError.
Proof.
  induction ids as [|d ids IH]; simpl; [by left|].
  destruct (keep I site d) as [[]|e]; simpl; [by right|exact IH|by left].
Qed.

Lemma answer_with_none b req ho :
  answer_with embed I b req None = answer_with embed I b req ho \/
  answer_with embed I b req None = Raise AttributeError.
Proof.
  unfold answer_with, ranked_by, scorer_with. destruct (useSemantic req); [|by left].
  destruct (candidates_of_attribute_error (site req)
              (match ho with Some h => hybrid_score embed h (query_tokens req)
                        | None => fun _ => Raise AttributeError end)
              (map_to_list (InvertedIndex.doc_table I)).*1) as [-> | ->]; [by left|by right].
Qed.

Lemma bm25_no_attribute_error bm q d : BM25.score bm q d <> Raise AttributeError.
Proof.
  intros H. destruct (InvertedIndex.doc_table (BM25.index bm) !! d) eqn:Hd.
  - by destruct (score_raise_cases bm q d _ (mk_is_Some _ _ Hd) H).
  - by rewrite (proj1 (score_raises bm q d) Hd) in H.
Qed.

Lemma semantic_no_attribute_error s text d : semantic_score embed s text d <> Raise AttributeError.
Proof.
  unfold semantic_score, cosine. destruct (_ !! d); [|done].
  case_bool_decide; [|done]. by destruct (Req_dec_T _ _).
Qed.

(** With a ranker, the handler never raises [AttributeError]. *)
Lemma answer_no_attribute_error b req h : answer_with embed I b req (Some h) <> Raise AttributeError.
Proof.
  unfold answer_with, ranked_by. intros H.
  destruct (candidates_of I (site req) _ _) as [c|e] eqn:Hc; simpl in H.
  - apply result_map_raise in H as (x & _ & Hx). unfold make_hit in Hx. by destruct (_ !! x.2).
  - injection H as ->. apply candidates_of_raise in Hc as (d & _ & [Hk|Hs]).
    + unfold keep in Hk. destruct (site req); [|done]. case_bool_decide; [done|]. by destruct (_ !! d).
    + unfold scorer_with, hybrid_score in Hs. destruct (useSemantic req).
      * destruct (BM25.score _ _ d) eqn:Hb; simpl in Hs; [|injection Hs as ->; by eapply bm25_no_attribute_error].
        destruct (semantic_score _ _ _ d) eqn:Hsem; simpl in Hs; [done|].
        injection Hs as ->. by eapply semantic_no_attribute_error.
      * destruct (BM25.score b _ d) eqn:Hb; simpl in Hs; [done|].
        injection Hs as ->. by eapply bm25_no_attribute_error.
Qed.

(** The sequential handler on a state while serving [I] answers with
    the ranker [get_semantic] builds. *)
Lemma search_answer a req :
  api_ok stored I a ->
  api_ok stored I (search embed stored a req).1 /\
  (search embed stored a req).2 = answer_with embed I (BM25.default I) req (Some (hybrid0 stored I)).
Proof.
  intros Ha. pose proof (get_semantic_ok stored I a Ha) as [Ha' Hh].
  pose proof Ha as (Hi & Hb & _). unfold search, search_in, ranked_in, scorer, answer_with, scorer_with.
  rewrite Hi. destruct (useSemantic req); simpl.
  - destruct (get_semantic stored a) as [a1 h]. simpl in *. by subst h.
  - by rewrite Hb.
Qed.

Lemma serve_answers a reqs :
  api_ok stored I a ->
  (serve embed stored a reqs).2 =
    (fun req => answer_with embed I (BM25.default I) req (Some (hybrid0 stored I))) <$> reqs.
Proof.
  revert a. induction reqs as [|req reqs IH]; intros a Ha; [done|]. simpl.
  destruct (search_answer a req Ha) as [Ha1 Hr].
  destruct (search embed stored a req) as [a1 r]. simpl in *. rewrite <- Hr.
  specialize (IH a1 Ha1). destruct (serve embed stored a1 reqs). simpl in *. by rewrite IH.
Qed.

Lemma sum_past_load_le ts : (sum_list_with past_load ts <= length ts)%nat.
Proof. induction ts as [|t ts IH]; simpl; [lia|]. unfold past_load at 1. destruct (t_pc t); lia. Qed.

(** The answer of a thread that got [None] from [get_semantic]:
    [AttributeError] from the first document, when there is one and no
    site filter. *)
Lemma answer_with_attribute_error b req :
  useSemantic req = true -> site req = None -> InvertedIndex.doc_table I <> ∅ ->
  answer_with embed I b req None = Raise AttributeError.
Proof.
  intros Hu Hs Hne. unfold answer_with, ranked_by, scorer_with. rewrite Hu, Hs.
  destruct (map_to_list (InvertedIndex.doc_table I)) as [|[d x] l] eqn:E; [|done].
  by apply map_to_list_empty_iff in E.
Qed.

(** ** Schedules *)

Lemma run_sched_rtc sched c : rtc (pool_step stored) c (run_sched stored sched c).
Proof.
  revert c. induction sched as [|i sched IH]; intros c; [done|]. simpl.
  etrans; [|apply IH]. destruct c as [g ts]. unfold step_at. simpl.
  destruct (ts !! i) as [t|] eqn:Hi; [|done].
  destruct (thread_step stored g (t_pc t)) as [[g' p']|] eqn:Hs; [|done].
  apply rtc_once. by econstructor.
Qed.

End PoolFacts.

(** ** Demo data *)

(** Two semantic requests with no site filter, on the three-document
    index of [Ranker.scenario_index]. *)
Definition demo_race_requests : list SearchRequest :=
  [mkRequest "a" 10 true None None; mkRequest "b" 10 true None None].

(** Thread 0 stores [semantic]; thread 1 checks and returns before
    thread 0 stores [hybrid]. *)
Definition demo_schedule : list nat := [0; 0; 1; 1; 0; 0; 0].

Definition demo_pool : Pool :=
  run_sched ∅ demo_schedule (pool_init scenario_index demo_race_requests).

(** ** The pool's properties *)

Section PoolClaims.

(** C9: every interleaving of concurrent requests (reachable from the
    freshly loaded module) reads [data/embeddings.pkl] at most once per
    request, and each answer a thread has is the answer the sequential
    [serve] gives to the same request, or [AttributeError]. *)
Theorem pool_answers embed stored I reqs c :
  rtc (pool_step stored) (pool_init I reqs) c ->
  (loads c.1 <= length reqs)%nat /\
  forall i t r, c.2 !! i = Some t -> respond embed c.1 t = Some r ->
    (serve embed stored (api_init I) reqs).2 !! i = Some r \/ r = Raise AttributeError.
Proof.
  intros Hr. destruct (reachable_ok stored I reqs c Hr) as [((Hi & Hb & _) & Hts & Hl) Hreq].
  split; [pose proof (sum_past_load_le c.2); rewrite <- Hreq, length_fmap; lia|].
  intros i t r Hti Hresp. rewrite (serve_answers embed stored I) by apply api_ok_init.
  rewrite list_lookup_fmap, <- Hreq, list_lookup_fmap, Hti. simpl.
  pose proof (proj1 (Forall_lookup _ _) Hts i t Hti) as Ht.
  unfold respond in Hresp. unfold thread_ok in Ht.
  destruct (t_pc t) as [| | | | |ho]; try discriminate. injection Hresp as <-. rewrite Hi, Hb.
  destruct Ht as [-> | ->]; [|by left].
  destruct (answer_with_none embed I (BM25.default I) (t_req t) (Some (hybrid0 stored I)))
    as [-> | ->]; [by left|by right].
Qed.

(** C10: the race of [get_semantic]: two semantic requests, the second
    without a site filter, on an index with a document.  When the
    second thread runs lines 32 and 35 between the first thread's
    stores of lines 33 and 34, the first gets its sequential answer and
    the second [AttributeError], which the sequential [serve] never
    gives it; when both threads pass the check of line 32 before either
    stores, the embeddings file is read twice. *)
Theorem get_semantic_race embed stored I r1 r2 :
  useSemantic r1 = true -> useSemantic r2 = true -> site r2 = None ->
  InvertedIndex.doc_table I <> ∅ ->
  (let c := run_sched stored [0; 0; 1; 1; 0; 0; 0] (pool_init I [r1; r2]) in
   respond embed c.1 <$> c.2 =
     [(serve embed stored (api_init I) [r1; r2]).2 !! 0; Some (Raise AttributeError)]) /\
  (serve embed stored (api_init I) [r1; r2]).2 !! 1 <> Some (Raise AttributeError) /\
  loads (run_sched stored [0; 1; 0; 1] (pool_init I [r1; r2])).1 = 2%nat.
Proof.
  intros Hu1 Hu2 Hs2 Hne. rewrite (serve_answers embed stored I) by apply api_ok_init.
  unfold pool_init, thread_start. simpl. rewrite Hu1, Hu2. simpl. unfold respond. simpl.
  rewrite (answer_with_attribute_error embed I _ r2 Hu2 Hs2 Hne).
  split_and!; [done| |done]. intros [= Hr]. by eapply answer_no_attribute_error.
Qed.

Lemma pool_answers_witness :
  (loads demo_pool.1 <= length demo_race_requests)%nat /\
  forall i t r, demo_pool.2 !! i = Some t -> respond (fun _ => [1%R]) demo_pool.1 t = Some r ->
    (serve (fun _ => [1%R]) ∅ (api_init scenario_index) demo_race_requests).2 !! i = Some r \/
    r = Raise AttributeError.
Proof. apply pool_answers. apply run_sched_rtc. Defined.

Lemma get_semantic_race_witness :
  (let c := run_sched ∅ [0; 0; 1; 1; 0; 0; 0] (pool_init scenario_index demo_race_requests) in
   respond (fun _ => [1%R]) c.1 <$> c.2 =
     [(serve (fun _ => [1%R]) ∅ (api_init scenario_index) demo_race_requests).2 !! 0;
      Some (Raise AttributeError)]) /\
  (serve (fun _ => [1%R]) ∅ (api_init scenario_index) demo_race_requests).2 !! 1 <>
    Some (Raise AttributeError) /\
  loads (run_sched ∅ [0; 1; 0; 1] (pool_init scenario_index demo_race_requests)).1 = 2%nat.
Proof.
  apply get_semantic_race; [reflexivity|reflexivity|reflexivity|].
  intros H. apply (f_equal size) in H. vm_compute in H. discriminate.
Defined.

End PoolClaims.
